(** * AVF simulator: hemodynamics core

    A shallow embedding of the simulation library of the AVF pre-operative
    simulator (blood-properties.ts, flow-solver.ts, geometry.ts,
    wss-calculator.ts, prediction.ts and constants.ts) together with the
    properties that its specification states about it.

    Number model.  A JavaScript [number] is read as a real number: [+], [-],
    [*], [/] are the field operations of [R], [Math.sin], [Math.cos],
    [Math.sqrt] and [Math.PI] are [sin], [cos], [sqrt] and [PI], and
    [Math.pow x k] is [x ^ k] for a literal natural exponent and [Rpower]
    for a fractional exponent on a positive base.  Rounding, overflow and
    NaN are outside this model.  Where the source can leave the finite
    numbers or throw (a division by a computed quantity that may vanish in
    the geometry, [reduce] without a seed on an empty array) the embedding
    returns [option] and [None] stands for that outcome.  A quantity that
    leaves the finite numbers without reaching the result (the opening
    width of [modifyArteryWallForAnastomosis], which is only compared with
    abscissae) does not make the result [None]. *)

From Stdlib Require Import Reals Lra Lia List Bool Arith.
From Stdlib Require String.
Import String.StringSyntax.
Import ListNotations.

Delimit Scope string_scope with string.

Open Scope R_scope.

(** ** Comparisons of numbers as booleans *)

Definition Rleb (x y : R) : bool := if Rle_dec x y then true else false.
Definition Rltb (x y : R) : bool := if Rlt_dec x y then true else false.
Definition Rgeb (x y : R) : bool := Rleb y x.
Definition Rgtb (x y : R) : bool := Rltb y x.

(** ** A small error monad for the places where the source can fail *)

Definition bind {A B : Type} (m : option A) (k : A -> option B) : option B :=
  match m with
  | Some a => k a
  | None => None
  end.

Notation "x <- m ;; k" := (bind m (fun x => k))
  (at level 61, m at next level, right associativity).

Fixpoint mapM {A B : Type} (f : A -> option B) (l : list A) : option (list B) :=
  match l with
  | [] => Some []
  | a :: tl => b <- f a ;; bs <- mapM f tl ;; Some (b :: bs)
  end.

(** [a / b] where a vanishing divisor takes the result out of the finite
    numbers. *)
Definition fdiv (a b : R) : option R :=
  if Req_dec_T b 0 then None else Some (a / b).

(** [arr.reduce((a, b) => a + b)]: no seed, throws on an empty array. *)
Definition reduce_sum (l : list R) : option R :=
  match l with
  | [] => None
  | x :: tl => Some (fold_left Rplus tl x)
  end.

(** [arr.reduce(f, init)] with a seed. *)
Definition reduce_seed {A : Type} (f : R -> A -> R) (init : R) (l : list A) : R :=
  fold_left f l init.

(** ** constants.ts *)

Module Constants.

Record CarreauConst := mkCarreau {
  c_mu_inf : R;
  c_mu_0 : R;
  c_lambda : R;
  c_n : R
}.

Definition CARREAU : CarreauConst :=
  mkCarreau 0.00345 0.056 3.313 0.3568.

Record HctRow := mkRow {
  hct : R;
  mu_inf : R;
  mu_0 : R
}.

Definition HCT_VISCOSITY_TABLE : list HctRow :=
  [ mkRow 20 0.00220 0.025;
    mkRow 25 0.00260 0.032;
    mkRow 30 0.00280 0.037;
    mkRow 35 0.00300 0.042;
    mkRow 40 0.00320 0.048;
    mkRow 45 0.00345 0.056;
    mkRow 50 0.00400 0.065;
    mkRow 55 0.00450 0.075 ].

Definition BLOOD_DENSITY : R := 1060.

Definition CANVAS_width : R := 800.
Definition CANVAS_height : R := 500.
Definition CANVAS_vesselScale : R := 28.

End Constants.

(** ** blood-properties.ts *)

Module BloodProperties.
Import Constants.

Record HctParams := mkParams {
  p_mu_inf : R;
  p_mu_0 : R
}.

Definition rowParams (r : HctRow) : HctParams := mkParams (mu_inf r) (mu_0 r).

(** The body of the [for] loop of [interpolateHctParams] at one pair of
    neighbouring rows. *)
Definition interpolateBetween (h : R) (lo hi : HctRow) : HctParams :=
  let frac := (h - hct lo) / (hct hi - hct lo) in
  mkParams (mu_inf lo + frac * (mu_inf hi - mu_inf lo))
           (mu_0 lo + frac * (mu_0 hi - mu_0 lo)).

(** The [for] loop: the first pair of neighbours that brackets [h]. *)
Fixpoint searchBracket (h : R) (table : list HctRow) : option HctParams :=
  match table with
  | lo :: ((hi :: _) as rest) =>
      if Rgeb h (hct lo) && Rleb h (hct hi)
      then Some (interpolateBetween h lo hi)
      else searchBracket h rest
  | _ => None
  end.

Definition dummyRow : HctRow := mkRow 0 0 0.

Definition interpolateHctParamsIn (table : list HctRow) (h : R) : HctParams :=
  let first := hd dummyRow table in
  let final := last table dummyRow in
  if Rleb h (hct first) then rowParams first
  else if Rgeb h (hct final) then rowParams final
  else match searchBracket h table with
       | Some p => p
       | None => mkParams (c_mu_inf CARREAU) (c_mu_0 CARREAU)
       end.

Definition interpolateHctParams (h : R) : HctParams :=
  interpolateHctParamsIn HCT_VISCOSITY_TABLE h.

Definition carreauViscosity (shearRate h : R) : R :=
  let p := interpolateHctParams h in
  let lambda := c_lambda CARREAU in
  let n := c_n CARREAU in
  let gammaDotClamped := Rmax shearRate 0.1 in
  let term := 1 + (lambda * gammaDotClamped) ^ 2 in
  p_mu_inf p + (p_mu_0 p - p_mu_inf p) * Rpower term ((n - 1) / 2).

Definition wallShearRate (flowRate_m3s radius_m : R) : R :=
  let n := c_n CARREAU in
  let newtonianShearRate := (4 * flowRate_m3s) / (PI * radius_m ^ 3) in
  let correction := (3 * n + 1) / (4 * n) in
  correction * newtonianShearRate.

Definition meanVelocity (flowRate_m3s radius_m : R) : R :=
  flowRate_m3s / (PI * radius_m * radius_m).

Definition reynoldsNumber (velocity diameter_m viscosity : R) : R :=
  (BLOOD_DENSITY * velocity * diameter_m) / viscosity.

Record BloodPropertiesT := mkBlood {
  viscosity : R;
  density : R;
  bp_reynoldsNumber : R;
  shearRate : R
}.

(** The mutable pair [(viscosity, shearRate)] of [calculateBloodProperties]
    and one turn of its [for] loop. *)
Definition LoopState : Type := (R * R)%type.

Definition loopBody (flowRate_m3s radius_m h : R) (st : LoopState) : LoopState :=
  let shear := wallShearRate flowRate_m3s radius_m in
  let visc := carreauViscosity shear h in
  (visc, shear).

Fixpoint iterate {A : Type} (k : nat) (f : A -> A) (a : A) : A :=
  match k with
  | O => a
  | S k' => iterate k' f (f a)
  end.

Definition calculateBloodPropertiesIter (iterations : nat)
    (flowRate_mLmin diameter_mm h : R) : BloodPropertiesT :=
  let flowRate_m3s := flowRate_mLmin / (1e6 * 60) in
  let radius_m := (diameter_mm / 2) * 1e-3 in
  let diameter_m := diameter_mm * 1e-3 in
  let st := iterate iterations (loopBody flowRate_m3s radius_m h)
                    (c_mu_inf CARREAU, 0) in
  let velocity := meanVelocity flowRate_m3s radius_m in
  let re := reynoldsNumber velocity diameter_m (fst st) in
  mkBlood (fst st) BLOOD_DENSITY re (snd st).

Definition calculateBloodProperties : R -> R -> R -> BloodPropertiesT :=
  calculateBloodPropertiesIter 5.

(** The single pass that the loop is compared with: the wall shear rate
    once, then the Carreau viscosity once. *)
Definition singlePassBloodProperties (flowRate_mLmin diameter_mm h : R)
    : BloodPropertiesT :=
  let flowRate_m3s := flowRate_mLmin / (1e6 * 60) in
  let radius_m := (diameter_mm / 2) * 1e-3 in
  let diameter_m := diameter_mm * 1e-3 in
  let shear := wallShearRate flowRate_m3s radius_m in
  let visc := carreauViscosity shear h in
  let velocity := meanVelocity flowRate_m3s radius_m in
  mkBlood visc BLOOD_DENSITY (reynoldsNumber velocity diameter_m visc) shear.

End BloodProperties.

(** ** types: the records shared by the modules *)

Record SimulationParams := mkSim {
  arteryDiameter : R;
  veinDiameter : R;
  anastomosisAngle : R;
  baseFlowRate : R;
  bloodFlowRate : R;
  hematocrit : R;
  heartRate : R;
  bloodPressure : R;
  systolicRatio : R
}.

Record FlowSplit := mkFlowSplit {
  veinFlowRate : R;
  distalFlowRate : R;
  veinFraction : R
}.

Record Point2D := mkPoint {
  px : R;
  py : R
}.

Inductive RegionType : Type :=
  | proximal_artery
  | distal_artery
  | vein_outer
  | vein_inner
  | anastomosis_toe
  | anastomosis_heel
  | anastomosis_floor
  | anastomosis_outer.

Record WallPoint := mkWallPoint {
  point : Point2D;
  normal : Point2D;
  regionType : RegionType;
  paramPosition : R
}.

Record WSSData := mkWSS {
  tawss : R;
  osi : R;
  rrt : R
}.

Definition RegionType_eqb (a b : RegionType) : bool :=
  match a, b with
  | proximal_artery, proximal_artery
  | distal_artery, distal_artery
  | vein_outer, vein_outer
  | vein_inner, vein_inner
  | anastomosis_toe, anastomosis_toe
  | anastomosis_heel, anastomosis_heel
  | anastomosis_floor, anastomosis_floor
  | anastomosis_outer, anastomosis_outer => true
  | _, _ => false
  end.

(** The eight tags of [RegionType], as a list. *)
Definition allRegions : list RegionType :=
  [ proximal_artery; distal_artery; vein_outer; vein_inner;
    anastomosis_toe; anastomosis_heel; anastomosis_floor; anastomosis_outer ].

(** [arr.map((p, i) => ...)] and [arr.forEach((p, i) => ...)]: the elements
    with their indices. *)
Definition indexed {A : Type} (l : list A) : list (nat * A) :=
  combine (seq 0 (length l)) l.

(** ** flow-solver.ts *)

Module FlowSolver.

Definition calculateFlowSplit (params : SimulationParams) : FlowSplit :=
  let arteryRadius := arteryDiameter params / 2 in
  let veinRadius := veinDiameter params / 2 in
  let angleRad := (anastomosisAngle params * PI) / 180 in
  let veinLength := 100 in
  let distalLength := 80 in
  let R_vein := veinLength / veinRadius ^ 4 in
  let R_distal := distalLength / (arteryRadius * 0.8) ^ 4 in
  let angleCorrection := 1 + 0.5 * (angleRad / (PI / 2)) ^ 2 in
  let R_vein_effective := R_vein * angleCorrection in
  let totalConductance := 1 / R_vein_effective + 1 / R_distal in
  let veinFraction := (1 / R_vein_effective) / totalConductance in
  let veinFlowRate := bloodFlowRate params * veinFraction in
  let distalFlowRate := bloodFlowRate params * (1 - veinFraction) in
  mkFlowSplit veinFlowRate distalFlowRate veinFraction.

(** The value pushed by one turn of the loop of [generatePulsatileWaveform]. *)
Definition flooredSample (heartRate systolicRatio : R) (numSteps i : nat) : R :=
  let T := 60 / heartRate in
  let t := (INR i / INR numSteps) * T in
  let phase := (2 * PI * t) / T in
  let A1 := 0.6 * (systolicRatio / 0.35) in
  let A2 := 0.25 in
  let A3 := 0.1 in
  let q := 1.0
           + A1 * sin phase
           + A2 * sin (2 * phase - 0.3)
           + A3 * sin (3 * phase - 0.6) in
  Rmax q 0.15.

(** The array before the normalisation. *)
Definition flooredWaveform (heartRate systolicRatio : R) (numSteps : nat) : list R :=
  map (flooredSample heartRate systolicRatio numSteps) (seq 0 numSteps).

Definition generatePulsatileWaveform (heartRate systolicRatio : R)
    (numSteps : nat) : option (list R) :=
  let waveform := flooredWaveform heartRate systolicRatio numSteps in
  total <- reduce_sum waveform ;;
  let mean := total / INR (length waveform) in
  Some (map (fun q => q / mean) waveform).

Definition defaultNumSteps : nat := 20.

End FlowSolver.

(** The sum and the arithmetic mean of a sequence, as the properties below
    use them. *)
Definition sumR (l : list R) : R := fold_right Rplus 0 l.
Definition mean_of (l : list R) : R := sumR l / INR (length l).

(** The two resistances of [calculateFlowSplit] before the angle correction. *)
Definition veinResistance (params : SimulationParams) : R :=
  100 / (veinDiameter params / 2) ^ 4.

Definition distalResistance (params : SimulationParams) : R :=
  80 / (arteryDiameter params / 2 * 0.8) ^ 4.

(** ** geometry.ts *)

Module Geometry.
Import Constants.

Record VesselGeometry := mkGeometry {
  arteryCenterline : list Point2D;
  veinCenterline : list Point2D;
  arteryUpperWall : list Point2D;
  arteryLowerWall : list Point2D;
  veinOuterWall : list Point2D;
  veinInnerWall : list Point2D;
  anastomosisPoint : Point2D;
  wallPoints : list WallPoint;
  recirculationZone : list Point2D;
  arteryLength : R;
  veinLength : R;
  g_arteryDiameter : R;
  g_veinDiameter : R;
  g_anastomosisAngle : R
}.

Definition cubicBezier (t : R) (p0 p1 p2 p3 : Point2D) : Point2D :=
  let mt := 1 - t in
  let mt2 := mt * mt in
  let mt3 := mt2 * mt in
  let t2 := t * t in
  let t3 := t2 * t in
  mkPoint
    (mt3 * px p0 + 3 * mt2 * t * px p1 + 3 * mt * t2 * px p2 + t3 * px p3)
    (mt3 * py p0 + 3 * mt2 * t * py p1 + 3 * mt * t2 * py p2 + t3 * py p3).

Definition hypot (dx dy : R) : R := sqrt (dx * dx + dy * dy).

(** The two components of the derivative of the cubic Bezier curve. *)
Definition bezierDx (t : R) (p0 p1 p2 p3 : Point2D) : R :=
  let mt := 1 - t in
  let mt2 := mt * mt in
  let t2 := t * t in
  3 * mt2 * (px p1 - px p0) + 6 * mt * t * (px p2 - px p1) + 3 * t2 * (px p3 - px p2).

Definition bezierDy (t : R) (p0 p1 p2 p3 : Point2D) : R :=
  let mt := 1 - t in
  let mt2 := mt * mt in
  let t2 := t * t in
  3 * mt2 * (py p1 - py p0) + 6 * mt * t * (py p2 - py p1) + 3 * t2 * (py p3 - py p2).

Definition cubicBezierTangent (t : R) (p0 p1 p2 p3 : Point2D) : option Point2D :=
  let dx := bezierDx t p0 p1 p2 p3 in
  let dy := bezierDy t p0 p1 p2 p3 in
  let len := hypot dx dy in
  x <- fdiv dx len ;;
  y <- fdiv dy len ;;
  Some (mkPoint x y).

Definition generateSmoothConnection (arteryWall veinWall : list Point2D)
    (cx toeY : R) (numPts : nat) : option (list Point2D) :=
  let arteryPt := mkPoint (cx + 5) toeY in
  veinPt <- nth_error veinWall (Nat.min 5 (length veinWall - 1)) ;;
  let cp1 := mkPoint (px arteryPt + 20) (py arteryPt) in
  let cp2 := mkPoint (px veinPt + 10) (py veinPt + 10) in
  Some (map (fun i : nat =>
               let t := INR i / INR numPts in
               cubicBezier t arteryPt cp1 cp2 veinPt)
            (seq 0 (numPts + 1))).

(** The two ends of the opening that [modifyArteryWallForAnastomosis] carves. *)
Definition heelX (cx halfOpening : R) : R := cx - halfOpening * 0.8.
Definition toeX (cx halfOpening : R) : R := cx + halfOpening * 0.8.

(** The function returns a wall for every input.  When the sine vanishes
    the opening width is not a finite number: [+Infinity] for a positive
    vein radius, which puts the heel at [-Infinity] and the toe at
    [+Infinity], so that every point passes the test and is lowered; [NaN]
    or [-Infinity] otherwise, and then no point passes. *)
Definition modifyArteryWallForAnastomosis (upperWall : list Point2D)
    (cx veinRadius angleRad arteryRadius : R) : option (list Point2D) :=
  match fdiv (veinRadius * 2) (sin angleRad) with
  | Some openingWidth =>
      let halfOpening := openingWidth / 2 in
      Some (map (fun p =>
                   if Rgtb (px p) (heelX cx halfOpening)
                      && Rltb (px p) (toeX cx halfOpening)
                   then mkPoint (px p) (py p + arteryRadius * 0.8)
                   else p)
                upperWall)
  | None =>
      Some (map (fun p =>
                   if Rltb 0 (veinRadius * 2)
                   then mkPoint (px p) (py p + arteryRadius * 0.8)
                   else p)
                upperWall)
  end.

Definition estimateRecirculationZone (cx cy arteryRadius veinRadius angleRad scale : R)
    : list Point2D :=
  let zoneLengthFactor := 1.0 + 1.5 * sin angleRad in
  let zoneLength := veinRadius * 2 * zoneLengthFactor in
  let zoneWidth := arteryRadius * 0.5 in
  let numPts := 16%nat in
  map (fun i : nat =>
         let t := INR i / INR numPts in
         let angle := t * PI in
         mkPoint (cx + zoneLength * 0.4 + zoneLength * 0.6 * cos angle)
                 (cy + arteryRadius * 0.4 - zoneWidth * sin angle * (1 - 0.2 * t)))
      (seq 0 (numPts + 1)).

(** [arr[i]] for an array of points; both vein walls and the normals are
    filled by loops over the same 50 indices, so the default is never
    taken in [generateGeometry]. *)
Definition pointAt (l : list Point2D) (i : nat) : Point2D := nth i l (mkPoint 0 0).

Definition generateWallPoints
    (arteryUpper arteryLower veinOuter veinInner veinNormals toeConnection : list Point2D)
    (cx cy arteryRadius angleRad : R) : list WallPoint :=
  (* artery upper wall *)
  flat_map (fun ip : nat * Point2D =>
      let (i, p) := ip in
      let t := INR i / INR (length arteryUpper - 1) in
      let dx := px p - cx in
      let region :=
        if Rgtb dx arteryRadius then distal_artery
        else if Rltb (Rabs dx) arteryRadius
             then (if Rltb dx 0 then anastomosis_heel else anastomosis_toe)
             else proximal_artery in
      if Rgtb (py p) (cy - arteryRadius + 5) then []
      else [mkWallPoint p (mkPoint 0 (-1)) region t])
    (indexed arteryUpper)
  (* toe connection *)
  ++ map (fun ip : nat * Point2D =>
      let (i, p) := ip in
      let t := INR i / INR (length toeConnection - 1) in
      mkWallPoint p (mkPoint (cos (PI / 4)) (- sin (PI / 4))) anastomosis_toe t)
    (indexed toeConnection)
  (* artery lower wall *)
  ++ map (fun ip : nat * Point2D =>
      let (i, p) := ip in
      let t := INR i / INR (length arteryLower - 1) in
      let dx := px p - cx in
      let region :=
        if Rgtb dx (arteryRadius * 0.5) then distal_artery
        else if Rltb (Rabs dx) (arteryRadius * 1.5) then anastomosis_floor
             else proximal_artery in
      mkWallPoint p (mkPoint 0 1) region t)
    (indexed arteryLower)
  (* vein outer wall *)
  ++ flat_map (fun ip : nat * Point2D =>
      let (i, p) := ip in
      let t := INR i / INR (length veinOuter - 1) in
      if (i <? 3)%nat then []
      else [mkWallPoint p (pointAt veinNormals i)
              (if Rltb t 0.2 then anastomosis_outer else vein_outer) t])
    (indexed veinOuter)
  (* vein inner wall *)
  ++ flat_map (fun ip : nat * Point2D =>
      let (i, p) := ip in
      let t := INR i / INR (length veinInner - 1) in
      if (i <? 3)%nat then []
      else [mkWallPoint p
              (mkPoint (- px (pointAt veinNormals i)) (- py (pointAt veinNormals i)))
              (if Rltb t 0.2 then anastomosis_floor else vein_inner) t])
    (indexed veinInner).

Definition numArteryPts : nat := 60.
Definition numVeinPts : nat := 50.
Definition veinCurveLength : R := 350.

(** The four control points of the vein centreline. *)
Definition veinP0 (cx cy : R) : Point2D := mkPoint cx cy.
Definition veinP1 (cx cy angleRad : R) : Point2D :=
  mkPoint (cx + cos (PI - angleRad) * veinCurveLength * 0.4)
          (cy - sin angleRad * veinCurveLength * 0.4).
Definition veinP3 (cx cy : R) : Point2D :=
  mkPoint (cx - veinCurveLength * 0.8) (cy - veinCurveLength * 0.8).
Definition veinP2 (cx cy : R) : Point2D :=
  mkPoint (px (veinP3 cx cy) + veinCurveLength * 0.4) (py (veinP3 cx cy)).

Definition generateGeometry (arteryDiameter veinDiameter anastomosisAngle : R)
    : option VesselGeometry :=
  let scale := CANVAS_vesselScale in
  let cx := CANVAS_width / 2 in
  let cy := CANVAS_height * 0.65 in
  let arteryRadius := (arteryDiameter / 2) * scale in
  let veinRadius := (veinDiameter / 2) * scale in
  let angleRad := (anastomosisAngle * PI) / 180 in
  let anastomosisPoint := mkPoint cx cy in
  let arteryLength := CANVAS_width * 0.8 in
  let arteryCenterline :=
    map (fun i : nat =>
           let t := INR i / INR (numArteryPts - 1) in
           mkPoint (cx - arteryLength / 2 + t * arteryLength) cy)
        (seq 0 numArteryPts) in
  let p0 := veinP0 cx cy in
  let p1 := veinP1 cx cy angleRad in
  let p3 := veinP3 cx cy in
  let p2 := veinP2 cx cy in
  let veinCenterline :=
    map (fun i : nat =>
           let t := INR i / INR (numVeinPts - 1) in
           cubicBezier t p0 p1 p2 p3)
        (seq 0 numVeinPts) in
  veinNormals <-
    mapM (fun i : nat =>
            let t := INR i / INR (numVeinPts - 1) in
            tangent <- cubicBezierTangent t p0 p1 p2 p3 ;;
            Some (mkPoint (- py tangent) (px tangent)))
         (seq 0 numVeinPts) ;;
  let arteryUpperWall := map (fun p => mkPoint (px p) (py p - arteryRadius)) arteryCenterline in
  let arteryLowerWall := map (fun p => mkPoint (px p) (py p + arteryRadius)) arteryCenterline in
  let veinOuterWall :=
    map (fun ip : nat * Point2D =>
           let (i, p) := ip in
           mkPoint (px p + veinRadius * px (pointAt veinNormals i))
                   (py p + veinRadius * py (pointAt veinNormals i)))
        (indexed veinCenterline) in
  let veinInnerWall :=
    map (fun ip : nat * Point2D =>
           let (i, p) := ip in
           mkPoint (px p - veinRadius * px (pointAt veinNormals i))
                   (py p - veinRadius * py (pointAt veinNormals i)))
        (indexed veinCenterline) in
  toeConnection <-
    generateSmoothConnection arteryUpperWall veinOuterWall cx (cy - arteryRadius) 15 ;;
  modifiedArteryUpper <-
    modifyArteryWallForAnastomosis arteryUpperWall cx veinRadius angleRad arteryRadius ;;
  let recirculationZone :=
    estimateRecirculationZone cx cy arteryRadius veinRadius angleRad scale in
  let wallPoints :=
    generateWallPoints modifiedArteryUpper arteryLowerWall veinOuterWall veinInnerWall
                       veinNormals toeConnection cx cy arteryRadius angleRad in
  let veinLength := veinCurveLength in
  Some (mkGeometry arteryCenterline veinCenterline modifiedArteryUpper arteryLowerWall
                   veinOuterWall veinInnerWall anastomosisPoint wallPoints
                   recirculationZone arteryLength veinLength
                   arteryDiameter veinDiameter anastomosisAngle).

End Geometry.

(** ** wss-calculator.ts *)

Module WssCalculator.
Import BloodProperties FlowSolver Geometry.

Definition getRegionCorrectionFactor (region : RegionType)
    (angleRad diameterRatio : R) : R :=
  match region with
  | proximal_artery => 1.0
  | distal_artery => 0.85
  | anastomosis_outer => 1.0 + 2.0 * sin angleRad * sqrt diameterRatio
  | anastomosis_toe => 1.0 + 1.5 * cos (angleRad / 2)
  | anastomosis_heel => 1.0 + 0.5 * sin angleRad
  | anastomosis_floor =>
      0.15 * (1 - 0.5 * sin (angleRad / 2)) / Rpower diameterRatio 0.3
  | vein_outer => 1.1 + 0.3 * sin angleRad
  | vein_inner => 0.7
  end.

(** The test at the head of [calculateOSI]. *)
Definition isRecirculation (region : RegionType) (angleRad : R) : bool :=
  RegionType_eqb region anastomosis_floor
  || (RegionType_eqb region vein_inner && Rgtb angleRad (PI / 6)).

(** The two accumulators [(sumAbs, sumSigned)] of the [forEach] of
    [calculateOSI] and one turn of it. *)
Definition osiStep (len : nat) (reversalFraction : R)
    (acc : R * R) (iw : nat * R) : R * R :=
  let (sumAbs, sumSigned) := acc in
  let (i, wss) := iw in
  let phase := (INR i / INR len) * 2 * PI in
  let directionFactor := if Rgtb (sin phase) 0.3 then 1 else - reversalFraction in
  (sumAbs + Rabs wss, sumSigned + wss * directionFactor).

Definition calculateOSI (wssTimeSeries : list R) (region : RegionType)
    (angleRad : R) : option R :=
  if negb (isRecirculation region angleRad) then
    total <- reduce_sum wssTimeSeries ;;
    let mean := total / INR (length wssTimeSeries) in
    let variance :=
      reduce_seed (fun a b => a + (b - mean) ^ 2) 0 wssTimeSeries
      / INR (length wssTimeSeries) in
    let cv := sqrt variance / (mean + 1e-10) in
    Some (Rmin (0.05 + cv * 0.1) 0.15)
  else
    let reversalFraction := 0.3 + 0.4 * sin angleRad in
    let sums :=
      fold_left (osiStep (length wssTimeSeries) reversalFraction)
                (indexed wssTimeSeries) (0, 0) in
    let sumAbs := fst sums in
    let sumSigned := snd sums in
    let osi := 0.5 * (1 - Rabs sumSigned / (sumAbs + 1e-10)) in
    Some (Rmin (Rmax osi 0) 0.5).

Definition calculateRRT (tawss osi : R) : R :=
  let denominator := (1 - 2 * osi) * tawss in
  if Rltb denominator 0.01 then 100 else 1 / denominator.

(** [regionType.startsWith('vein')] *)
Definition startsWithVein (region : RegionType) : bool :=
  match region with
  | vein_outer | vein_inner => true
  | _ => false
  end.

(** The callback of [geometry.wallPoints.map] in [calculateHemodynamics]. *)
Definition wallPointWSS (waveform : list R)
    (baseWSS_artery baseWSS_vein angleRad diameterRatio : R)
    (wp : WallPoint) : option (WallPoint * WSSData) :=
  let isVein := startsWithVein (regionType wp) in
  let baseWSS := if isVein then baseWSS_vein else baseWSS_artery in
  let correction := getRegionCorrectionFactor (regionType wp) angleRad diameterRatio in
  let spatialVariation := 1 + 0.1 * sin (paramPosition wp * PI * 4) in
  let wssTimeSeries := map (fun w => baseWSS * correction * spatialVariation * w) waveform in
  let tawss :=
    reduce_seed (fun a b => a + Rabs b) 0 wssTimeSeries / INR (length wssTimeSeries) in
  osi <- calculateOSI wssTimeSeries (regionType wp) angleRad ;;
  let rrt := calculateRRT tawss osi in
  Some (wp, mkWSS tawss osi rrt).

Record HemodynamicResult := mkResult {
  wallWSS : list (WallPoint * WSSData);
  flowSplit : FlowSplit;
  bloodProps : BloodPropertiesT
}.

(** Steps 1 to 6 of [calculateHemodynamics]: the geometry, the blood
    properties, the flow split, the waveform, the two base stresses and the
    stress data of every wall point.  The velocity field and the aggregate
    metrics (steps 7 and 8) read these results and are left out. *)
Definition calculateHemodynamics (params : SimulationParams) : option HemodynamicResult :=
  geometry <- generateGeometry (arteryDiameter params) (veinDiameter params)
                               (anastomosisAngle params) ;;
  let bloodProps := calculateBloodProperties (bloodFlowRate params)
                      (arteryDiameter params) (hematocrit params) in
  let flowSplit := calculateFlowSplit params in
  waveform <- generatePulsatileWaveform (heartRate params) (systolicRatio params) 20 ;;
  let angleRad := (anastomosisAngle params * PI) / 180 in
  let diameterRatio := veinDiameter params / arteryDiameter params in
  let arteryFlow_m3s := bloodFlowRate params / (1e6 * 60) in
  let arteryRadius_m := (arteryDiameter params / 2) * 1e-3 in
  let arteryShearRate := wallShearRate arteryFlow_m3s arteryRadius_m in
  let arteryViscosity := carreauViscosity arteryShearRate (hematocrit params) in
  let baseWSS_artery := arteryViscosity * arteryShearRate in
  let veinFlow_m3s := veinFlowRate flowSplit / (1e6 * 60) in
  let veinRadius_m := (veinDiameter params / 2) * 1e-3 in
  let veinShearRate := wallShearRate veinFlow_m3s veinRadius_m in
  let veinViscosity := carreauViscosity veinShearRate (hematocrit params) in
  let baseWSS_vein := veinViscosity * veinShearRate in
  wallWSS <- mapM (wallPointWSS waveform baseWSS_artery baseWSS_vein angleRad diameterRatio)
                  (wallPoints geometry) ;;
  Some (mkResult wallWSS flowSplit bloodProps).

End WssCalculator.

(** ** wss-calculator.ts, step 8: the aggregate metrics *)

Module Aggregation.
Import BloodProperties WssCalculator.

Record HemodynamicMetrics := mkMetrics {
  meanTAWSS : R;
  maxTAWSS : R;
  minTAWSS : R;
  meanOSI : R;
  maxOSI : R;
  meanRRT : R;
  maxRRT : R;
  reynoldsNumber : R;
  deanNumber : R;
  wssGradient : R;
  effectiveViscosity : R;
  m_tawss : R;
  m_osi : R;
  m_rrt : R;
  totalFlowRate : R
}.

(** [Math.max(...arr)] and [Math.min(...arr)]; on an empty array they are
    [-Infinity] and [Infinity], which are not finite numbers. *)
Definition spreadMax (l : list R) : option R :=
  match l with
  | [] => None
  | x :: tl => Some (fold_left Rmax tl x)
  end.

Definition spreadMin (l : list R) : option R :=
  match l with
  | [] => None
  | x :: tl => Some (fold_left Rmin tl x)
  end.

(** [a || b] on numbers: [b] when [a] is zero. *)
Definition orElse (a b : R) : R := if Req_dec_T a 0 then b else a.

(** Step 8 of [calculateHemodynamics], on the results of steps 2 and 6. *)
Definition aggregateMetrics (params : SimulationParams) (bloodProps : BloodPropertiesT)
    (wallWSS : list (WallPoint * WSSData)) : option HemodynamicMetrics :=
  let tawssValues := map (fun w => tawss (snd w)) wallWSS in
  let osiValues := map (fun w => osi (snd w)) wallWSS in
  let rrtValues := map (fun w => rrt (snd w)) wallWSS in
  let curvatureRadius := veinDiameter params * 3 in
  let deanNumber :=
    bp_reynoldsNumber bloodProps * sqrt (veinDiameter params / (2 * curvatureRadius)) in
  maxTAWSS <- spreadMax tawssValues ;;
  minTAWSS <- spreadMin tawssValues ;;
  let wssGradient := (maxTAWSS - minTAWSS) / (arteryDiameter params / 1000) in
  sumTAWSS <- reduce_sum tawssValues ;;
  sumOSI <- reduce_sum osiValues ;;
  maxOSI <- spreadMax osiValues ;;
  sumRRT <- reduce_sum rrtValues ;;
  maxRRTraw <- spreadMax rrtValues ;;
  Some (mkMetrics
          (sumTAWSS / INR (length tawssValues))
          maxTAWSS
          minTAWSS
          (sumOSI / INR (length osiValues))
          maxOSI
          (sumRRT / INR (length rrtValues))
          (Rmin maxRRTraw 100)
          (bp_reynoldsNumber bloodProps)
          deanNumber
          wssGradient
          (viscosity bloodProps)
          (sumTAWSS / INR (length tawssValues))
          (sumOSI / INR (length osiValues))
          (sumRRT / INR (length rrtValues))
          (orElse (baseFlowRate params) (bloodFlowRate params))).

(** [calculateHemodynamics] with its metrics: steps 1 to 6 and step 8. *)
Definition calculateHemodynamicsMetrics (params : SimulationParams)
    : option (HemodynamicResult * HemodynamicMetrics) :=
  res <- calculateHemodynamics params ;;
  metrics <- aggregateMetrics params (bloodProps res) (wallWSS res) ;;
  Some (res, metrics).

End Aggregation.

(** ** prediction.ts *)

Module Prediction.
Import Aggregation.

Record Factors := mkFactors {
  f_veinDiameter : R;
  f_arteryDiameter : R;
  f_flowRate : R;
  f_tawss : R;
  f_osi : R;
  f_anastomosisAngle : R;
  f_hematocrit : R
}.

(** The ten messages of [identifyRiskFactors]. *)
Definition msg_small_vein : String.string := "静脈径が小さい (< 2.0mm)"%string.
Definition msg_small_artery : String.string := "動脈径が小さい (< 1.5mm)"%string.
Definition msg_low_flow : String.string := "血流量不足 (< 400 mL/min)"%string.
Definition msg_low_wss : String.string := "低壁せん断応力 (血栓リスク)"%string.
Definition msg_high_wss : String.string := "高壁せん断応力 (内膜損傷リスク)"%string.
Definition msg_high_osi : String.string := "高OSI (乱流傾向)"%string.
Definition msg_high_rrt : String.string := "高RRT (血栓形成リスク)"%string.
Definition msg_angle : String.string := "吻合角度が非最適"%string.
Definition msg_anemia : String.string := "貧血傾向"%string.
Definition msg_polycythemia : String.string := "多血症傾向"%string.

Record MaturationPrediction := mkPrediction {
  probability : R;
  score : R;
  factors : Factors;
  riskFactors : list String.string
}.

Definition scoreVeinDiameter (diameter : R) : R :=
  if Rgeb diameter 2.5 then 20
  else if Rgeb diameter 2.0 then 15
  else if Rgeb diameter 1.5 then 10
  else 0.

Definition scoreArteryDiameter (diameter : R) : R :=
  if Rgeb diameter 2.0 then 15
  else if Rgeb diameter 1.5 then 10
  else 5.

Definition scoreFlowRate (flowRate : R) : R :=
  if Rgeb flowRate 500 then 20
  else if Rgeb flowRate 400 then 15
  else if Rgeb flowRate 300 then 10
  else 5.

Definition scoreTAWSS (tawss : R) : R :=
  if Rgtb tawss 1.0 && Rltb tawss 7.0 then 15
  else if Rgeb tawss 0.5 && Rleb tawss 10.0 then 10
  else 5.

Definition scoreOSI (osi : R) : R :=
  if Rltb osi 0.15 then 10
  else if Rltb osi 0.25 then 5
  else 0.

Definition scoreAnastomosisAngle (angle : R) : R :=
  if Rgeb angle 30 && Rleb angle 60 then 10
  else if Rgeb angle 20 && Rleb angle 70 then 7
  else 3.

Definition scoreHematocrit (hct : R) : R :=
  if Rgeb hct 0.35 && Rleb hct 0.45 then 10
  else if Rgeb hct 0.30 && Rleb hct 0.50 then 7
  else 3.

Definition logisticFunction (score : R) : R :=
  let k := 0.1 in
  let x0 := 50 in
  1 / (1 + exp (- k * (score - x0))).

(** [if (cond) risks.push(r)], followed by the rest of the function. *)
Definition pushIf (cond : bool) (r : String.string) (rest : list String.string)
    : list String.string :=
  if cond then r :: rest else rest.

Definition identifyRiskFactors (params : SimulationParams)
    (metrics : HemodynamicMetrics) : list String.string :=
  pushIf (Rltb (veinDiameter params) 2.0) msg_small_vein
  (pushIf (Rltb (arteryDiameter params) 1.5) msg_small_artery
  (pushIf (Rltb (totalFlowRate metrics) 400) msg_low_flow
  (pushIf (Rltb (m_tawss metrics) 0.5) msg_low_wss
  (pushIf (Rgtb (m_tawss metrics) 7.0) msg_high_wss
  (pushIf (Rgtb (m_osi metrics) 0.25) msg_high_osi
  (pushIf (Rgtb (m_rrt metrics) 10) msg_high_rrt
  (pushIf (Rltb (anastomosisAngle params) 30 || Rgtb (anastomosisAngle params) 70)
          msg_angle
  (pushIf (Rltb (hematocrit params) 0.30) msg_anemia
  (pushIf (Rgtb (hematocrit params) 0.50) msg_polycythemia
  []))))))))).

(** [Object.values(factors)], in the order of the keys. *)
Definition factorValues (f : Factors) : list R :=
  [ f_veinDiameter f; f_arteryDiameter f; f_flowRate f; f_tawss f; f_osi f;
    f_anastomosisAngle f; f_hematocrit f ].

Definition predictMaturation (params : SimulationParams)
    (metrics : HemodynamicMetrics) : MaturationPrediction :=
  let factors :=
    mkFactors (scoreVeinDiameter (veinDiameter params))
              (scoreArteryDiameter (arteryDiameter params))
              (scoreFlowRate (totalFlowRate metrics))
              (scoreTAWSS (m_tawss metrics))
              (scoreOSI (m_osi metrics))
              (scoreAnastomosisAngle (anastomosisAngle params))
              (scoreHematocrit (hematocrit params)) in
  let score := reduce_seed (fun sum s => sum + s) 0 (factorValues factors) in
  let probability := logisticFunction score in
  let riskFactors := identifyRiskFactors params metrics in
  mkPrediction probability score factors riskFactors.

Record TimelineEntry := mkEntry {
  week : nat;
  t_probability : R;
  t_flowRate : R
}.

(** The body of the loop of [predictTimeline] at one week. *)
Definition timelineEntry (baseProb : R) (week : nat) : TimelineEntry :=
  let progress := 1 - exp (- 0.3 * INR week) in
  let probability := Rmin (baseProb + (1 - baseProb) * progress * 0.5) 0.95 in
  let flowIncrease := 1 + progress * 0.4 in
  mkEntry week probability (500 * flowIncrease).

Definition predictTimeline (initialPrediction : MaturationPrediction)
    : list TimelineEntry :=
  let baseProb := probability initialPrediction in
  map (timelineEntry baseProb) (seq 0 13).

End Prediction.

(** ** flow-solver.ts: the velocity field *)

Module VelocityField.
Import BloodProperties FlowSolver Geometry.

Record VelocityVector := mkVector {
  position : Point2D;
  vx : R;
  vy : R;
  magnitude : R
}.

(** [for (let x = lo; x <= hi; x += step)]: the values taken by [x].  The
    number of turns is not known beforehand; [forRange] counts them down
    from a number of turns that [forLoop] takes from the bounds, and
    [forRange_stable] below shows that a larger number changes nothing. *)
Fixpoint forRange (turns : nat) (x hi step : R) : list R :=
  match turns with
  | O => []
  | S turns' => if Rleb x hi then x :: forRange turns' (x + step) hi step else []
  end.

Definition loopTurns (lo hi step : R) : nat := Z.to_nat (up ((hi - lo) / step)).

Definition forLoop (lo hi step : R) : list R :=
  forRange (loopTurns lo hi step) lo hi step.

(** The first pair of loops: the vectors in the artery. *)
Definition arteryVectors (cx cy arteryRadiusPx arteryVel distalVel angleRad : R)
    : list VelocityVector :=
  let spacing := 22 in
  flat_map (fun x =>
    flat_map (fun y =>
      let distFromCenter := Rabs (y - cy) / arteryRadiusPx in
      if Rgtb distFromCenter 0.9 then []
      else
        let parabolic := 1 - distFromCenter * distFromCenter in
        let v :=
          if Rltb x (cx - arteryRadiusPx * 0.5) then
            (arteryVel * 2 * parabolic, 0)
          else if Rgtb x (cx + arteryRadiusPx * 1.0) then
            (distalVel * 2 * parabolic, 0)
          else
            let blendFactor :=
              Rmax 0 (1 - (y - cy + arteryRadiusPx) / (2 * arteryRadiusPx)) in
            (arteryVel * parabolic * (1 - blendFactor * 0.5),
             - arteryVel * parabolic * blendFactor * sin angleRad * 0.5) in
        [mkVector (mkPoint x y) (fst v) (snd v)
                  (sqrt (fst v * fst v + snd v * snd v))])
      (forLoop (cy - arteryRadiusPx + 5) (cy + arteryRadiusPx - 5) spacing))
    (forLoop (cx - 150) (cx + 150) spacing).

(** The second pair of loops: the profiles across the vein. *)
Definition veinVectors (cx cy veinRadiusPx veinVel angleRad : R)
    : list VelocityVector :=
  let veinDirX := cos (PI - angleRad) in
  let veinDirY := - sin angleRad in
  let veinNormX := sin angleRad in
  let veinNormY := cos angleRad in
  flat_map (fun s =>
    let centerX := cx + s * 250 * veinDirX in
    let centerY := cy + s * 250 * veinDirY in
    map (fun r =>
      let px := centerX + r * veinRadiusPx * veinNormX in
      let py := centerY + r * veinRadiusPx * veinNormY in
      let parabolic := 1 - r * r in
      let vMag := veinVel * 2 * parabolic in
      mkVector (mkPoint px py) (vMag * veinDirX) (vMag * veinDirY) vMag)
      (forLoop (-0.7) 0.7 0.35))
    (forLoop 0.2 1.0 0.12).

Definition calculateVelocityField (params : SimulationParams)
    (geometry : VesselGeometry) (flowSplit : FlowSplit) : list VelocityVector :=
  let arteryRadius_m := (arteryDiameter params / 2) * 1e-3 in
  let veinRadius_m := (veinDiameter params / 2) * 1e-3 in
  let arteryFlow_m3s := bloodFlowRate params / (1e6 * 60) in
  let veinFlow_m3s := veinFlowRate flowSplit / (1e6 * 60) in
  let distalFlow_m3s := distalFlowRate flowSplit / (1e6 * 60) in
  let arteryVel := meanVelocity arteryFlow_m3s arteryRadius_m in
  let veinVel := meanVelocity veinFlow_m3s veinRadius_m in
  let distalVel := meanVelocity distalFlow_m3s (arteryRadius_m * 0.8) in
  let cx := px (anastomosisPoint geometry) in
  let cy := py (anastomosisPoint geometry) in
  let angleRad := (anastomosisAngle params * PI) / 180 in
  let scale := 28 in
  let arteryRadiusPx := (arteryDiameter params / 2) * scale in
  let veinRadiusPx := (veinDiameter params / 2) * scale in
  arteryVectors cx cy arteryRadiusPx arteryVel distalVel angleRad
  ++ veinVectors cx cy veinRadiusPx veinVel angleRad.

End VelocityField.

(** ** Auxiliary definitions for the properties *)

(** Two elements that follow each other in a list. *)
Inductive adjacent {A : Type} (a b : A) : list A -> Prop :=
  | adjacent_here : forall l, adjacent a b (a :: b :: l)
  | adjacent_later : forall c l, adjacent a b l -> adjacent a b (c :: l).

(** The parameter record with another anastomosis angle. *)
Definition withAngle (params : SimulationParams) (angle : R) : SimulationParams :=
  mkSim (arteryDiameter params) (veinDiameter params) angle
        (baseFlowRate params) (bloodFlowRate params) (hematocrit params)
        (heartRate params) (bloodPressure params) (systolicRatio params).

(** The parameters of the simulator's default run. *)
Definition DEFAULT_PARAMS : SimulationParams :=
  mkSim 4.0 4.0 45 600 600 0.40 75 90 0.35.

(** The phase of sample [i] and the Fourier sum at a phase, as
    [generatePulsatileWaveform] computes them inside its loop. *)
Definition waveformPhase (heartRate : R) (numSteps i : nat) : R :=
  let T := 60 / heartRate in
  let t := (INR i / INR numSteps) * T in
  (2 * PI * t) / T.

Definition rawSample (systolicRatio phase : R) : R :=
  1.0
  + 0.6 * (systolicRatio / 0.35) * sin phase
  + 0.25 * sin (2 * phase - 0.3)
  + 0.1 * sin (3 * phase - 0.6).

(** ** The wall-point count, from the three inputs

    The quantities below restate, as functions of the inputs of
    [generateGeometry], which samples of the upper artery wall survive the
    exclusion test of [generateWallPoints]. *)

Section WallPointCount.
Import Constants Geometry.

Definition canvasCx : R := CANVAS_width / 2.
Definition canvasCy : R := CANVAS_height * 0.65.
Definition radiusPx (diameter : R) : R := (diameter / 2) * CANVAS_vesselScale.
Definition degToRad (angle : R) : R := (angle * PI) / 180.

(** The abscissa of sample [i] of the artery centreline. *)
Definition arterySampleX (i : nat) : R :=
  canvasCx - (CANVAS_width * 0.8) / 2
  + (INR i / INR (numArteryPts - 1)) * (CANVAS_width * 0.8).

Definition halfOpeningOf (veinDiameter angle : R) : R :=
  (radiusPx veinDiameter * 2 / sin (degToRad angle)) / 2.

(** Sample [i] lies strictly between heel and toe. *)
Definition inOpening (veinDiameter angle : R) (i : nat) : bool :=
  Rgtb (arterySampleX i) (heelX canvasCx (halfOpeningOf veinDiameter angle))
  && Rltb (arterySampleX i) (toeX canvasCx (halfOpeningOf veinDiameter angle)).

(** Sample [i] of the upper wall becomes a wall point: it is dropped when
    it lies in the opening and the carving pushed it more than 5 px down. *)
Definition upperSampleKept (arteryDiameter veinDiameter angle : R) (i : nat) : bool :=
  negb (inOpening veinDiameter angle i && Rgtb (radiusPx arteryDiameter * 0.8) 5).

Definition wallPointCount (arteryDiameter veinDiameter angle : R) : nat :=
  length (filter (upperSampleKept arteryDiameter veinDiameter angle) (seq 0 numArteryPts))
  + 16 + 60 + 47 + 47.

End WallPointCount.

(** [l1] is [l2] with some elements left out, the order kept. *)
Inductive subseq {A : Type} : list A -> list A -> Prop :=
  | subseq_nil : subseq [] []
  | subseq_skip : forall a l1 l2, subseq l1 l2 -> subseq l1 (a :: l2)
  | subseq_keep : forall a l1 l2, subseq l1 l2 -> subseq (a :: l1) (a :: l2).

(** The messages of [identifyRiskFactors] in the order of its tests. *)
Definition allRiskMessages : list String.string :=
  [ Prediction.msg_small_vein; Prediction.msg_small_artery; Prediction.msg_low_flow;
    Prediction.msg_low_wss; Prediction.msg_high_wss; Prediction.msg_high_osi;
    Prediction.msg_high_rrt; Prediction.msg_angle; Prediction.msg_anemia;
    Prediction.msg_polycythemia ].

(** The parameter record with other diameters, and with another heart rate. *)
Definition withDiameters (params : SimulationParams) (artery vein : R)
    : SimulationParams :=
  mkSim artery vein (anastomosisAngle params)
        (baseFlowRate params) (bloodFlowRate params) (hematocrit params)
        (heartRate params) (bloodPressure params) (systolicRatio params).

Definition withHeartRate (params : SimulationParams) (hr : R) : SimulationParams :=
  mkSim (arteryDiameter params) (veinDiameter params) (anastomosisAngle params)
        (baseFlowRate params) (bloodFlowRate params) (hematocrit params)
        hr (bloodPressure params) (systolicRatio params).

(** The two base stresses of [calculateHemodynamics] (step 5) and the
    stress it assigns to a wall point before the waveform is applied. *)
Definition baseWSSArtery (params : SimulationParams) : R :=
  let arteryFlow_m3s := bloodFlowRate params / (1e6 * 60) in
  let arteryRadius_m := (arteryDiameter params / 2) * 1e-3 in
  let arteryShearRate := BloodProperties.wallShearRate arteryFlow_m3s arteryRadius_m in
  BloodProperties.carreauViscosity arteryShearRate (hematocrit params) * arteryShearRate.

Definition baseWSSVein (params : SimulationParams) : R :=
  let veinFlow_m3s :=
    veinFlowRate (FlowSolver.calculateFlowSplit params) / (1e6 * 60) in
  let veinRadius_m := (veinDiameter params / 2) * 1e-3 in
  let veinShearRate := BloodProperties.wallShearRate veinFlow_m3s veinRadius_m in
  BloodProperties.carreauViscosity veinShearRate (hematocrit params) * veinShearRate.

Definition steadyWSS (params : SimulationParams) (wp : WallPoint) : R :=
  (if WssCalculator.startsWithVein (regionType wp)
   then baseWSSVein params else baseWSSArtery params)
  * WssCalculator.getRegionCorrectionFactor (regionType wp)
      ((anastomosisAngle params * PI) / 180)
      (veinDiameter params / arteryDiameter params)
  * (1 + 0.1 * sin (paramPosition wp * PI * 4)).

(** The three mean velocities of [calculateVelocityField]. *)
Definition arteryVelOf (params : SimulationParams) : R :=
  BloodProperties.meanVelocity (bloodFlowRate params / (1e6 * 60))
                               ((arteryDiameter params / 2) * 1e-3).

Definition veinVelOf (params : SimulationParams) : R :=
  BloodProperties.meanVelocity
    (veinFlowRate (FlowSolver.calculateFlowSplit params) / (1e6 * 60))
    ((veinDiameter params / 2) * 1e-3).

Definition distalVelOf (params : SimulationParams) : R :=
  BloodProperties.meanVelocity
    (distalFlowRate (FlowSolver.calculateFlowSplit params) / (1e6 * 60))
    ((arteryDiameter params / 2) * 1e-3 * 0.8).

(** A geometry record that carries only the anastomosis point of the
    canvas, for the properties that read nothing else of it. *)
Definition junctionOnly : Geometry.VesselGeometry :=
  Geometry.mkGeometry [] [] [] [] [] [] (mkPoint 400 325) [] [] 640 350 4 4 45.

(** * Properties *)

(** ** Boolean comparisons *)

Lemma Rleb_true (x y : R) : Rleb x y = true <-> x <= y.
Proof. unfold Rleb. destruct (Rle_dec x y); split; intros; try easy. Qed.

Lemma Rleb_false (x y : R) : Rleb x y = false <-> y < x.
Proof. unfold Rleb. destruct (Rle_dec x y); split; intros; try easy; lra. Qed.

Lemma Rltb_true (x y : R) : Rltb x y = true <-> x < y.
Proof. unfold Rltb. destruct (Rlt_dec x y); split; intros; try easy. Qed.

Lemma Rltb_false (x y : R) : Rltb x y = false <-> y <= x.
Proof. unfold Rltb. destruct (Rlt_dec x y); split; intros; try easy; lra. Qed.

(** Case analysis on the comparisons of the goal, one after the other;
    the branches that contradict the context are closed on the way. *)
Ltac split_cmp :=
  repeat (match goal with
          | |- context [Rleb ?a ?b] =>
              let E := fresh "E" in
              destruct (Rleb a b) eqn:E;
              [apply Rleb_true in E | apply Rleb_false in E]
          | |- context [Rltb ?a ?b] =>
              let E := fresh "E" in
              destruct (Rltb a b) eqn:E;
              [apply Rltb_true in E | apply Rltb_false in E]
          end; try lra; cbn [andb orb negb]).

(** ** The hematocrit table *)

Section HematocritTable.
Import Constants BloodProperties.

Ltac unfold_table :=
  cbv [interpolateHctParams interpolateHctParamsIn HCT_VISCOSITY_TABLE hd last
       searchBracket rowParams hct mu_inf mu_0 dummyRow Rgeb Rgtb].

(** Below the first row the first row is returned. *)
Lemma interpolateHctParams_low (h : R) :
  h <= 20 -> interpolateHctParams h = mkParams 0.00220 0.025.
Proof. intros Hh. unfold_table. split_cmp. reflexivity. Qed.

(** Above the last row the last row is returned. *)
Lemma interpolateHctParams_high (h : R) :
  55 <= h -> interpolateHctParams h = mkParams 0.00450 0.075.
Proof. intros Hh. unfold_table. split_cmp. reflexivity. Qed.

(** Inside the table the result is the linear interpolation between two
    neighbouring rows that bracket the argument. *)
Lemma interpolateHctParams_inside (h : R) :
  20 < h < 55 ->
  exists lo hi,
    adjacent lo hi HCT_VISCOSITY_TABLE /\ hct lo <= h <= hct hi /\
    interpolateHctParams h = interpolateBetween h lo hi.
Proof.
  intros Hh. unfold_table. split_cmp;
  (eexists; eexists; split; [|split; [|reflexivity]];
   [repeat (first [apply adjacent_here | apply adjacent_later])
   | cbv [hct]; lra]).
Qed.

(** Every hematocrit written as a ratio lies below the first row of the
    table, whose rows are in percent. *)
Lemma interpolateHctParams_ratio (h : R) :
  0 <= h <= 1 -> interpolateHctParams h = mkParams 0.00220 0.025.
Proof. intros Hh. apply interpolateHctParams_low. lra. Qed.

(** The two parameters are positive and ordered at every hematocrit. *)
Lemma interpolateHctParams_ordered (h : R) :
  0 < p_mu_inf (interpolateHctParams h) < p_mu_0 (interpolateHctParams h).
Proof.
  unfold_table.
  split_cmp;
    cbv [interpolateBetween p_mu_inf p_mu_0 hct mu_inf mu_0 CARREAU c_mu_inf c_mu_0];
    lra.
Qed.

(** C3. A hematocrit of 40 percent, supplied as the ratio 0.40 that the
    parameter record carries, is not interpolated: the parameters returned
    are those of the first row of the table (20 percent) and differ from the
    parameters of the 40 percent row, which the same function returns when
    it is given 40.  The blood properties computed for the ratio 0.40 are
    those computed for the ratio 0.25. *)
Theorem C3_ratio_hematocrit_takes_first_row :
  interpolateHctParams 0.40 = mkParams 0.00220 0.025 /\
  interpolateHctParams 40 = mkParams 0.00320 0.048 /\
  interpolateHctParams 0.40 <> interpolateHctParams 40 /\
  forall flowRate_mLmin diameter_mm : R,
    calculateBloodProperties flowRate_mLmin diameter_mm 0.40
    = calculateBloodProperties flowRate_mLmin diameter_mm 0.25.
Proof.
  assert (H1 : interpolateHctParams 0.40 = mkParams 0.00220 0.025)
    by (apply interpolateHctParams_ratio; lra).
  assert (H2 : interpolateHctParams 40 = mkParams 0.00320 0.048).
  { unfold_table. split_cmp. cbv [interpolateBetween hct mu_inf mu_0].
    f_equal; lra. }
  assert (H3 : interpolateHctParams 0.25 = mkParams 0.00220 0.025)
    by (apply interpolateHctParams_ratio; lra).
  repeat split; trivial.
  - rewrite H1, H2. intros H. injection H as Ha Hb. lra.
  - intros q d.
    cbv [calculateBloodProperties calculateBloodPropertiesIter iterate loopBody
         carreauViscosity fst snd].
    rewrite H1, H3. reflexivity.
Qed.

End HematocritTable.

(** ** The Carreau viscosity *)

Section Carreau.
Import Constants BloodProperties.

Lemma Rpower_pos (x y : R) : 0 < Rpower x y.
Proof. unfold Rpower. apply exp_pos. Qed.

Lemma Rpower_le_1 (x y : R) : 1 <= x -> y <= 0 -> Rpower x y <= 1.
Proof.
  intros Hx Hy. rewrite <- (Rpower_O x) by lra. apply Rle_Rpower; assumption.
Qed.

(** The shear-thinning factor of the Carreau law lies in (0, 1]. *)
Lemma carreau_factor_bounds (g : R) :
  0 < Rpower (1 + (c_lambda CARREAU * Rmax g 0.1) ^ 2) ((c_n CARREAU - 1) / 2) <= 1.
Proof.
  split; [apply Rpower_pos|].
  apply Rpower_le_1.
  - pose proof (pow2_ge_0 (c_lambda CARREAU * Rmax g 0.1)). lra.
  - cbv [CARREAU c_n]. lra.
Qed.

Lemma carreauViscosity_bounds (g h : R) :
  p_mu_inf (interpolateHctParams h) < carreauViscosity g h
  <= p_mu_0 (interpolateHctParams h).
Proof.
  pose proof (interpolateHctParams_ordered h) as [Hpos Hord].
  pose proof (carreau_factor_bounds g) as [Hf0 Hf1].
  unfold carreauViscosity.
  set (f := Rpower _ _) in *.
  set (a := p_mu_inf _) in *. set (b := p_mu_0 _) in *.
  split; nra.
Qed.

Lemma carreauViscosity_pos (g h : R) : 0 < carreauViscosity g h.
Proof.
  pose proof (interpolateHctParams_ordered h).
  pose proof (carreauViscosity_bounds g h). lra.
Qed.

(** C8. At every shear rate and every hematocrit the Carreau viscosity lies
    between the two parameters that the hematocrit table gives for that
    hematocrit, and so does the viscosity that [calculateBloodProperties]
    returns for every flow rate and diameter. *)
Theorem C8_viscosity_between_mu_inf_and_mu_0 :
  forall shear flowRate_mLmin diameter_mm h : R,
    let p := interpolateHctParams h in
    (p_mu_inf p <= carreauViscosity shear h <= p_mu_0 p) /\
    (p_mu_inf p <= viscosity (calculateBloodProperties flowRate_mLmin diameter_mm h)
     <= p_mu_0 p).
Proof.
  intros shear q d h p. subst p. split.
  - pose proof (carreauViscosity_bounds shear h). lra.
  - cbv [calculateBloodProperties calculateBloodPropertiesIter iterate loopBody
         viscosity fst].
    match goal with
    | |- _ <= carreauViscosity ?g h <= _ => pose proof (carreauViscosity_bounds g h)
    end.
    lra.
Qed.

(** One turn of the loop forgets the state it starts from. *)
Lemma loopBody_constant (q r h : R) (st st' : LoopState) :
  loopBody q r h st = loopBody q r h st'.
Proof. reflexivity. Qed.

Lemma iterate_loopBody (k : nat) (q r h : R) (st : LoopState) :
  iterate (S k) (loopBody q r h) st = loopBody q r h st.
Proof.
  revert st. induction k as [|k IH]; intros st.
  - reflexivity.
  - change (iterate (S (S k)) (loopBody q r h) st)
      with (iterate (S k) (loopBody q r h) (loopBody q r h st)).
    rewrite IH. apply loopBody_constant.
Qed.

(** C9. The five turns of the loop of [calculateBloodProperties] return the
    record of a single pass: the wall shear rate once and the Carreau
    viscosity of it once.  The same holds for any positive number of turns. *)
Theorem C9_loop_equals_single_pass :
  forall flowRate_mLmin diameter_mm h : R,
    calculateBloodProperties flowRate_mLmin diameter_mm h
    = singlePassBloodProperties flowRate_mLmin diameter_mm h /\
    forall k : nat,
      calculateBloodPropertiesIter (S k) flowRate_mLmin diameter_mm h
      = singlePassBloodProperties flowRate_mLmin diameter_mm h.
Proof.
  intros q d h.
  assert (G : forall k, calculateBloodPropertiesIter (S k) q d h
                        = singlePassBloodProperties q d h).
  { intros k. unfold calculateBloodPropertiesIter, singlePassBloodProperties.
    rewrite iterate_loopBody. reflexivity. }
  split; [apply (G 4%nat) | exact G].
Qed.

End Carreau.

(** ** The flow split *)

Section FlowSplitProperties.
Import FlowSolver.

(** The vein fraction as a ratio of resistances. *)
Lemma conductance_ratio (Rv Rd c : R) :
  0 < Rv -> 0 < Rd -> 0 < c ->
  (1 / (Rv * c)) / (1 / (Rv * c) + 1 / Rd) = Rd / (Rd + Rv * c).
Proof. intros Hv Hd Hc. field. repeat split; nra. Qed.

Lemma pow4_pos (x : R) : 0 < x -> 0 < x ^ 4.
Proof. intros Hx. apply pow_lt. assumption. Qed.

Lemma div_pos (a b : R) : 0 < a -> 0 < b -> 0 < a / b.
Proof. intros Ha Hb. apply Rdiv_lt_0_compat; assumption. Qed.

(** The angle enters the correction through [angle / 90]. *)
Lemma angle_over_right_angle (angle : R) :
  (angle * PI / 180) / (PI / 2) = angle / 90.
Proof. pose proof PI_RGT_0. field. lra. Qed.

Lemma resistances_pos (params : SimulationParams) :
  0 < arteryDiameter params -> 0 < veinDiameter params ->
  0 < veinResistance params /\ 0 < distalResistance params.
Proof.
  intros Ha Hv. unfold veinResistance, distalResistance.
  split; (apply div_pos; [lra | apply pow4_pos; lra]).
Qed.

Lemma veinFraction_closed_form (params : SimulationParams) :
  0 < arteryDiameter params -> 0 < veinDiameter params ->
  veinFraction (calculateFlowSplit params)
  = distalResistance params
    / (distalResistance params
       + veinResistance params * (1 + 0.5 * (anastomosisAngle params / 90) ^ 2)).
Proof.
  intros Ha Hv. destruct (resistances_pos params Ha Hv) as [Hrv Hrd].
  cbv [calculateFlowSplit veinFraction].
  rewrite angle_over_right_angle.
  apply conductance_ratio; try assumption.
  pose proof (pow2_ge_0 (anastomosisAngle params / 90)). lra.
Qed.

Lemma flow_rates_sum (params : SimulationParams) :
  veinFlowRate (calculateFlowSplit params) + distalFlowRate (calculateFlowSplit params)
  = bloodFlowRate params.
Proof. cbv [calculateFlowSplit veinFlowRate distalFlowRate]. ring. Qed.

Lemma ratio_in_unit (a b : R) : 0 < a -> 0 < b -> 0 < a / (a + b) < 1.
Proof.
  intros Ha Hb. split.
  - apply div_pos; lra.
  - apply Rmult_lt_reg_r with (a + b); [lra|].
    unfold Rdiv. rewrite Rmult_assoc, Rinv_l by lra. lra.
Qed.

(** The vein fraction is a proper fraction for positive diameters, at any
    angle. *)
Lemma veinFraction_in_unit (params : SimulationParams) :
  0 < arteryDiameter params -> 0 < veinDiameter params ->
  0 < veinFraction (calculateFlowSplit params) < 1.
Proof.
  intros Ha Hv.
  destruct (resistances_pos params Ha Hv) as [Hrv Hrd].
  rewrite veinFraction_closed_form by assumption.
  pose proof (pow2_ge_0 (anastomosisAngle params / 90)) as Hsq.
  assert (Hc : 0 < veinResistance params * (1 + 0.5 * (anastomosisAngle params / 90) ^ 2))
    by (apply Rmult_lt_0_compat; lra).
  exact (ratio_in_unit _ _ Hrd Hc).
Qed.

(** C2. For an angle in [15, 90] and positive diameters the vein fraction
    lies in [0, 1] and the two branch flow rates add up to the inflow (in
    real arithmetic the sum is exact). *)
Theorem C2_flow_split_fraction_and_conservation :
  forall params : SimulationParams,
    15 <= anastomosisAngle params <= 90 ->
    0 < arteryDiameter params ->
    0 < veinDiameter params ->
    0 <= veinFraction (calculateFlowSplit params) <= 1 /\
    veinFlowRate (calculateFlowSplit params) + distalFlowRate (calculateFlowSplit params)
    = bloodFlowRate params.
Proof.
  intros params Hangle Ha Hv. split; [|apply flow_rates_sum].
  pose proof (veinFraction_in_unit params Ha Hv). lra.
Qed.

Lemma C2_witness :
  (15 <= anastomosisAngle DEFAULT_PARAMS <= 90) /\
  0 <= veinFraction (calculateFlowSplit DEFAULT_PARAMS) <= 1 /\
  veinFlowRate (calculateFlowSplit DEFAULT_PARAMS)
  + distalFlowRate (calculateFlowSplit DEFAULT_PARAMS) = 600.
Proof.
  assert (Hg : 15 <= anastomosisAngle DEFAULT_PARAMS <= 90)
    by (cbv [DEFAULT_PARAMS anastomosisAngle]; lra).
  split; [exact Hg|].
  apply (C2_flow_split_fraction_and_conservation DEFAULT_PARAMS Hg);
    cbv [DEFAULT_PARAMS arteryDiameter veinDiameter]; lra.
Defined.

(** C10. With the diameters and the flow rate fixed, a larger angle in
    (0, 90] gives a strictly smaller vein fraction. *)
Theorem C10_vein_fraction_decreases_with_angle :
  forall (params : SimulationParams) (angle1 angle2 : R),
    0 < arteryDiameter params ->
    0 < veinDiameter params ->
    0 < angle1 -> angle1 < angle2 -> angle2 <= 90 ->
    veinFraction (calculateFlowSplit (withAngle params angle2))
    < veinFraction (calculateFlowSplit (withAngle params angle1)).
Proof.
  intros params a1 a2 Ha Hv H1 H12 H2.
  destruct (resistances_pos params Ha Hv) as [Hrv Hrd].
  rewrite !veinFraction_closed_form by assumption.
  change (distalResistance (withAngle params a2)) with (distalResistance params).
  change (distalResistance (withAngle params a1)) with (distalResistance params).
  change (veinResistance (withAngle params a2)) with (veinResistance params).
  change (veinResistance (withAngle params a1)) with (veinResistance params).
  change (anastomosisAngle (withAngle params a2)) with a2.
  change (anastomosisAngle (withAngle params a1)) with a1.
  set (Rd := distalResistance params) in *. set (Rv := veinResistance params) in *.
  assert (Hsq : (a1 / 90) ^ 2 < (a2 / 90) ^ 2) by nra.
  pose proof (pow2_ge_0 (a1 / 90)) as Hp1.
  set (c1 := 1 + 0.5 * (a1 / 90) ^ 2) in *. set (c2 := 1 + 0.5 * (a2 / 90) ^ 2) in *.
  assert (Hc : c1 < c2) by (unfold c1, c2; lra).
  assert (Hc1 : 0 < c1) by (unfold c1; lra).
  assert (Hd1 : 0 < Rd + Rv * c1) by nra.
  assert (Hd2 : Rd + Rv * c1 < Rd + Rv * c2) by nra.
  unfold Rdiv. apply Rmult_lt_compat_l; [assumption|].
  apply Rinv_lt_contravar; [nra | assumption].
Qed.

Lemma C10_witness :
  veinFraction (calculateFlowSplit (withAngle DEFAULT_PARAMS 90))
  < veinFraction (calculateFlowSplit (withAngle DEFAULT_PARAMS 30)).
Proof.
  apply (C10_vein_fraction_decreases_with_angle DEFAULT_PARAMS 30 90);
    cbv [DEFAULT_PARAMS arteryDiameter veinDiameter]; lra.
Defined.

End FlowSplitProperties.

(** ** Sums and means *)

Section Sums.

Lemma fold_left_Rplus (l : list R) (a : R) :
  fold_left Rplus l a = a + sumR l.
Proof.
  revert a. induction l as [|x l IH]; intros a; simpl.
  - lra.
  - rewrite IH. unfold sumR. simpl. lra.
Qed.

Lemma reduce_sum_cons (x : R) (l : list R) :
  reduce_sum (x :: l) = Some (sumR (x :: l)).
Proof. simpl. rewrite fold_left_Rplus. reflexivity. Qed.

Lemma reduce_sum_nonempty (l : list R) :
  (0 < length l)%nat -> reduce_sum l = Some (sumR l).
Proof.
  destruct l as [|x l]; [simpl; lia|]. intros _. apply reduce_sum_cons.
Qed.

Lemma sumR_map_div (l : list R) (m : R) :
  sumR (map (fun q => q / m) l) = sumR l / m.
Proof.
  induction l as [|x l IH]; unfold sumR in *; simpl.
  - unfold Rdiv. ring.
  - rewrite IH. unfold Rdiv. ring.
Qed.

Lemma sumR_bounds (l : list R) (a b : R) :
  (forall x, In x l -> a <= x <= b) ->
  a * INR (length l) <= sumR l <= b * INR (length l).
Proof.
  induction l as [|x l IH]; intros H.
  - unfold sumR. simpl. lra.
  - change (sumR (x :: l)) with (x + sumR l).
    change (length (x :: l)) with (S (length l)). rewrite S_INR.
    assert (Hx : a <= x <= b) by (apply H; left; reflexivity).
    assert (Hl : a * INR (length l) <= sumR l <= b * INR (length l))
      by (apply IH; intros y Hy; apply H; right; exact Hy).
    lra.
Qed.

Lemma INR_pos (n : nat) : (0 < n)%nat -> 0 < INR n.
Proof. intros H. apply lt_0_INR. exact H. Qed.

Lemma mean_of_bounds (l : list R) (a b : R) :
  (0 < length l)%nat ->
  (forall x, In x l -> a <= x <= b) ->
  a <= mean_of l <= b.
Proof.
  intros Hlen H. pose proof (sumR_bounds l a b H) as [Hlo Hhi].
  pose proof (INR_pos _ Hlen) as Hn. unfold mean_of.
  split.
  - apply Rmult_le_reg_r with (INR (length l)); [assumption|].
    unfold Rdiv. rewrite Rmult_assoc, Rinv_l by lra. lra.
  - apply Rmult_le_reg_r with (INR (length l)); [assumption|].
    unfold Rdiv. rewrite Rmult_assoc, Rinv_l by lra. lra.
Qed.

(** Dividing every element by the mean gives a sequence of mean one. *)
Lemma mean_of_normalised (l : list R) :
  (0 < length l)%nat -> mean_of l <> 0 ->
  mean_of (map (fun q => q / mean_of l) l) = 1.
Proof.
  intros Hlen Hm. pose proof (INR_pos _ Hlen) as Hn.
  unfold mean_of at 1. rewrite sumR_map_div, length_map.
  unfold mean_of in *. field. split; [lra|].
  intros H0. apply Hm. rewrite H0. unfold Rdiv. ring.
Qed.

Lemma sumR_app (l1 l2 : list R) : sumR (l1 ++ l2) = sumR l1 + sumR l2.
Proof.
  induction l1 as [|x l1 IH]; unfold sumR in *; simpl; [lra | rewrite IH; lra].
Qed.

Lemma sumR_map_plus {A : Type} (f g : A -> R) (l : list A) :
  sumR (map f l) + sumR (map g l) = sumR (map (fun a => f a + g a) l).
Proof.
  induction l as [|a l IH]; unfold sumR in *; simpl; [lra | rewrite <- IH; lra].
Qed.

Lemma sumR_map_const {A : Type} (c : R) (f : A -> R) (l : list A) :
  (forall a, f a = c) -> sumR (map f l) = c * INR (length l).
Proof.
  intros H. induction l as [|a l IH].
  - unfold sumR. simpl. lra.
  - change (sumR (map f (a :: l))) with (f a + sumR (map f l)).
    change (length (a :: l)) with (S (length l)). rewrite S_INR, IH, H. lra.
Qed.

Lemma nth_error_map_seq {B : Type} (f : nat -> B) (n i : nat) :
  (i < n)%nat -> nth_error (map f (seq 0 n)) i = Some (f i).
Proof.
  intros Hi. rewrite nth_error_map.
  rewrite (nth_error_nth' (seq 0 n) 0%nat) by (rewrite length_seq; exact Hi).
  rewrite seq_nth by exact Hi. reflexivity.
Qed.

End Sums.

(** ** The pulsatile waveform *)

Section Waveform.
Import FlowSolver.

Lemma flooredWaveform_length (hr sr : R) (n : nat) :
  length (flooredWaveform hr sr n) = n.
Proof. unfold flooredWaveform. rewrite length_map, length_seq. reflexivity. Qed.

Lemma flooredSample_floor (hr sr : R) (n i : nat) :
  0.15 <= flooredSample hr sr n i.
Proof. unfold flooredSample. apply Rmax_r. Qed.

(** The three harmonics cannot lift a sample above [1.35 + A1]. *)
Lemma flooredSample_ceiling (hr sr : R) (n i : nat) :
  0 <= sr ->
  flooredSample hr sr n i <= 1.35 + 0.6 * (sr / 0.35).
Proof.
  intros Hsr. unfold flooredSample.
  set (phase := 2 * PI * _ / _).
  pose proof (SIN_bound phase) as H1.
  pose proof (SIN_bound (2 * phase - 0.3)) as H2.
  pose proof (SIN_bound (3 * phase - 0.6)) as H3.
  assert (HA : 0 <= 0.6 * (sr / 0.35)) by lra.
  apply Rmax_lub; nra.
Qed.

Lemma flooredWaveform_bounds (hr sr : R) (n : nat) (x : R) :
  0 <= sr -> In x (flooredWaveform hr sr n) ->
  0.15 <= x <= 1.35 + 0.6 * (sr / 0.35).
Proof.
  intros Hsr Hin. unfold flooredWaveform in Hin.
  apply in_map_iff in Hin. destruct Hin as [i [<- _]].
  split; [apply flooredSample_floor | apply flooredSample_ceiling; exact Hsr].
Qed.

(** The cardiac period cancels in the phase. *)
Lemma waveformPhase_closed (hr : R) (n i : nat) :
  hr <> 0 -> waveformPhase hr n i = 2 * PI * (INR i / INR n).
Proof.
  intros Hhr. unfold waveformPhase.
  assert (HT : 60 / hr <> 0).
  { unfold Rdiv. apply Rmult_integral_contrapositive_currified; [lra|].
    apply Rinv_neq_0_compat. exact Hhr. }
  set (T := 60 / hr) in *. unfold Rdiv.
  rewrite <- Rmult_assoc. rewrite Rmult_assoc. rewrite Rinv_r by exact HT. ring.
Qed.

(** What [generatePulsatileWaveform] returns on a positive step count. *)
Lemma generatePulsatileWaveform_some (hr sr : R) (n : nat) :
  (0 < n)%nat ->
  generatePulsatileWaveform hr sr n
  = Some (map (fun q => q / mean_of (flooredWaveform hr sr n))
              (flooredWaveform hr sr n)).
Proof.
  intros Hn. unfold generatePulsatileWaveform.
  rewrite reduce_sum_nonempty by (rewrite flooredWaveform_length; exact Hn).
  reflexivity.
Qed.

(** With no step there is nothing to reduce and the call throws. *)
Lemma generatePulsatileWaveform_zero (hr sr : R) :
  generatePulsatileWaveform hr sr 0 = None.
Proof. reflexivity. Qed.

Lemma div_le_div_l (a m M : R) :
  0 <= a -> 0 < m -> m <= M -> a / M <= a / m.
Proof.
  intros Ha Hm HM. unfold Rdiv. apply Rmult_le_compat_l; [exact Ha|].
  apply Rinv_le_contravar; assumption.
Qed.

Lemma div_le_div_r (a b m : R) :
  0 < m -> a <= b -> a / m <= b / m.
Proof.
  intros Hm Hab. unfold Rdiv. apply Rmult_le_compat_r; [|exact Hab].
  left. apply Rinv_0_lt_compat. exact Hm.
Qed.

End Waveform.

(** ** The waveform at four steps *)

Section WaveformFourSteps.
Import FlowSolver.

Lemma flooredSample_unfold (hr sr : R) (n i : nat) :
  flooredSample hr sr n i = Rmax (rawSample sr (waveformPhase hr n i)) 0.15.
Proof. reflexivity. Qed.

Lemma sin_add_2PI (x : R) : sin (x + 2 * PI) = sin x.
Proof. rewrite sin_plus, sin_2PI, cos_2PI. ring. Qed.

Lemma PI_gt_3 : 3 < PI.
Proof. pose proof PI2_3_2. lra. Qed.

(** The four phases at a heart rate of 75 are the quarter turns. *)
Lemma waveformPhase_quarters :
  waveformPhase 75 4 0 = 0 /\ waveformPhase 75 4 1 = PI / 2 /\
  waveformPhase 75 4 2 = PI /\ waveformPhase 75 4 3 = 3 * (PI / 2).
Proof. cbv [waveformPhase INR]. repeat split; lra. Qed.

Lemma rawSample_at_0 (sr : R) :
  rawSample sr 0 = 1 - 0.25 * sin 0.3 - 0.1 * sin 0.6.
Proof.
  unfold rawSample.
  replace (2 * 0 - 0.3) with (Ropp 0.3) by lra.
  replace (3 * 0 - 0.6) with (Ropp 0.6) by lra.
  rewrite sin_0, !sin_neg. lra.
Qed.

Lemma rawSample_at_PI2 (sr : R) :
  rawSample sr (PI / 2)
  = 1 + 0.6 * (sr / 0.35) + 0.25 * sin 0.3 - 0.1 * cos 0.6.
Proof.
  unfold rawSample.
  replace (2 * (PI / 2) - 0.3) with (PI - 0.3) by lra.
  replace (3 * (PI / 2) - 0.6) with ((PI / 2 - 0.6) + PI) by lra.
  rewrite sin_PI2, sin_PI_x, neg_sin, sin_shift. lra.
Qed.

Lemma rawSample_at_PI (sr : R) :
  rawSample sr PI = 1 - 0.25 * sin 0.3 + 0.1 * sin 0.6.
Proof.
  unfold rawSample.
  replace (2 * PI - 0.3) with (Ropp 0.3 + 2 * PI) by lra.
  replace (3 * PI - 0.6) with ((PI - 0.6) + 2 * PI) by lra.
  rewrite sin_PI, !sin_add_2PI, sin_neg, sin_PI_x. lra.
Qed.

Lemma rawSample_at_3PI2 (sr : R) :
  rawSample sr (3 * (PI / 2))
  = 1 - 0.6 * (sr / 0.35) + 0.25 * sin 0.3 + 0.1 * cos 0.6.
Proof.
  unfold rawSample.
  replace (2 * (3 * (PI / 2)) - 0.3) with ((PI - 0.3) + 2 * PI) by lra.
  replace (3 * (3 * (PI / 2)) - 0.6) with (((PI / 2 - 0.6) + 2 * PI) + 2 * PI) by lra.
  rewrite sin_3PI2, !sin_add_2PI, sin_PI_x, sin_shift. lra.
Qed.

Lemma sin_03_bounds : 0 < sin 0.3 < 0.3.
Proof.
  pose proof PI_gt_3. split; [apply sin_gt_0; lra | apply sin_lt_x; lra].
Qed.

(** C1, counterexample. At heart rate 75, systolic ratio 0.6 and four
    steps (all within the stated ranges) the last sample is floored to 0.15
    and the mean of the floored samples exceeds one, so the last element
    returned is below 0.15. *)
Lemma C1_counterexample_element_below_floor :
  50 <= 75 <= 120 /\ 0.1 <= 0.6 <= 0.6 /\ (0 < 4)%nat /\
  exists (w : list R) (x : R),
    generatePulsatileWaveform 75 0.6 4 = Some w /\ In x w /\ x < 0.15.
Proof.
  split; [lra|]. split; [lra|]. split; [lia|].
  destruct waveformPhase_quarters as (P0 & P1 & P2 & P3).
  pose proof sin_03_bounds as [Hs_lo Hs_hi].
  pose proof (COS_bound 0.6) as [_ Hc].
  set (m := mean_of (flooredWaveform 75 0.6 4)).
  (* the last sample is floored *)
  assert (H3 : flooredSample 75 0.6 4 3 = 0.15).
  { rewrite flooredSample_unfold, P3, rawSample_at_3PI2.
    apply Rmax_right. lra. }
  (* the other three are at least their Fourier sums *)
  assert (H0 : rawSample 0.6 0 <= flooredSample 75 0.6 4 0)
    by (rewrite flooredSample_unfold, P0; apply Rmax_l).
  assert (H1 : rawSample 0.6 (PI / 2) <= flooredSample 75 0.6 4 1)
    by (rewrite flooredSample_unfold, P1; apply Rmax_l).
  assert (H2 : rawSample 0.6 PI <= flooredSample 75 0.6 4 2)
    by (rewrite flooredSample_unfold, P2; apply Rmax_l).
  rewrite rawSample_at_0 in H0. rewrite rawSample_at_PI2 in H1.
  rewrite rawSample_at_PI in H2.
  assert (Hm : 1 < m).
  { unfold m, mean_of, flooredWaveform.
    cbv [seq map sumR fold_right length INR]. rewrite H3. lra. }
  exists (map (fun q => q / m) (flooredWaveform 75 0.6 4)), (0.15 / m).
  split; [apply generatePulsatileWaveform_some; lia|].
  split.
  - rewrite <- H3. apply in_map with (f := fun q => q / m).
    unfold flooredWaveform. apply in_map. cbv [seq]. simpl. tauto.
  - apply Rmult_lt_reg_r with m; [lra|].
    unfold Rdiv. rewrite Rmult_assoc, Rinv_l by lra. lra.
Qed.

End WaveformFourSteps.

(** ** The waveform at the default twenty steps *)

Section WaveformTwentySteps.
Import FlowSolver.

Lemma sin_add_PI2 (x : R) : sin (x + PI / 2) = cos x.
Proof. rewrite sin_plus, sin_PI2, cos_PI2. ring. Qed.

(** Four samples a quarter turn apart: the three harmonics cancel. *)
Lemma rawSample_quarter_turns (sr phi : R) :
  rawSample sr phi + rawSample sr (phi + PI / 2)
  + rawSample sr (phi + PI) + rawSample sr (phi + 3 * (PI / 2)) = 4.
Proof.
  unfold rawSample.
  assert (A1 : sin (phi + 3 * (PI / 2)) = - cos phi).
  { replace (phi + 3 * (PI / 2)) with ((phi + PI / 2) + PI) by lra.
    rewrite neg_sin, sin_add_PI2. reflexivity. }
  assert (B1 : sin (2 * (phi + PI / 2) - 0.3) = - sin (2 * phi - 0.3)).
  { replace (2 * (phi + PI / 2) - 0.3) with ((2 * phi - 0.3) + PI) by lra.
    apply neg_sin. }
  assert (B2 : sin (2 * (phi + PI) - 0.3) = sin (2 * phi - 0.3)).
  { replace (2 * (phi + PI) - 0.3) with ((2 * phi - 0.3) + 2 * PI) by lra.
    apply sin_add_2PI. }
  assert (B3 : sin (2 * (phi + 3 * (PI / 2)) - 0.3) = - sin (2 * phi - 0.3)).
  { replace (2 * (phi + 3 * (PI / 2)) - 0.3)
      with (((2 * phi - 0.3) + PI) + 2 * PI) by lra.
    rewrite sin_add_2PI. apply neg_sin. }
  assert (C1 : sin (3 * (phi + PI / 2) - 0.6) = - cos (3 * phi - 0.6)).
  { replace (3 * (phi + PI / 2) - 0.6) with (((3 * phi - 0.6) + PI / 2) + PI) by lra.
    rewrite neg_sin, sin_add_PI2. reflexivity. }
  assert (C2 : sin (3 * (phi + PI) - 0.6) = - sin (3 * phi - 0.6)).
  { replace (3 * (phi + PI) - 0.6) with (((3 * phi - 0.6) + PI) + 2 * PI) by lra.
    rewrite sin_add_2PI. apply neg_sin. }
  assert (C3 : sin (3 * (phi + 3 * (PI / 2)) - 0.6) = cos (3 * phi - 0.6)).
  { replace (3 * (phi + 3 * (PI / 2)) - 0.6)
      with ((((3 * phi - 0.6) + PI / 2) + 2 * PI) + 2 * PI) by lra.
    rewrite !sin_add_2PI. apply sin_add_PI2. }
  rewrite sin_add_PI2, neg_sin, A1, B1, B2, B3, C1, C2, C3. lra.
Qed.

(** At twenty steps, five samples further is a quarter turn further. *)
Lemma waveformPhase_20_shift (i : nat) :
  waveformPhase 75 20 (i + 5) = waveformPhase 75 20 i + PI / 2.
Proof.
  unfold waveformPhase. rewrite plus_INR.
  replace (INR 20) with 20 by (cbv [INR]; lra).
  replace (INR 5) with 5 by (cbv [INR]; lra).
  field.
Qed.

Lemma rawSample_le_floored (hr sr : R) (n i : nat) :
  rawSample sr (waveformPhase hr n i) <= flooredSample hr sr n i.
Proof. rewrite flooredSample_unfold. apply Rmax_l. Qed.

(** The samples [i], [i + 5], [i + 10], [i + 15] of the Fourier sum add up
    to 4. *)
Lemma rawSample_20_quad (sr : R) (i : nat) :
  rawSample sr (waveformPhase 75 20 i)
  + rawSample sr (waveformPhase 75 20 (i + 5))
  + rawSample sr (waveformPhase 75 20 (i + 10))
  + rawSample sr (waveformPhase 75 20 (i + 15)) = 4.
Proof.
  replace (i + 10)%nat with ((i + 5) + 5)%nat by lia.
  replace (i + 15)%nat with (((i + 5) + 5) + 5)%nat by lia.
  rewrite !waveformPhase_20_shift.
  replace (waveformPhase 75 20 i + PI / 2 + PI / 2)
    with (waveformPhase 75 20 i + PI) by lra.
  replace (waveformPhase 75 20 i + PI + PI / 2)
    with (waveformPhase 75 20 i + 3 * (PI / 2)) by lra.
  apply rawSample_quarter_turns.
Qed.

Lemma waveformPhase_20_15 : waveformPhase 75 20 15 = 3 * (PI / 2).
Proof. cbv [waveformPhase INR]. lra. Qed.

(** The same defect at the default step count: at heart rate 75 and
    systolic ratio 0.6 sample 15 of 20 is floored and ends below 0.15. *)
Lemma waveform_default_steps_element_below_floor :
  exists (w : list R) (x : R),
    generatePulsatileWaveform 75 0.6 defaultNumSteps = Some w /\ In x w /\ x < 0.15.
Proof.
  unfold defaultNumSteps.
  pose proof sin_03_bounds as [Hs_lo Hs_hi].
  pose proof (COS_bound 0.6) as [_ Hc].
  set (m := mean_of (flooredWaveform 75 0.6 20)).
  assert (H15raw : rawSample 0.6 (waveformPhase 75 20 15) < 0.15)
    by (rewrite waveformPhase_20_15, rawSample_at_3PI2; lra).
  assert (H15 : flooredSample 75 0.6 20 15 = 0.15)
    by (rewrite flooredSample_unfold; apply Rmax_right; lra).
  assert (Hm : 1 < m).
  { unfold m, mean_of, flooredWaveform.
    cbv [seq map sumR fold_right length]. replace (INR 20) with 20 by (cbv [INR]; lra).
    pose proof (rawSample_20_quad 0.6 0) as Q0.
    pose proof (rawSample_20_quad 0.6 1) as Q1.
    pose proof (rawSample_20_quad 0.6 2) as Q2.
    pose proof (rawSample_20_quad 0.6 3) as Q3.
    pose proof (rawSample_20_quad 0.6 4) as Q4.
    cbn [Nat.add] in Q0, Q1, Q2, Q3, Q4.
    pose proof (rawSample_le_floored 75 0.6 20 0).
    pose proof (rawSample_le_floored 75 0.6 20 1).
    pose proof (rawSample_le_floored 75 0.6 20 2).
    pose proof (rawSample_le_floored 75 0.6 20 3).
    pose proof (rawSample_le_floored 75 0.6 20 4).
    pose proof (rawSample_le_floored 75 0.6 20 5).
    pose proof (rawSample_le_floored 75 0.6 20 6).
    pose proof (rawSample_le_floored 75 0.6 20 7).
    pose proof (rawSample_le_floored 75 0.6 20 8).
    pose proof (rawSample_le_floored 75 0.6 20 9).
    pose proof (rawSample_le_floored 75 0.6 20 10).
    pose proof (rawSample_le_floored 75 0.6 20 11).
    pose proof (rawSample_le_floored 75 0.6 20 12).
    pose proof (rawSample_le_floored 75 0.6 20 13).
    pose proof (rawSample_le_floored 75 0.6 20 14).
    pose proof (rawSample_le_floored 75 0.6 20 16).
    pose proof (rawSample_le_floored 75 0.6 20 17).
    pose proof (rawSample_le_floored 75 0.6 20 18).
    pose proof (rawSample_le_floored 75 0.6 20 19).
    rewrite H15. lra. }
  exists (map (fun q => q / m) (flooredWaveform 75 0.6 20)), (0.15 / m).
  split; [apply generatePulsatileWaveform_some; lia|].
  split.
  - rewrite <- H15. apply in_map with (f := fun q => q / m).
    unfold flooredWaveform. apply in_map. apply in_seq. lia.
  - apply Rmult_lt_reg_r with m; [lra|].
    unfold Rdiv. rewrite Rmult_assoc, Rinv_l by lra. lra.
Qed.

End WaveformTwentySteps.

(** ** The mean of the samples before and after the floor *)

Section WaveformMean.
Import FlowSolver.

Lemma sumR_seq_S (f : nat -> R) (n : nat) :
  sumR (map f (seq 0 (S n))) = sumR (map f (seq 0 n)) + f n.
Proof.
  rewrite seq_S, map_app, sumR_app. unfold sumR. cbn [Nat.add map fold_right]. lra.
Qed.

Lemma sumR_map_le {A : Type} (f g : A -> R) (l : list A) :
  (forall a, In a l -> f a <= g a) -> sumR (map f l) <= sumR (map g l).
Proof.
  induction l as [|a l IH]; intros H.
  - unfold sumR. cbn [map fold_right]. lra.
  - change (f a + sumR (map f l) <= g a + sumR (map g l)).
    assert (H1 : f a <= g a) by (apply H; left; reflexivity).
    assert (H2 : sumR (map f l) <= sumR (map g l))
      by (apply IH; intros b Hb; apply H; right; exact Hb).
    lra.
Qed.

Lemma sumR_map_lt {A : Type} (f g : A -> R) (l : list A) (a : A) :
  (forall b, In b l -> f b <= g b) -> In a l -> f a < g a ->
  sumR (map f l) < sumR (map g l).
Proof.
  induction l as [|b l IH]; intros H Hin Hlt; [destruct Hin|].
  change (f b + sumR (map f l) < g b + sumR (map g l)).
  assert (Hb : f b <= g b) by (apply H; left; reflexivity).
  assert (Hl : forall c, In c l -> f c <= g c)
    by (intros c Hc; apply H; right; exact Hc).
  destruct Hin as [-> | Hin].
  - pose proof (sumR_map_le f g l Hl). lra.
  - pose proof (IH Hl Hin Hlt). lra.
Qed.

Lemma sumR_linear3 {A : Type} (a b c d : R) (f g h : A -> R) (l : list A) :
  sumR (map (fun i => a + b * f i + c * g i + d * h i) l)
  = a * INR (length l)
    + b * sumR (map f l) + c * sumR (map g l) + d * sumR (map h l).
Proof.
  induction l as [|x l IH].
  - unfold sumR. cbn [map fold_right length INR]. ring.
  - change (a + b * f x + c * g x + d * h x
            + sumR (map (fun i => a + b * f i + c * g i + d * h i) l)
            = a * INR (S (length l))
              + b * (f x + sumR (map f l)) + c * (g x + sumR (map g l))
              + d * (h x + sumR (map h l))).
    rewrite IH, S_INR. ring.
Qed.

(** *** Sums of equally spaced sines *)

Lemma cos_difference (x h : R) : cos (x - h) - cos (x + h) = 2 * sin x * sin h.
Proof. rewrite cos_minus, cos_plus. ring. Qed.

Lemma sin_sum_telescope (theta c : R) (n : nat) :
  2 * sin (theta / 2) * sumR (map (fun i => sin (INR i * theta + c)) (seq 0 n))
  = cos (c - theta / 2) - cos (INR n * theta + c - theta / 2).
Proof.
  induction n as [|n IH].
  - unfold sumR. cbn [seq map fold_right INR].
    replace (0 * theta + c - theta / 2) with (c - theta / 2) by ring. ring.
  - rewrite sumR_seq_S, Rmult_plus_distr_l, IH, S_INR.
    pose proof (cos_difference (INR n * theta + c) (theta / 2)) as H.
    replace ((INR n + 1) * theta + c - theta / 2)
      with (INR n * theta + c + theta / 2) by field.
    lra.
Qed.

(** Over a whole number of turns the sines cancel, unless all the angles
    coincide modulo a turn. *)
Lemma sin_sum_closed_cycle (theta c : R) (n j : nat) :
  INR n * theta = 2 * INR j * PI -> sin (theta / 2) <> 0 ->
  sumR (map (fun i => sin (INR i * theta + c)) (seq 0 n)) = 0.
Proof.
  intros Hc Hs. pose proof (sin_sum_telescope theta c n) as H.
  rewrite Hc in H.
  replace (2 * INR j * PI + c - theta / 2)
    with (c - theta / 2 + 2 * INR j * PI) in H by ring.
  rewrite cos_period in H.
  assert (H0 : sin (theta / 2)
               * sumR (map (fun i => sin (INR i * theta + c)) (seq 0 n)) = 0) by lra.
  destruct (Rmult_integral _ _ H0) as [E | E]; [contradiction | exact E].
Qed.

Lemma sin_sum_aliased (theta c : R) (n j : nat) :
  theta = 2 * INR j * PI ->
  sumR (map (fun i => sin (INR i * theta + c)) (seq 0 n)) = INR n * sin c.
Proof.
  intros ->. rewrite (sumR_map_const (sin c)).
  - rewrite length_seq. ring.
  - intros i.
    replace (INR i * (2 * INR j * PI) + c) with (c + 2 * INR (i * j) * PI)
      by (rewrite mult_INR; ring).
    apply sin_period.
Qed.

(** Harmonic [j] over [n] equally spaced phases, for [0 < j < n]. *)
Lemma harmonic_sum_zero (n j : nat) (c : R) :
  (0 < j < n)%nat ->
  sumR (map (fun i => sin (INR i * (INR j * (2 * PI / INR n)) + c)) (seq 0 n)) = 0.
Proof.
  intros [Hj Hn].
  assert (Hjr : 0 < INR j) by (apply lt_0_INR; exact Hj).
  assert (Hnr : INR j < INR n) by (apply lt_INR; exact Hn).
  assert (Hpos : 0 < INR n) by lra.
  pose proof PI_RGT_0 as Hpi.
  apply (sin_sum_closed_cycle _ c n j).
  - field. lra.
  - replace (INR j * (2 * PI / INR n) / 2) with (PI * (INR j / INR n))
      by (field; lra).
    assert (Hq : 0 < INR j / INR n < 1).
    { split.
      - apply Rdiv_lt_0_compat; assumption.
      - apply Rmult_lt_reg_r with (INR n); [exact Hpos|].
        unfold Rdiv. rewrite Rmult_assoc, Rinv_l by lra. lra. }
    assert (Hlt : 0 < PI * (INR j / INR n) < PI) by nra.
    pose proof (sin_gt_0 _ (proj1 Hlt) (proj2 Hlt)). lra.
Qed.

(** *** The Fourier samples *)

Lemma rawSample_harmonics (sr : R) (n i : nat) :
  (0 < n)%nat ->
  rawSample sr (2 * PI * (INR i / INR n))
  = 1.0
    + 0.6 * (sr / 0.35) * sin (INR i * (INR 1 * (2 * PI / INR n)) + 0)
    + 0.25 * sin (INR i * (INR 2 * (2 * PI / INR n)) + Ropp 0.3)
    + 0.1 * sin (INR i * (INR 3 * (2 * PI / INR n)) + Ropp 0.6).
Proof.
  intros Hn. pose proof (INR_pos n Hn) as Hpos.
  unfold rawSample. cbn [INR].
  replace (INR i * (1 * (2 * PI / INR n)) + 0) with (2 * PI * (INR i / INR n))
    by (field; lra).
  replace (INR i * ((1 + 1) * (2 * PI / INR n)) + Ropp 0.3)
    with (2 * (2 * PI * (INR i / INR n)) - 0.3) by (field; lra).
  replace (INR i * ((1 + 1 + 1) * (2 * PI / INR n)) + Ropp 0.6)
    with (3 * (2 * PI * (INR i / INR n)) - 0.6) by (field; lra).
  reflexivity.
Qed.

Lemma rawSample_sum_harmonics (sr : R) (n : nat) :
  (0 < n)%nat ->
  sumR (map (fun i => rawSample sr (2 * PI * (INR i / INR n))) (seq 0 n))
  = INR n
    + 0.6 * (sr / 0.35)
      * sumR (map (fun i => sin (INR i * (INR 1 * (2 * PI / INR n)) + 0)) (seq 0 n))
    + 0.25
      * sumR (map (fun i => sin (INR i * (INR 2 * (2 * PI / INR n)) + Ropp 0.3))
                  (seq 0 n))
    + 0.1
      * sumR (map (fun i => sin (INR i * (INR 3 * (2 * PI / INR n)) + Ropp 0.6))
                  (seq 0 n)).
Proof.
  intros Hn.
  rewrite (map_ext _ _ (fun i => rawSample_harmonics sr n i Hn)).
  rewrite (sumR_linear3 1.0 (0.6 * (sr / 0.35)) 0.25 0.1).
  rewrite length_seq. lra.
Qed.

Lemma sin_06_bounds : 0 < sin 0.6 < 0.6.
Proof.
  pose proof PI_gt_3. split; [apply sin_gt_0; lra | apply sin_lt_x; lra].
Qed.

(** From four steps on no harmonic is aliased and the Fourier samples have
    mean one. *)
Lemma rawSample_sum_from_four (sr : R) (n : nat) :
  (4 <= n)%nat ->
  sumR (map (fun i => rawSample sr (2 * PI * (INR i / INR n))) (seq 0 n)) = INR n.
Proof.
  intros Hn. rewrite rawSample_sum_harmonics by lia.
  rewrite !harmonic_sum_zero by lia. lra.
Qed.

(** With one, two or three steps a harmonic is aliased onto the constant
    term and lowers the mean. *)
Lemma rawSample_sum_le (sr : R) (n : nat) :
  (0 < n)%nat ->
  sumR (map (fun i => rawSample sr (2 * PI * (INR i / INR n))) (seq 0 n)) <= INR n.
Proof.
  intros Hn.
  destruct (le_lt_dec 4 n) as [H4 | H4];
    [rewrite rawSample_sum_from_four by exact H4; lra|].
  pose proof sin_03_bounds as S3. pose proof sin_06_bounds as S6.
  pose proof PI_RGT_0 as Hpi.
  rewrite rawSample_sum_harmonics by exact Hn.
  destruct n as [|[|[|[|n]]]]; try lia.
  - (* one step: every harmonic is aliased *)
    rewrite (sin_sum_aliased _ 0 1 1) by (cbn [INR]; field).
    rewrite (sin_sum_aliased _ (Ropp 0.3) 1 2) by (cbn [INR]; field).
    rewrite (sin_sum_aliased _ (Ropp 0.6) 1 3) by (cbn [INR]; field).
    rewrite sin_0, !sin_neg. cbn [INR]. lra.
  - (* two steps: the second harmonic is aliased *)
    rewrite (harmonic_sum_zero 2 1) by lia.
    rewrite (sin_sum_aliased _ (Ropp 0.3) 2 1) by (cbn [INR]; field).
    rewrite (sin_sum_closed_cycle _ (Ropp 0.6) 2 3).
    + rewrite sin_neg. cbn [INR]. lra.
    + cbn [INR]. field.
    + cbn [INR].
      replace ((1 + 1 + 1) * (2 * PI / (1 + 1)) / 2) with (3 * (PI / 2)) by field.
      rewrite sin_3PI2. lra.
  - (* three steps: the third harmonic is aliased *)
    rewrite (harmonic_sum_zero 3 1) by lia.
    rewrite (harmonic_sum_zero 3 2) by lia.
    rewrite (sin_sum_aliased _ (Ropp 0.6) 3 1) by (cbn [INR]; field).
    rewrite sin_neg. cbn [INR]. lra.
Qed.

Lemma rawSample_where_sin_nonneg (sr phi : R) :
  0 <= sr -> 0 <= sin phi -> 0.65 <= rawSample sr phi.
Proof.
  intros Hsr Hs. unfold rawSample.
  pose proof (SIN_bound (2 * phi - 0.3)) as H2.
  pose proof (SIN_bound (3 * phi - 0.6)) as H3.
  assert (HA : 0 <= 0.6 * (sr / 0.35)) by lra.
  nra.
Qed.

Lemma sqrt_3_bound : sqrt 3 <= 1.7321.
Proof.
  pose proof (sqrt_sqrt 3) as H. pose proof (sqrt_pos 3) as Hp.
  assert (H3 : sqrt 3 * sqrt 3 = 3) by (apply H; lra).
  nra.
Qed.

(** The third of three samples, the lowest one. *)
Lemma rawSample_third_of_three (sr : R) :
  0 <= sr <= 0.6 -> 0.15 <= rawSample sr (2 * PI * (2 / 3)).
Proof.
  intros Hsr. pose proof PI_gt_3 as Hpi. pose proof sin_06_bounds as S6.
  pose proof sqrt_3_bound as Hq.
  unfold rawSample.
  replace (2 * PI * (2 / 3)) with (PI / 3 + PI) by field.
  rewrite neg_sin, sin_PI3.
  replace (2 * (PI / 3 + PI) - 0.3) with (PI - (PI / 3 + 0.3) + 2 * PI) by field.
  rewrite sin_add_2PI, sin_PI_x.
  replace (3 * (PI / 3 + PI) - 0.6) with (Ropp 0.6 + 2 * INR 2 * PI)
    by (cbn [INR]; field).
  rewrite sin_period, sin_neg.
  assert (Hhalf : 1 / 2 <= sin (PI / 3 + 0.3)).
  { rewrite <- sin_PI6. apply sin_incr_1; lra. }
  assert (HA : 0 <= 0.6 * (sr / 0.35) <= 0.6 * (0.6 / 0.35)) by lra.
  assert (Hprod : 0.6 * (sr / 0.35) * (sqrt 3 / 2)
                  <= 0.6 * (0.6 / 0.35) * (1.7321 / 2)).
  { apply Rmult_le_compat; try lra.
    pose proof (sqrt_pos 3). lra. }
  lra.
Qed.

(** With at most three steps no sample reaches the floor. *)
Lemma rawSample_small_counts (sr : R) (n i : nat) :
  0 <= sr <= 0.6 -> (0 < n <= 3)%nat -> (i < n)%nat ->
  0.15 <= rawSample sr (2 * PI * (INR i / INR n)).
Proof.
  intros Hsr Hn Hi. pose proof PI_gt_3 as Hpi.
  assert (Hzero : 0.15 <= rawSample sr 0).
  { pose proof (rawSample_where_sin_nonneg sr 0) as H.
    rewrite sin_0 in H. lra. }
  destruct i as [|i].
  - replace (2 * PI * (INR 0 / INR n)) with 0
      by (cbn [INR]; unfold Rdiv; ring).
    exact Hzero.
  - destruct n as [|[|[|[|n]]]]; try lia.
    + (* two steps, second sample *)
      destruct i as [|i]; [|lia]. cbn [INR].
      replace (2 * PI * (1 / (1 + 1))) with PI by field.
      pose proof (rawSample_where_sin_nonneg sr PI) as H.
      rewrite sin_PI in H. lra.
    + destruct i as [|[|i]]; [| |lia]; cbn [INR].
      * (* three steps, second sample *)
        pose proof (rawSample_where_sin_nonneg sr (2 * PI * (1 / (1 + 1 + 1)))) as H.
        assert (0 < sin (2 * PI * (1 / (1 + 1 + 1)))) by (apply sin_gt_0; lra).
        lra.
      * replace (2 * PI * ((1 + 1) / (1 + 1 + 1))) with (2 * PI * (2 / 3)) by field.
        apply rawSample_third_of_three. exact Hsr.
Qed.

(** The floor lifts a sample by at most [A1 - 0.5]. *)
Lemma flooredSample_lift (hr sr : R) (n i : nat) :
  0 <= sr <= 0.6 ->
  flooredSample hr sr n i <= rawSample sr (waveformPhase hr n i) + 0.5286.
Proof.
  intros Hsr. rewrite flooredSample_unfold.
  set (phi := waveformPhase hr n i).
  assert (Hlow : 0.65 - 0.6 * (sr / 0.35) <= rawSample sr phi).
  { unfold rawSample.
    pose proof (SIN_bound phi) as H1.
    pose proof (SIN_bound (2 * phi - 0.3)) as H2.
    pose proof (SIN_bound (3 * phi - 0.6)) as H3.
    assert (HA : 0 <= 0.6 * (sr / 0.35)) by lra.
    nra. }
  apply Rmax_lub; lra.
Qed.

Lemma flooredWaveform_as_map (hr sr : R) (n : nat) :
  flooredWaveform hr sr n
  = map (fun i => Rmax (rawSample sr (waveformPhase hr n i)) 0.15) (seq 0 n).
Proof. unfold flooredWaveform. apply map_ext. intros i. apply flooredSample_unfold. Qed.

Lemma rawSample_phase_sum_le (hr sr : R) (n : nat) :
  hr <> 0 -> (0 < n)%nat ->
  sumR (map (fun i => rawSample sr (waveformPhase hr n i)) (seq 0 n)) <= INR n.
Proof.
  intros Hhr Hn.
  rewrite (map_ext _ (fun i => rawSample sr (2 * PI * (INR i / INR n))))
    by (intros i; rewrite waveformPhase_closed by exact Hhr; reflexivity).
  apply rawSample_sum_le. exact Hn.
Qed.

Lemma rawSample_phase_sum_from_four (hr sr : R) (n : nat) :
  hr <> 0 -> (4 <= n)%nat ->
  sumR (map (fun i => rawSample sr (waveformPhase hr n i)) (seq 0 n)) = INR n.
Proof.
  intros Hhr Hn.
  rewrite (map_ext _ (fun i => rawSample sr (2 * PI * (INR i / INR n))))
    by (intros i; rewrite waveformPhase_closed by exact Hhr; reflexivity).
  apply rawSample_sum_from_four. exact Hn.
Qed.

(** The mean of the floored samples: at most 1.5286, above one as soon as
    a sample is floored, at most one when none is. *)
Lemma flooredWaveform_mean_upper (hr sr : R) (n : nat) :
  hr <> 0 -> 0 <= sr <= 0.6 -> (0 < n)%nat ->
  mean_of (flooredWaveform hr sr n) <= 1.5286.
Proof.
  intros Hhr Hsr Hn. pose proof (INR_pos n Hn) as Hpos.
  unfold mean_of. rewrite flooredWaveform_length.
  assert (H : sumR (flooredWaveform hr sr n)
              <= sumR (map (fun i => 0.5286 + 1 * rawSample sr (waveformPhase hr n i)
                                     + 0 * 0 + 0 * 0) (seq 0 n))).
  { unfold flooredWaveform. apply sumR_map_le. intros i _.
    pose proof (flooredSample_lift hr sr n i Hsr). lra. }
  rewrite sumR_linear3, length_seq in H.
  pose proof (rawSample_phase_sum_le hr sr n Hhr Hn) as Hraw.
  apply Rmult_le_reg_r with (INR n); [exact Hpos|].
  unfold Rdiv. rewrite Rmult_assoc, Rinv_l by lra. lra.
Qed.

Lemma flooredWaveform_mean_above_one (hr sr : R) (n i : nat) :
  hr <> 0 -> (4 <= n)%nat -> (i < n)%nat ->
  rawSample sr (waveformPhase hr n i) < 0.15 ->
  1 < mean_of (flooredWaveform hr sr n).
Proof.
  intros Hhr Hn Hi Hraw. pose proof (INR_pos n ltac:(lia)) as Hpos.
  unfold mean_of. rewrite flooredWaveform_length.
  assert (H : sumR (map (fun i => rawSample sr (waveformPhase hr n i)) (seq 0 n))
              < sumR (flooredWaveform hr sr n)).
  { rewrite flooredWaveform_as_map. apply sumR_map_lt with (a := i).
    - intros j _. apply Rmax_l.
    - apply in_seq. lia.
    - pose proof (Rmax_r (rawSample sr (waveformPhase hr n i)) 0.15). lra. }
  rewrite rawSample_phase_sum_from_four in H by assumption.
  apply Rmult_lt_reg_r with (INR n); [exact Hpos|].
  unfold Rdiv. rewrite Rmult_assoc, Rinv_l by lra. lra.
Qed.

Lemma flooredWaveform_mean_at_most_one (hr sr : R) (n : nat) :
  hr <> 0 -> (0 < n)%nat ->
  (forall i, (i < n)%nat -> 0.15 <= rawSample sr (waveformPhase hr n i)) ->
  mean_of (flooredWaveform hr sr n) <= 1.
Proof.
  intros Hhr Hn Hraw. pose proof (INR_pos n Hn) as Hpos.
  unfold mean_of. rewrite flooredWaveform_length.
  assert (H : sumR (flooredWaveform hr sr n)
              <= sumR (map (fun i => rawSample sr (waveformPhase hr n i)) (seq 0 n))).
  { rewrite flooredWaveform_as_map. apply sumR_map_le. intros i Hi.
    apply in_seq in Hi. rewrite Rmax_left by (apply Hraw; lia). lra. }
  pose proof (rawSample_phase_sum_le hr sr n Hhr Hn) as Hsum.
  apply Rmult_le_reg_r with (INR n); [exact Hpos|].
  unfold Rdiv. rewrite Rmult_assoc, Rinv_l by lra. lra.
Qed.

(** C1 (amended). For a heart rate in [50, 120], a systolic ratio in
    [0.1, 0.6] and a positive step count the waveform has that many
    elements and mean one.  The floor 0.15 holds for the samples before the
    normalisation, whose mean [m] lies between 0.15 and 1.53, so that every
    element returned is at least [0.15 / m], and at least 0.098.  Whenever
    a sample is floored (its Fourier sum is below 0.15) [m] exceeds one and
    the element returned for that sample is [0.15 / m], which is below
    0.15; when no sample is floored [m] is at most one and every element
    returned is at least 0.15. *)
Theorem C1_waveform_mean_one_floor_before_normalisation :
  forall (hr sr : R) (n : nat),
    50 <= hr <= 120 ->
    0.1 <= sr <= 0.6 ->
    (0 < n)%nat ->
    exists w : list R,
      generatePulsatileWaveform hr sr n = Some w /\
      length w = n /\
      mean_of w = 1 /\
      (forall q, In q (flooredWaveform hr sr n) -> 0.15 <= q) /\
      0.15 <= mean_of (flooredWaveform hr sr n) <= 1.53 /\
      (forall x, In x w ->
         0.15 / mean_of (flooredWaveform hr sr n) <= x /\ 0.098 <= x) /\
      (forall i, (i < n)%nat ->
         rawSample sr (waveformPhase hr n i) < 0.15 ->
         1 < mean_of (flooredWaveform hr sr n) /\
         nth_error w i = Some (0.15 / mean_of (flooredWaveform hr sr n)) /\
         0.15 / mean_of (flooredWaveform hr sr n) < 0.15) /\
      ((forall i, (i < n)%nat -> 0.15 <= rawSample sr (waveformPhase hr n i)) ->
       mean_of (flooredWaveform hr sr n) <= 1 /\
       forall x, In x w -> 0.15 <= x).
Proof.
  intros hr sr n Hhr Hsr Hn.
  assert (Hhr0 : hr <> 0) by lra.
  set (fw := flooredWaveform hr sr n).
  assert (Hlen : (0 < length fw)%nat)
    by (unfold fw; rewrite flooredWaveform_length; exact Hn).
  assert (Hb : forall x, In x fw -> 0.15 <= x <= 1.35 + 0.6 * (sr / 0.35))
    by (intros x Hx; apply (flooredWaveform_bounds hr sr n); [lra | exact Hx]).
  pose proof (mean_of_bounds fw _ _ Hlen Hb) as [Hm_lo _].
  assert (Hm_hi : mean_of fw <= 1.5286)
    by (apply flooredWaveform_mean_upper; [exact Hhr0 | lra | exact Hn]).
  exists (map (fun q => q / mean_of fw) fw).
  split; [apply generatePulsatileWaveform_some; exact Hn|].
  split; [rewrite length_map; apply flooredWaveform_length|].
  split; [apply mean_of_normalised; [exact Hlen | lra]|].
  split; [intros q Hq; apply Hb; exact Hq|].
  split; [lra|].
  split; [|split].
  - intros x Hx. apply in_map_iff in Hx. destruct Hx as [q [<- Hq]].
    destruct (Hb q Hq) as [Hq_lo _].
    assert (H1 : 0.15 / mean_of fw <= q / mean_of fw)
      by (apply div_le_div_r; lra).
    split; [exact H1|].
    assert (H2 : 0.15 / 1.5286 <= 0.15 / mean_of fw)
      by (apply div_le_div_l; lra).
    lra.
  - intros i Hi Hraw.
    destruct (le_lt_dec 4 n) as [H4 | H4].
    2:{ exfalso.
        pose proof (rawSample_small_counts sr n i ltac:(lra) ltac:(lia) Hi) as H.
        rewrite <- (waveformPhase_closed hr n i Hhr0) in H. lra. }
    assert (Hm1 : 1 < mean_of fw)
      by (apply (flooredWaveform_mean_above_one hr sr n i); assumption).
    split; [exact Hm1|]. split.
    + rewrite nth_error_map.
      assert (Hnth : nth_error fw i = Some 0.15).
      { unfold fw. rewrite flooredWaveform_as_map.
        rewrite nth_error_map_seq by exact Hi.
        rewrite Rmax_right by lra. reflexivity. }
      rewrite Hnth. reflexivity.
    + assert (H : 0.15 / mean_of fw < 0.15 / 1).
      { unfold Rdiv. apply Rmult_lt_compat_l; [lra|].
        apply Rinv_lt_contravar; lra. }
      lra.
  - intros Hraw.
    assert (Hm1 : mean_of fw <= 1)
      by (apply flooredWaveform_mean_at_most_one; assumption).
    split; [exact Hm1|].
    intros x Hx. apply in_map_iff in Hx. destruct Hx as [q [<- Hq]].
    destruct (Hb q Hq) as [Hq_lo _].
    assert (H : q / 1 <= q / mean_of fw) by (apply div_le_div_l; lra).
    lra.
Qed.

(** At heart rate 75, systolic ratio 0.6 and four steps the last sample is
    floored: the mean before the normalisation exceeds one and the last
    element is [0.15 / m], below 0.15. *)
Lemma C1_witness :
  exists w : list R,
    generatePulsatileWaveform 75 0.6 4 = Some w /\
    length w = 4%nat /\
    mean_of w = 1 /\
    0.15 <= mean_of (flooredWaveform 75 0.6 4) <= 1.53 /\
    (forall x, In x w ->
       0.15 / mean_of (flooredWaveform 75 0.6 4) <= x /\ 0.098 <= x) /\
    1 < mean_of (flooredWaveform 75 0.6 4) /\
    nth_error w 3 = Some (0.15 / mean_of (flooredWaveform 75 0.6 4)) /\
    0.15 / mean_of (flooredWaveform 75 0.6 4) < 0.15.
Proof.
  destruct (C1_waveform_mean_one_floor_before_normalisation 75 0.6 4)
    as (w & Hw & Hl & Hm & _ & Hr & Hx & Hfl & _); try lra; [lia|].
  exists w.
  split; [exact Hw|]. split; [exact Hl|]. split; [exact Hm|].
  split; [exact Hr|]. split; [exact Hx|].
  apply (Hfl 3%nat); [lia|].
  destruct waveformPhase_quarters as (_ & _ & _ & P3).
  rewrite P3, rawSample_at_3PI2.
  pose proof sin_03_bounds. pose proof (COS_bound 0.6). lra.
Defined.

End WaveformMean.

(** ** The relative residence time *)

Section ResidenceTime.
Import WssCalculator.

Lemma inv_bounds (d : R) : 0.01 <= d -> 0 < 1 / d <= 100.
Proof.
  intros Hd. assert (Hpos : 0 < d) by lra.
  pose proof (Rinv_0_lt_compat d Hpos) as Hinv.
  assert (Hone : d * / d = 1) by (apply Rinv_r; lra).
  unfold Rdiv. split; nra.
Qed.

(** The early return of [calculateRRT] is a floor on the denominator. *)
Lemma calculateRRT_floored_denominator (t o : R) :
  calculateRRT t o = 1 / Rmax ((1 - 2 * o) * t) 0.01.
Proof.
  unfold calculateRRT. split_cmp.
  - rewrite Rmax_right by lra. lra.
  - rewrite Rmax_left by lra. reflexivity.
Qed.

Lemma calculateRRT_bounds (t o : R) : 0 < calculateRRT t o <= 100.
Proof.
  rewrite calculateRRT_floored_denominator. apply inv_bounds. apply Rmax_r.
Qed.

(** C5. For a positive TAWSS and an OSI in [0, 0.5] the relative residence
    time is [1 / ((1 - 2 OSI) TAWSS)] with the denominator floored at 0.01,
    and it lies in [0, 100]. *)
Theorem C5_rrt_between_0_and_100 :
  forall t o : R,
    0 < t ->
    0 <= o <= 0.5 ->
    calculateRRT t o = 1 / Rmax ((1 - 2 * o) * t) 0.01 /\
    0 <= calculateRRT t o <= 100.
Proof.
  intros t o _ _. split; [apply calculateRRT_floored_denominator|].
  pose proof (calculateRRT_bounds t o). lra.
Qed.

Lemma C5_witness :
  calculateRRT 2 0.5 = 1 / Rmax ((1 - 2 * 0.5) * 2) 0.01 /\
  0 <= calculateRRT 2 0.5 <= 100.
Proof. apply (C5_rrt_between_0_and_100 2 0.5); lra. Defined.

End ResidenceTime.

(** ** Generic facts on the error monad and on indices *)

Section Generic.

Lemma mapM_some {A B : Type} (f : A -> option B) (l : list A) :
  (forall a, In a l -> exists b, f a = Some b) ->
  exists bs, mapM f l = Some bs /\ length bs = length l.
Proof.
  induction l as [|a l IH]; intros H.
  - exists []. split; reflexivity.
  - destruct (H a (or_introl eq_refl)) as [b Hb].
    destruct IH as [bs [Hbs Hlen]]; [intros x Hx; apply H; right; exact Hx|].
    exists (b :: bs). cbn [mapM]. rewrite Hb. cbn [bind]. rewrite Hbs. cbn [bind].
    split; [reflexivity | simpl; rewrite Hlen; reflexivity].
Qed.

(** Every element of a successful [mapM] is the image of an element. *)
Lemma mapM_in {A B : Type} (f : A -> option B) (l : list A) (bs : list B) (b : B) :
  mapM f l = Some bs -> In b bs -> exists a, In a l /\ f a = Some b.
Proof.
  revert bs. induction l as [|a l IH]; intros bs H Hin.
  - injection H as <-. destruct Hin.
  - cbn [mapM] in H. destruct (f a) as [b0|] eqn:Hfa; [|discriminate].
    cbn [bind] in H. destruct (mapM f l) as [bs0|] eqn:Hl; [|discriminate].
    cbn [bind] in H. injection H as <-. destruct Hin as [<- | Hin].
    + exists a. split; [left; reflexivity | exact Hfa].
    + destruct (IH bs0 eq_refl Hin) as [a' [Ha' Hf']].
      exists a'. split; [right; exact Ha' | exact Hf'].
Qed.

(** [i / k] for an index [i] up to [k]. *)
Lemma index_fraction_unit (i k : nat) :
  (i <= k)%nat -> (0 < k)%nat -> 0 <= INR i / INR k <= 1.
Proof.
  intros Hik Hk. pose proof (INR_pos k Hk) as Hpos.
  pose proof (pos_INR i) as Hi. pose proof (le_INR i k Hik) as Hle.
  split.
  - apply Rmult_le_reg_r with (INR k); [exact Hpos|].
    unfold Rdiv. rewrite Rmult_assoc, Rinv_l by lra. lra.
  - apply Rmult_le_reg_r with (INR k); [exact Hpos|].
    unfold Rdiv. rewrite Rmult_assoc, Rinv_l by lra. lra.
Qed.

Lemma indexed_length {A : Type} (l : list A) : length (indexed l) = length l.
Proof. unfold indexed. rewrite length_combine, length_seq. apply Nat.min_id. Qed.

Lemma in_combine_seq {A : Type} (l : list A) (s i : nat) (a : A) :
  In (i, a) (combine (seq s (length l)) l) -> (s <= i < s + length l)%nat.
Proof.
  intros H. apply in_combine_l in H. apply in_seq in H. exact H.
Qed.

Lemma indexed_in {A : Type} (l : list A) (i : nat) (a : A) :
  In (i, a) (indexed l) -> (i < length l)%nat.
Proof. intros H. apply in_combine_seq in H. lia. Qed.

End Generic.

(** ** The geometry: the vein centreline never stalls *)

Section VeinTangent.
Import Constants Geometry.

Lemma hypot_nonzero_l (dx dy : R) : dx <> 0 -> hypot dx dy <> 0.
Proof.
  intros H. unfold hypot.
  assert (0 < dx * dx + dy * dy) by nra.
  pose proof (sqrt_lt_R0 _ H0). lra.
Qed.

Lemma hypot_nonzero_r (dx dy : R) : dy <> 0 -> hypot dx dy <> 0.
Proof.
  intros H. unfold hypot.
  assert (0 < dx * dx + dy * dy) by nra.
  pose proof (sqrt_lt_R0 _ H0). lra.
Qed.

(** At the far end the curve runs horizontally, at full speed. *)
Lemma bezierDx_at_end (cx cy a : R) :
  bezierDx 1 (veinP0 cx cy) (veinP1 cx cy a) (veinP2 cx cy) (veinP3 cx cy) = -420.
Proof. cbv [bezierDx veinP0 veinP1 veinP2 veinP3 veinCurveLength px py]. lra. Qed.

(** Before the far end the curve climbs (its [y] decreases) whenever the
    sine of the anastomosis angle is positive. *)
Lemma bezierDy_before_end (cx cy a t : R) :
  0 < sin a -> 0 <= t < 1 ->
  bezierDy t (veinP0 cx cy) (veinP1 cx cy a) (veinP2 cx cy) (veinP3 cx cy) < 0.
Proof.
  intros Hs [Ht0 Ht1].
  pose proof (SIN_bound a) as [_ Hs1].
  cbv [bezierDy veinP0 veinP1 veinP2 veinP3 veinCurveLength px py].
  set (s := sin a) in *. set (mt := 1 - t).
  assert (Hmt : 0 < mt) by (unfold mt; lra).
  assert (H1 : 0 < s * (mt * mt)) by (apply Rmult_lt_0_compat; nra).
  assert (H2 : 0 <= mt * t * (280 - 140 * s)).
  { apply Rmult_le_pos; [apply Rmult_le_pos; lra | lra]. }
  nra.
Qed.

Lemma vein_tangent_defined (cx cy a t : R) :
  0 < sin a -> 0 <= t <= 1 ->
  exists tangent,
    cubicBezierTangent t (veinP0 cx cy) (veinP1 cx cy a) (veinP2 cx cy) (veinP3 cx cy)
    = Some tangent.
Proof.
  intros Hs [Ht0 Ht1].
  assert (Hlen : hypot
            (bezierDx t (veinP0 cx cy) (veinP1 cx cy a) (veinP2 cx cy) (veinP3 cx cy))
            (bezierDy t (veinP0 cx cy) (veinP1 cx cy a) (veinP2 cx cy) (veinP3 cx cy))
          <> 0).
  { destruct (Req_dec t 1) as [-> | Hne].
    - apply hypot_nonzero_l. rewrite bezierDx_at_end. lra.
    - apply hypot_nonzero_r.
      pose proof (bezierDy_before_end cx cy a t Hs). lra. }
  unfold cubicBezierTangent, fdiv.
  destruct (Req_dec_T _ 0) as [E | _]; [contradiction|].
  cbn [bind]. eexists. reflexivity.
Qed.

(** The sine of an angle given in degrees, strictly between 0 and 180. *)
Lemma sin_degrees_pos (angle : R) :
  0 < angle < 180 -> 0 < sin (angle * PI / 180).
Proof.
  intros [H0 H1]. pose proof PI_RGT_0 as Hpi.
  apply sin_gt_0.
  - apply Rmult_lt_reg_r with 180; [lra|]. unfold Rdiv.
    rewrite Rmult_assoc, Rinv_l by lra. nra.
  - apply Rmult_lt_reg_r with 180; [lra|]. unfold Rdiv.
    rewrite Rmult_assoc, Rinv_l by lra. nra.
Qed.

Lemma vein_normals_defined (cx cy a : R) :
  0 < sin a ->
  exists normals,
    mapM (fun i : nat =>
            let t := INR i / INR (numVeinPts - 1) in
            tangent <- cubicBezierTangent t (veinP0 cx cy) (veinP1 cx cy a)
                                          (veinP2 cx cy) (veinP3 cx cy) ;;
            Some (mkPoint (- py tangent) (px tangent)))
         (seq 0 numVeinPts) = Some normals /\
    length normals = numVeinPts.
Proof.
  intros Hs.
  match goal with
  | |- exists n, mapM ?f ?l = _ /\ _ => destruct (mapM_some f l) as [bs [Hbs Hlen]]
  end.
  - intros i Hi. apply in_seq in Hi.
    destruct (vein_tangent_defined cx cy a (INR i / INR (numVeinPts - 1)) Hs)
      as [tg Htg].
    { apply index_fraction_unit; unfold numVeinPts in *; lia. }
    cbv zeta. rewrite Htg. cbn [bind]. eexists. reflexivity.
  - exists bs. split; [exact Hbs|]. rewrite Hlen, length_seq. reflexivity.
Qed.

End VeinTangent.

(** ** The geometry: lengths of filtered walls *)

Section FilteredLengths.

Lemma flat_map_option_length {A B : Type} (f : A -> list B) (k : A -> bool)
    (g : A -> B) (l : list A) :
  (forall a, In a l -> f a = if k a then [g a] else []) ->
  length (flat_map f l) = length (filter k l).
Proof.
  induction l as [|a l IH]; intros H; [reflexivity|].
  cbn [flat_map filter]. rewrite length_app, IH
    by (intros x Hx; apply H; right; exact Hx).
  rewrite (H a (or_introl eq_refl)). destruct (k a); reflexivity.
Qed.

Lemma flat_map_option_in {A B : Type} (f : A -> list B) (k : A -> bool)
    (g : A -> B) (l : list A) (b : B) :
  (forall a, In a l -> f a = if k a then [g a] else []) ->
  In b (flat_map f l) -> exists a, In a l /\ k a = true /\ b = g a.
Proof.
  intros H Hin. apply in_flat_map in Hin. destruct Hin as [a [Ha Hb]].
  rewrite (H a Ha) in Hb. destruct (k a) eqn:Hk; [|destruct Hb].
  destruct Hb as [<- | []]. exists a. auto.
Qed.

Lemma filter_snd_combine_seq {A : Type} (P : A -> bool) (l : list A) (s : nat) :
  length (filter (fun ip : nat * A => P (snd ip)) (combine (seq s (length l)) l))
  = length (filter P l).
Proof.
  revert s. induction l as [|a l IH]; intros s; [reflexivity|].
  cbn [length seq combine filter snd]. destruct (P a); cbn [length]; rewrite IH; reflexivity.
Qed.

Lemma filter_fst_combine_seq {A : Type} (l : list A) (s : nat) :
  length (filter (fun ip : nat * A => negb (fst ip <? 3)%nat)
                 (combine (seq s (length l)) l))
  = ((s + length l - 3) - (s - 3))%nat.
Proof.
  revert s. induction l as [|a l IH]; intros s.
  - cbn [length seq combine filter]. lia.
  - cbn [length seq combine filter fst].
    destruct (Nat.ltb_spec s 3); cbn [negb length]; rewrite IH; lia.
Qed.

Lemma filter_map_length {A B : Type} (P : B -> bool) (f : A -> B) (l : list A) :
  length (filter P (map f l)) = length (filter (fun a => P (f a)) l).
Proof.
  induction l as [|a l IH]; [reflexivity|].
  cbn [map filter]. destruct (P (f a)); cbn [length]; rewrite IH; reflexivity.
Qed.

End FilteredLengths.

(** ** The geometry: the wall points *)

Section WallPoints.
Import Constants Geometry.

Lemma region_in_allRegions (r : RegionType) : In r allRegions.
Proof. destruct r; cbv [allRegions In]; tauto. Qed.

Lemma allRegions_eight : length allRegions = 8%nat /\ NoDup allRegions.
Proof.
  split; [reflexivity|].
  unfold allRegions.
  repeat (constructor; [cbv [In]; intuition discriminate|]). constructor.
Qed.

(** The position [i / (length - 1)] of an element of a wall of two points
    or more. *)
Lemma wall_position_unit {A : Type} (l : list A) (i : nat) (a : A) :
  (2 <= length l)%nat -> In (i, a) (indexed l) ->
  0 <= INR i / INR (length l - 1) <= 1.
Proof.
  intros Hlen Hin. apply indexed_in in Hin.
  apply index_fraction_unit; lia.
Qed.

Lemma generateWallPoints_paramPosition
    (up lo vo vi normals toe : list Point2D) (cx cy ar angleRad : R) (wp : WallPoint) :
  (2 <= length up)%nat -> (2 <= length lo)%nat -> (2 <= length vo)%nat ->
  (2 <= length vi)%nat -> (2 <= length toe)%nat ->
  In wp (generateWallPoints up lo vo vi normals toe cx cy ar angleRad) ->
  0 <= paramPosition wp <= 1.
Proof.
  intros Hup Hlo Hvo Hvi Htoe Hin. unfold generateWallPoints in Hin.
  repeat (apply in_app_or in Hin; destruct Hin as [Hin | Hin]).
  - apply in_flat_map in Hin. destruct Hin as [[i p] [Hip Hin]].
    destruct (Rgtb (py p) (cy - ar + 5)); [destruct Hin|].
    destruct Hin as [<- | []]. cbn [paramPosition].
    apply (wall_position_unit up i p Hup Hip).
  - apply in_map_iff in Hin. destruct Hin as [[i p] [<- Hip]].
    cbn [paramPosition]. apply (wall_position_unit toe i p Htoe Hip).
  - apply in_map_iff in Hin. destruct Hin as [[i p] [<- Hip]].
    cbn [paramPosition]. apply (wall_position_unit lo i p Hlo Hip).
  - apply in_flat_map in Hin. destruct Hin as [[i p] [Hip Hin]].
    destruct (i <? 3)%nat; [destruct Hin|].
    destruct Hin as [<- | []]. cbn [paramPosition].
    apply (wall_position_unit vo i p Hvo Hip).
  - apply in_flat_map in Hin. destruct Hin as [[i p] [Hip Hin]].
    destruct (i <? 3)%nat; [destruct Hin|].
    destruct Hin as [<- | []]. cbn [paramPosition].
    apply (wall_position_unit vi i p Hvi Hip).
Qed.

(** The number of wall points: the upper-wall samples that pass the
    exclusion test, the whole toe patch and lower wall, and the two vein
    walls without their first three samples. *)
Lemma generateWallPoints_length
    (up lo vo vi normals toe : list Point2D) (cx cy ar angleRad : R) :
  length (generateWallPoints up lo vo vi normals toe cx cy ar angleRad)
  = (length (filter (fun p => negb (Rgtb (py p) (cy - ar + 5))) up)
     + length toe + length lo + (length vo - 3) + (length vi - 3))%nat.
Proof.
  unfold generateWallPoints. rewrite !length_app, !length_map, !indexed_length.
  rewrite (flat_map_option_length _
             (fun ip : nat * Point2D => negb (Rgtb (py (snd ip)) (cy - ar + 5)))
             (fun ip : nat * Point2D =>
                mkWallPoint (snd ip) (mkPoint 0 (-1))
                  (if Rgtb (px (snd ip) - cx) ar then distal_artery
                   else if Rltb (Rabs (px (snd ip) - cx)) ar
                        then (if Rltb (px (snd ip) - cx) 0
                              then anastomosis_heel else anastomosis_toe)
                        else proximal_artery)
                  (INR (fst ip) / INR (length up - 1)))).
  2:{ intros [i p] _. cbn [fst snd]. destruct (Rgtb (py p) (cy - ar + 5)); reflexivity. }
  rewrite (flat_map_option_length _
             (fun ip : nat * Point2D => negb (fst ip <? 3)%nat)
             (fun ip : nat * Point2D =>
                mkWallPoint (snd ip) (pointAt normals (fst ip))
                  (if Rltb (INR (fst ip) / INR (length vo - 1)) 0.2
                   then anastomosis_outer else vein_outer)
                  (INR (fst ip) / INR (length vo - 1)))).
  2:{ intros [i p] _. cbn [fst snd]. destruct (i <? 3)%nat; reflexivity. }
  rewrite (flat_map_option_length _
             (fun ip : nat * Point2D => negb (fst ip <? 3)%nat)
             (fun ip : nat * Point2D =>
                mkWallPoint (snd ip)
                  (mkPoint (- px (pointAt normals (fst ip)))
                           (- py (pointAt normals (fst ip))))
                  (if Rltb (INR (fst ip) / INR (length vi - 1)) 0.2
                   then anastomosis_floor else vein_inner)
                  (INR (fst ip) / INR (length vi - 1)))).
  2:{ intros [i p] _. cbn [fst snd]. destruct (i <? 3)%nat; reflexivity. }
  unfold indexed.
  rewrite (filter_snd_combine_seq (fun p => negb (Rgtb (py p) (cy - ar + 5))) up 0).
  rewrite !filter_fst_combine_seq. lia.
Qed.

End WallPoints.

(** ** The geometry is defined for an angle strictly between 0 and 180 *)

Section GeometryDefined.
Import Constants Geometry.

(** The exclusion test of [generateWallPoints] on sample [i] of the carved
    upper wall, read on the inputs. *)
Lemma carved_sample_kept (ad vd angle : R) (i : nat) :
  negb (Rgtb
          (py (if Rgtb (arterySampleX i) (heelX canvasCx (halfOpeningOf vd angle))
                  && Rltb (arterySampleX i) (toeX canvasCx (halfOpeningOf vd angle))
               then mkPoint (arterySampleX i) (canvasCy - radiusPx ad + radiusPx ad * 0.8)
               else mkPoint (arterySampleX i) (canvasCy - radiusPx ad)))
          (canvasCy - radiusPx ad + 5))
  = upperSampleKept ad vd angle i.
Proof.
  unfold upperSampleKept, inOpening.
  destruct (Rgtb (arterySampleX i) (heelX canvasCx (halfOpeningOf vd angle))
            && Rltb (arterySampleX i) (toeX canvasCx (halfOpeningOf vd angle)));
    cbn [py andb negb]; unfold Rgtb.
  - f_equal.
    destruct (Rltb (canvasCy - radiusPx ad + 5)
                (canvasCy - radiusPx ad + radiusPx ad * 0.8)) eqn:E1;
    destruct (Rltb 5 (radiusPx ad * 0.8)) eqn:E2; try reflexivity;
    [apply Rltb_true in E1; apply Rltb_false in E2
    |apply Rltb_false in E1; apply Rltb_true in E2]; lra.
  - destruct (Rltb (canvasCy - radiusPx ad + 5) (canvasCy - radiusPx ad)) eqn:E1;
      [apply Rltb_true in E1; lra | reflexivity].
Qed.

Lemma generateGeometry_defined (ad vd angle : R) :
  0 < angle < 180 ->
  exists g up toe normals,
    generateGeometry ad vd angle = Some g /\
    arteryUpperWall g = up /\
    wallPoints g
    = generateWallPoints up (arteryLowerWall g) (veinOuterWall g) (veinInnerWall g)
        normals toe canvasCx canvasCy (radiusPx ad) (degToRad angle) /\
    length up = 60%nat /\ length (arteryLowerWall g) = 60%nat /\
    length (veinOuterWall g) = 50%nat /\ length (veinInnerWall g) = 50%nat /\
    length toe = 16%nat /\
    length (filter (fun p => negb (Rgtb (py p) (canvasCy - radiusPx ad + 5))) up)
    = length (filter (upperSampleKept ad vd angle) (seq 0 numArteryPts)).
Proof.
  intros Hangle. pose proof (sin_degrees_pos angle Hangle) as Hs.
  unfold generateGeometry. cbv zeta.
  destruct (vein_normals_defined (CANVAS_width / 2) (CANVAS_height * 0.65)
              (angle * PI / 180) Hs) as [normals [Hn Hnlen]].
  cbv zeta in Hn. rewrite Hn. cbn [bind].
  unfold generateSmoothConnection.
  match goal with
  | |- context [nth_error ?l ?k] => destruct (nth_error l k) as [veinPt|] eqn:Hnth
  end.
  2:{ apply nth_error_None in Hnth.
      rewrite !length_map, !indexed_length, !length_map, !length_seq in Hnth.
      unfold numVeinPts in Hnth. simpl in Hnth. lia. }
  clear Hnth. cbn [bind].
  unfold modifyArteryWallForAnastomosis, fdiv.
  destruct (Req_dec_T (sin (angle * PI / 180)) 0) as [E | _]; [lra|].
  cbn [bind].
  eexists. eexists. eexists. exists normals.
  split; [reflexivity|].
  cbn [arteryUpperWall wallPoints arteryLowerWall veinOuterWall veinInnerWall].
  split; [reflexivity|].
  split; [reflexivity|].
  split; [rewrite !length_map, length_seq; reflexivity|].
  split; [rewrite !length_map, length_seq; reflexivity|].
  split; [rewrite length_map, indexed_length, length_map, length_seq; reflexivity|].
  split; [rewrite length_map, indexed_length, length_map, length_seq; reflexivity|].
  split; [rewrite length_map, length_seq; reflexivity|].
  rewrite !filter_map_length. f_equal. apply filter_ext.
  intros i. cbn [px py]. apply (carved_sample_kept ad vd angle i).
Qed.

End GeometryDefined.

(** ** The wall points of the generated geometry *)

Section GeometryClaims.
Import Constants Geometry.

Lemma filter_length_bound {A : Type} (k : A -> bool) (l : list A) :
  (length (filter k l) <= length l)%nat.
Proof.
  induction l as [|a l IH]; [apply Nat.le_refl|].
  cbn [filter]. destruct (k a); cbn [length]; lia.
Qed.

Lemma wallPointCount_range (ad vd angle : R) :
  (170 <= wallPointCount ad vd angle <= 230)%nat.
Proof.
  unfold wallPointCount.
  pose proof (filter_length_bound (upperSampleKept ad vd angle) (seq 0 numArteryPts)) as H.
  rewrite length_seq in H. unfold numArteryPts in *. lia.
Qed.

(** C6. For positive diameters and an angle in (0, 90] the geometry is
    generated, every wall point has its position in [0, 1] and one of the
    eight region tags, and the number of wall points is the function
    [wallPointCount] of the three inputs (between 170 and 230). *)
Theorem C6_wall_points_position_region_count :
  forall ad vd angle : R,
    0 < ad -> 0 < vd -> 0 < angle <= 90 ->
    exists g,
      generateGeometry ad vd angle = Some g /\
      (forall wp, In wp (wallPoints g) ->
         0 <= paramPosition wp <= 1 /\ In (regionType wp) allRegions) /\
      length allRegions = 8%nat /\
      length (wallPoints g) = wallPointCount ad vd angle /\
      (170 <= length (wallPoints g) <= 230)%nat.
Proof.
  intros ad vd angle _ _ Hangle.
  destruct (generateGeometry_defined ad vd angle) as
    (g & up & toe & normals & Hg & Hup & Hwp & Lup & Llo & Lvo & Lvi & Ltoe & Hkept);
    [lra|].
  assert (Hcount : length (wallPoints g) = wallPointCount ad vd angle).
  { rewrite Hwp, generateWallPoints_length, Hkept, Llo, Lvo, Lvi, Ltoe.
    unfold wallPointCount. lia. }
  exists g. split; [exact Hg|]. split; [|split; [reflexivity|split; [exact Hcount|]]].
  - intros wp Hin. split; [|apply region_in_allRegions].
    rewrite Hwp in Hin.
    apply generateWallPoints_paramPosition in Hin; [exact Hin | lia ..].
  - rewrite Hcount. apply wallPointCount_range.
Qed.

Lemma C6_witness :
  exists g,
    generateGeometry 4 4 45 = Some g /\
    (forall wp, In wp (wallPoints g) ->
       0 <= paramPosition wp <= 1 /\ In (regionType wp) allRegions) /\
    length allRegions = 8%nat /\
    length (wallPoints g) = wallPointCount 4 4 45 /\
    (170 <= length (wallPoints g) <= 230)%nat.
Proof. apply (C6_wall_points_position_region_count 4 4 45); lra. Defined.

(** At 0 degrees the sine vanishes and the opening width is not a finite
    number: the pole of the division lies at 0, not at 90. *)
Lemma openingWidth_at_0 (vd : R) :
  fdiv (radiusPx vd * 2) (sin (degToRad 0)) = None.
Proof.
  unfold fdiv.
  replace (degToRad 0) with 0 by (unfold degToRad; lra).
  rewrite sin_0. destruct (Req_dec_T 0 0) as [_ | H]; [reflexivity | contradiction].
Qed.

(** There the carving still returns a wall: with an infinite opening every
    point of the upper wall is lowered. *)
Lemma modifyArteryWallForAnastomosis_at_0 (wall : list Point2D) (ad vd : R) :
  0 < vd ->
  modifyArteryWallForAnastomosis wall canvasCx (radiusPx vd) (degToRad 0) (radiusPx ad)
  = Some (map (fun p => mkPoint (px p) (py p + radiusPx ad * 0.8)) wall).
Proof.
  intros Hvd. unfold modifyArteryWallForAnastomosis.
  rewrite openingWidth_at_0.
  assert (H : Rltb 0 (radiusPx vd * 2) = true).
  { destruct (Rltb 0 (radiusPx vd * 2)) eqn:E; [reflexivity|].
    apply Rltb_false in E. revert E.
    unfold radiusPx, CANVAS_vesselScale. intros E. lra. }
  rewrite H. reflexivity.
Qed.

(** The remaining step of the geometry, the normalisation of the vein
    tangents, has no pole at 0 degrees either: the centreline leaves the
    anastomosis horizontally and then climbs. *)
Lemma vein_tangent_defined_at_0 (cx cy t : R) :
  0 <= t <= 1 ->
  exists tangent,
    cubicBezierTangent t (veinP0 cx cy) (veinP1 cx cy 0) (veinP2 cx cy) (veinP3 cx cy)
    = Some tangent.
Proof.
  intros [Ht0 Ht1].
  assert (Hlen : hypot
            (bezierDx t (veinP0 cx cy) (veinP1 cx cy 0) (veinP2 cx cy) (veinP3 cx cy))
            (bezierDy t (veinP0 cx cy) (veinP1 cx cy 0) (veinP2 cx cy) (veinP3 cx cy))
          <> 0).
  { destruct (Req_dec t 0) as [-> | Hne].
    - apply hypot_nonzero_l.
      cbv [bezierDx veinP0 veinP1 veinP2 veinP3 veinCurveLength px py].
      replace (PI - 0) with PI by ring. rewrite cos_PI. lra.
    - destruct (Req_dec t 1) as [-> | Hne1].
      + apply hypot_nonzero_l. rewrite bezierDx_at_end. lra.
      + apply hypot_nonzero_r.
        cbv [bezierDy veinP0 veinP1 veinP2 veinP3 veinCurveLength px py].
        rewrite sin_0.
        assert (H : 0 < (1 - t) * t) by (apply Rmult_lt_0_compat; lra).
        nra. }
  unfold cubicBezierTangent, fdiv.
  destruct (Req_dec_T _ 0) as [E | _]; [contradiction|].
  cbn [bind]. eexists. reflexivity.
Qed.

(** So at 0 degrees the geometry is generated, with the whole upper wall
    of the artery lowered. *)
Lemma generateGeometry_at_0 (ad vd : R) :
  0 < vd ->
  exists g,
    generateGeometry ad vd 0 = Some g /\
    forall p, In p (arteryUpperWall g) ->
      py p = canvasCy - radiusPx ad + radiusPx ad * 0.8.
Proof.
  intros Hvd. unfold generateGeometry. cbv zeta.
  replace (0 * PI / 180) with 0 by (unfold Rdiv; ring).
  match goal with
  | |- context [mapM ?f ?l] => destruct (mapM_some f l) as [normals [Hn _]]
  end.
  { intros i Hi. apply in_seq in Hi.
    destruct (vein_tangent_defined_at_0 (CANVAS_width / 2) (CANVAS_height * 0.65)
                (INR i / INR (numVeinPts - 1))) as [tg Htg].
    { apply index_fraction_unit; unfold numVeinPts in *; lia. }
    rewrite Htg. cbn [bind]. eexists. reflexivity. }
  rewrite Hn. cbn [bind].
  unfold generateSmoothConnection.
  match goal with
  | |- context [nth_error ?l ?k] => destruct (nth_error l k) as [veinPt|] eqn:Hnth
  end.
  2:{ apply nth_error_None in Hnth.
      rewrite !length_map, !indexed_length, !length_map, !length_seq in Hnth.
      unfold numVeinPts in Hnth. simpl in Hnth. lia. }
  clear Hnth. cbn [bind].
  unfold modifyArteryWallForAnastomosis, fdiv. rewrite sin_0.
  destruct (Req_dec_T 0 0) as [_ | E]; [|contradiction].
  assert (H : Rltb 0 (vd / 2 * CANVAS_vesselScale * 2) = true).
  { destruct (Rltb 0 (vd / 2 * CANVAS_vesselScale * 2)) eqn:E; [reflexivity|].
    apply Rltb_false in E. revert E. unfold CANVAS_vesselScale. intros E. lra. }
  rewrite H. cbn [bind].
  eexists. split; [reflexivity|].
  cbn [arteryUpperWall]. intros p Hp.
  apply in_map_iff in Hp. destruct Hp as [q [<- Hq]].
  apply in_map_iff in Hq. destruct Hq as [c [<- Hc]].
  apply in_map_iff in Hc. destruct Hc as [i [<- _]].
  cbn [px py]. unfold canvasCy, radiusPx. reflexivity.
Qed.

Lemma degToRad_90 : degToRad 90 = PI / 2.
Proof. unfold degToRad. lra. Qed.

(** C7. At 90 degrees, and at every angle of (0, 90] such as 89.9, the
    geometry is generated for all positive diameters: the division by the
    sine of the angle and the normalisation of every sampled tangent of the
    vein centreline have a non-zero divisor.  At 90 degrees the opening
    width is twice the vein radius. *)
Theorem C7_geometry_defined_up_to_right_angle :
  forall ad vd angle : R,
    0 < ad -> 0 < vd -> 0 < angle <= 90 ->
    (exists g, generateGeometry ad vd angle = Some g) /\
    (exists w, fdiv (radiusPx vd * 2) (sin (degToRad angle)) = Some w) /\
    (forall wall, exists carved,
        modifyArteryWallForAnastomosis wall canvasCx (radiusPx vd)
          (degToRad angle) (radiusPx ad) = Some carved) /\
    (forall i : nat, (i < numVeinPts)%nat ->
       exists tangent,
         cubicBezierTangent (INR i / INR (numVeinPts - 1))
           (veinP0 canvasCx canvasCy) (veinP1 canvasCx canvasCy (degToRad angle))
           (veinP2 canvasCx canvasCy) (veinP3 canvasCx canvasCy) = Some tangent) /\
    fdiv (radiusPx vd * 2) (sin (degToRad 90)) = Some (radiusPx vd * 2).
Proof.
  intros ad vd angle _ _ Hangle.
  assert (Hs : 0 < sin (degToRad angle)) by (apply sin_degrees_pos; lra).
  assert (Hw : exists w, fdiv (radiusPx vd * 2) (sin (degToRad angle)) = Some w).
  { unfold fdiv. destruct (Req_dec_T (sin (degToRad angle)) 0); [lra|].
    eexists. reflexivity. }
  split; [|split; [exact Hw|split; [|split]]].
  - destruct (generateGeometry_defined ad vd angle) as (g & _ & _ & _ & Hg & _); [lra|].
    exists g. exact Hg.
  - intros wall. unfold modifyArteryWallForAnastomosis.
    destruct Hw as [w ->]. cbn [bind]. eexists. reflexivity.
  - intros i Hi. apply vein_tangent_defined; [exact Hs|].
    apply index_fraction_unit; unfold numVeinPts in *; lia.
  - rewrite degToRad_90, sin_PI2. unfold fdiv.
    destruct (Req_dec_T 1 0); [lra|]. f_equal. field.
Qed.

Lemma C7_witness_90 :
  (exists g, generateGeometry 4 4 90 = Some g) /\
  (exists g, generateGeometry 4 4 89.9 = Some g).
Proof.
  split.
  - apply (C7_geometry_defined_up_to_right_angle 4 4 90); lra.
  - apply (C7_geometry_defined_up_to_right_angle 4 4 89.9); lra.
Defined.

End GeometryClaims.

(** ** The oscillatory shear index *)

Section OscillatoryShearIndex.
Import BloodProperties FlowSolver Geometry WssCalculator.

Lemma sumR_nonneg (l : list R) :
  (forall x, In x l -> 0 <= x) -> 0 <= sumR l.
Proof.
  induction l as [|x l IH]; intros H.
  - unfold sumR. simpl. lra.
  - change (sumR (x :: l)) with (x + sumR l).
    assert (0 <= x) by (apply H; left; reflexivity).
    assert (0 <= sumR l) by (apply IH; intros y Hy; apply H; right; exact Hy).
    lra.
Qed.

Lemma div_nonneg (a b : R) : 0 <= a -> 0 < b -> 0 <= a / b.
Proof.
  intros Ha Hb. unfold Rdiv. apply Rmult_le_pos; [exact Ha|].
  left. apply Rinv_0_lt_compat. exact Hb.
Qed.

(** In a recirculation zone the index is clamped on both sides. *)
Lemma calculateOSI_recirculating (ws : list R) (region : RegionType) (a : R) :
  isRecirculation region a = true ->
  exists o, calculateOSI ws region a = Some o /\ 0 <= o <= 0.5.
Proof.
  intros Hrec. unfold calculateOSI. rewrite Hrec. cbn [negb].
  eexists. split; [reflexivity|].
  split.
  - apply Rmin_glb; [apply Rmax_r | lra].
  - apply Rmin_r.
Qed.

(** Elsewhere the index is capped at 0.15 and, for a non-empty series of
    non-negative stresses, at least 0.05. *)
Lemma calculateOSI_unidirectional (ws : list R) (region : RegionType) (a : R) :
  isRecirculation region a = false ->
  (0 < length ws)%nat ->
  (forall x, In x ws -> 0 <= x) ->
  exists o, calculateOSI ws region a = Some o /\ 0.05 <= o <= 0.15.
Proof.
  intros Hrec Hlen Hpos. unfold calculateOSI. rewrite Hrec. cbn [negb].
  rewrite (reduce_sum_nonempty ws Hlen). cbn [bind].
  eexists. split; [reflexivity|].
  pose proof (sumR_nonneg ws Hpos) as Hsum.
  pose proof (INR_pos _ Hlen) as Hn.
  assert (Hmean : 0 <= sumR ws / INR (length ws)) by (apply div_nonneg; assumption).
  match goal with
  | |- _ <= Rmin (0.05 + ?cv * 0.1) 0.15 <= _ =>
      assert (Hcv : 0 <= cv) by (apply div_nonneg; [apply sqrt_pos | lra])
  end.
  split; [apply Rmin_glb; lra | apply Rmin_r].
Qed.

(** The region corrections are positive up to a right angle. *)
Lemma getRegionCorrectionFactor_pos (region : RegionType) (a ratio : R) :
  0 <= a <= PI / 2 -> 0 < getRegionCorrectionFactor region a ratio.
Proof.
  intros [Ha0 Ha1]. pose proof PI_RGT_0 as Hpi.
  assert (Hs : 0 <= sin a) by (apply sin_ge_0; lra).
  pose proof (SIN_bound (a / 2)) as [_ Hs2].
  assert (Hc : 0 <= cos (a / 2)) by (apply cos_ge_0; lra).
  destruct region; cbn [getRegionCorrectionFactor]; try lra.
  - apply div_pos; [lra | apply Rpower_pos].
  - pose proof (sqrt_pos ratio).
    assert (0 <= sin a * sqrt ratio) by (apply Rmult_le_pos; assumption). lra.
Qed.

Lemma wallShearRate_nonneg (q r : R) : 0 <= q -> 0 < r -> 0 <= wallShearRate q r.
Proof.
  intros Hq Hr. pose proof PI_RGT_0 as Hpi. unfold wallShearRate.
  apply Rmult_le_pos.
  - left. apply div_pos; cbv [Constants.CARREAU Constants.c_n]; lra.
  - apply div_nonneg; [lra|].
    apply Rmult_lt_0_compat; [exact Hpi | apply pow_lt; exact Hr].
Qed.

(** The base stress of a branch: viscosity times wall shear rate. *)
Lemma baseWSS_nonneg (q r h : R) :
  0 <= q -> 0 < r ->
  0 <= carreauViscosity (wallShearRate q r) h * wallShearRate q r.
Proof.
  intros Hq Hr. apply Rmult_le_pos.
  - left. apply carreauViscosity_pos.
  - apply wallShearRate_nonneg; assumption.
Qed.

End OscillatoryShearIndex.

(** ** The index at the wall points of a run *)

Section HemodynamicsRun.
Import BloodProperties FlowSolver Geometry WssCalculator.

Lemma sumR_lower (l : list R) (a : R) :
  (forall x, In x l -> a <= x) -> a * INR (length l) <= sumR l.
Proof.
  induction l as [|x l IH]; intros H.
  - unfold sumR. simpl. lra.
  - change (sumR (x :: l)) with (x + sumR l).
    change (length (x :: l)) with (S (length l)). rewrite S_INR.
    assert (a <= x) by (apply H; left; reflexivity).
    assert (a * INR (length l) <= sumR l)
      by (apply IH; intros y Hy; apply H; right; exact Hy).
    lra.
Qed.

(** The waveform of a positive step count has that many elements, all
    positive, whatever the heart rate and the systolic ratio. *)
Lemma generatePulsatileWaveform_positive (hr sr : R) (n : nat) :
  (0 < n)%nat ->
  exists w, generatePulsatileWaveform hr sr n = Some w /\
            length w = n /\ forall x, In x w -> 0 < x.
Proof.
  intros Hn. rewrite (generatePulsatileWaveform_some hr sr n Hn).
  set (fw := flooredWaveform hr sr n).
  assert (Hlen : length fw = n) by apply flooredWaveform_length.
  assert (Hfloor : forall q, In q fw -> 0.15 <= q).
  { intros q Hq. apply in_map_iff in Hq. destruct Hq as [i [<- _]].
    apply flooredSample_floor. }
  assert (Hm : 0.15 <= mean_of fw).
  { pose proof (sumR_lower fw 0.15 Hfloor) as Hs.
    assert (Hpos : 0 < INR (length fw)) by (apply INR_pos; lia).
    unfold mean_of. apply Rmult_le_reg_r with (INR (length fw)); [exact Hpos|].
    unfold Rdiv. rewrite Rmult_assoc, Rinv_l by lra. lra. }
  eexists. split; [reflexivity|]. split; [rewrite length_map; exact Hlen|].
  intros x Hx. apply in_map_iff in Hx. destruct Hx as [q [<- Hq]].
  apply div_pos; [pose proof (Hfloor q Hq); lra | lra].
Qed.

Lemma wallPointWSS_osi (waveform : list R) (bA bV a ratio : R) (wp : WallPoint) :
  (0 < length waveform)%nat ->
  (forall w, In w waveform -> 0 < w) ->
  0 <= bA -> 0 <= bV -> 0 <= a <= PI / 2 ->
  exists d,
    wallPointWSS waveform bA bV a ratio wp = Some (wp, d) /\
    0 <= osi d <= 0.5 /\
    (isRecirculation (regionType wp) a = false -> osi d <= 0.15).
Proof.
  intros Hlen Hw HbA HbV Ha. unfold wallPointWSS. cbv zeta.
  set (base := if startsWithVein (regionType wp) then bV else bA).
  set (corr := getRegionCorrectionFactor (regionType wp) a ratio).
  set (spatial := 1 + 0.1 * sin (paramPosition wp * PI * 4)).
  set (ws := map (fun w => base * corr * spatial * w) waveform).
  assert (Hbase : 0 <= base) by (unfold base; destruct (startsWithVein _); assumption).
  assert (Hcorr : 0 < corr) by (apply getRegionCorrectionFactor_pos; exact Ha).
  assert (Hsp : 0 < spatial)
    by (unfold spatial; pose proof (SIN_bound (paramPosition wp * PI * 4)); lra).
  assert (Hws : forall x, In x ws -> 0 <= x).
  { intros x Hx. apply in_map_iff in Hx. destruct Hx as [w [<- Hin]].
    pose proof (Hw w Hin).
    repeat apply Rmult_le_pos; lra. }
  assert (Hwslen : (0 < length ws)%nat) by (unfold ws; rewrite length_map; exact Hlen).
  destruct (isRecirculation (regionType wp) a) eqn:Hrec.
  - destruct (calculateOSI_recirculating ws _ a Hrec) as [o [Ho Hb]].
    rewrite Ho. cbn [bind]. eexists. split; [reflexivity|]. cbn [osi].
    split; [exact Hb | discriminate].
  - destruct (calculateOSI_unidirectional ws _ a Hrec Hwslen Hws) as [o [Ho Hb]].
    rewrite Ho. cbn [bind]. eexists. split; [reflexivity|]. cbn [osi].
    split; [lra | intros _; lra].
Qed.

(** The test of [calculateOSI] read on the angle in degrees. *)
Lemma isRecirculation_false (region : RegionType) (angle : R) :
  region <> anastomosis_floor ->
  ~ (region = vein_inner /\ 30 < angle) ->
  isRecirculation region (angle * PI / 180) = false.
Proof.
  intros Hfloor Hinner. pose proof PI_RGT_0 as Hpi.
  unfold isRecirculation.
  destruct region; cbn [RegionType_eqb orb andb]; try reflexivity.
  - unfold Rgtb. apply Rltb_false.
    assert (angle <= 30).
    { destruct (Rle_dec angle 30); [assumption|]. exfalso. apply Hinner. split; [reflexivity | lra]. }
    nra.
  - contradiction Hfloor. reflexivity.
Qed.

End HemodynamicsRun.

(** ** The run of the orchestrator *)

Section HemodynamicsClaims.
Import BloodProperties FlowSolver Geometry WssCalculator.

Lemma generateGeometry_count (ad vd angle : R) :
  0 < angle < 180 ->
  exists g, generateGeometry ad vd angle = Some g /\
            length (wallPoints g) = wallPointCount ad vd angle.
Proof.
  intros Hangle.
  destruct (generateGeometry_defined ad vd angle Hangle) as
    (g & up & toe & normals & Hg & Hup & Hwp & Lup & Llo & Lvo & Lvi & Ltoe & Hkept).
  exists g. split; [exact Hg|].
  rewrite Hwp, generateWallPoints_length, Hkept, Llo, Lvo, Lvi, Ltoe.
  unfold wallPointCount. lia.
Qed.

Lemma veinFlowRate_nonneg (params : SimulationParams) :
  0 < arteryDiameter params -> 0 < veinDiameter params ->
  0 <= bloodFlowRate params ->
  0 <= veinFlowRate (calculateFlowSplit params).
Proof.
  intros Ha Hv Hq. pose proof (veinFraction_in_unit params Ha Hv) as [Hf _].
  change (veinFlowRate (calculateFlowSplit params))
    with (bloodFlowRate params * veinFraction (calculateFlowSplit params)).
  apply Rmult_le_pos; lra.
Qed.

(** C4. For positive diameters, an angle in (0, 90], a non-negative flow
    rate and a positive heart rate, the run returns stress data for every
    wall point of the geometry; every OSI lies in [0, 0.5], and it is at most
    0.15 at every wall point whose region is neither the anastomosis floor
    nor the inner vein wall at an angle above 30 degrees. *)
Theorem C4_osi_in_range_and_capped_outside_recirculation :
  forall params : SimulationParams,
    0 < arteryDiameter params ->
    0 < veinDiameter params ->
    0 < anastomosisAngle params <= 90 ->
    0 <= bloodFlowRate params ->
    0 < heartRate params ->
    exists res,
      calculateHemodynamics params = Some res /\
      length (wallWSS res)
      = wallPointCount (arteryDiameter params) (veinDiameter params)
                       (anastomosisAngle params) /\
      forall (wp : WallPoint) (d : WSSData),
        In (wp, d) (wallWSS res) ->
        0 <= osi d <= 0.5 /\
        (regionType wp <> anastomosis_floor ->
         ~ (regionType wp = vein_inner /\ 30 < anastomosisAngle params) ->
         osi d <= 0.15).
Proof.
  intros params Ha Hv Hangle Hq _.
  pose proof PI_RGT_0 as Hpi.
  destruct (generateGeometry_count (arteryDiameter params) (veinDiameter params)
              (anastomosisAngle params)) as [g [Hg Hcount]]; [lra|].
  destruct (generatePulsatileWaveform_positive (heartRate params)
              (systolicRatio params) 20) as [w [Hw [Hwlen Hwpos]]]; [lia|].
  unfold calculateHemodynamics. rewrite Hg. cbn [bind]. rewrite Hw. cbn [bind].
  cbv zeta.
  set (a := anastomosisAngle params * PI / 180).
  set (ratio := veinDiameter params / arteryDiameter params).
  set (bA := carreauViscosity _ _ * wallShearRate (bloodFlowRate params / _) _).
  set (bV := carreauViscosity _ _ * wallShearRate (veinFlowRate _ / _) _).
  assert (HbA : 0 <= bA).
  { unfold bA. apply baseWSS_nonneg; [apply div_nonneg; lra | lra]. }
  assert (HbV : 0 <= bV).
  { unfold bV. apply baseWSS_nonneg; [|lra].
    apply div_nonneg; [apply veinFlowRate_nonneg; assumption | lra]. }
  assert (Hrad : 0 <= a <= PI / 2) by (unfold a; split; nra).
  assert (Hwl : (0 < length w)%nat) by lia.
  destruct (mapM_some (wallPointWSS w bA bV a ratio) (wallPoints g)) as [bs [Hbs Hlen]].
  { intros wp _.
    destruct (wallPointWSS_osi w bA bV a ratio wp Hwl Hwpos HbA HbV Hrad) as [d [Hd _]].
    eexists. exact Hd. }
  rewrite Hbs. cbn [bind]. eexists. split; [reflexivity|]. cbn [wallWSS].
  split; [rewrite Hlen; exact Hcount|].
  intros wp d Hin.
  destruct (mapM_in _ _ _ _ Hbs Hin) as [wp0 [_ Hwp0]].
  destruct (wallPointWSS_osi w bA bV a ratio wp0 Hwl Hwpos HbA HbV Hrad)
    as [d0 [Hd0 [Hrange Hcap]]].
  rewrite Hd0 in Hwp0. injection Hwp0 as -> ->.
  split; [exact Hrange|].
  intros Hfloor Hinner. apply Hcap.
  apply isRecirculation_false; assumption.
Qed.

Lemma C4_witness :
  exists res,
    calculateHemodynamics DEFAULT_PARAMS = Some res /\
    length (wallWSS res) = wallPointCount 4.0 4.0 45 /\
    forall (wp : WallPoint) (d : WSSData),
      In (wp, d) (wallWSS res) ->
      0 <= osi d <= 0.5 /\
      (regionType wp <> anastomosis_floor ->
       ~ (regionType wp = vein_inner /\ 30 < 45) ->
       osi d <= 0.15).
Proof.
  apply (C4_osi_in_range_and_capped_outside_recirculation DEFAULT_PARAMS);
    cbv [DEFAULT_PARAMS arteryDiameter veinDiameter anastomosisAngle
         bloodFlowRate heartRate]; lra.
Defined.

End HemodynamicsClaims.

(** * Further properties *)

(** ** The maturation score *)

Section MaturationScore.
Import Aggregation Prediction.

Ltac unfold_scores :=
  cbv [scoreVeinDiameter scoreArteryDiameter scoreFlowRate scoreTAWSS scoreOSI
       scoreAnastomosisAngle scoreHematocrit Rgeb Rgtb].

Lemma scoreVeinDiameter_range (d : R) : 0 <= scoreVeinDiameter d <= 20.
Proof. unfold_scores. split_cmp; lra. Qed.

Lemma scoreArteryDiameter_range (d : R) : 5 <= scoreArteryDiameter d <= 15.
Proof. unfold_scores. split_cmp; lra. Qed.

Lemma scoreFlowRate_range (q : R) : 5 <= scoreFlowRate q <= 20.
Proof. unfold_scores. split_cmp; lra. Qed.

Lemma scoreTAWSS_range (t : R) : 5 <= scoreTAWSS t <= 15.
Proof. unfold_scores. split_cmp; lra. Qed.

Lemma scoreOSI_range (o : R) : 0 <= scoreOSI o <= 10.
Proof. unfold_scores. split_cmp; lra. Qed.

Lemma scoreAnastomosisAngle_range (a : R) : 3 <= scoreAnastomosisAngle a <= 10.
Proof. unfold_scores. split_cmp; lra. Qed.

Lemma scoreHematocrit_range (h : R) : 3 <= scoreHematocrit h <= 10.
Proof. unfold_scores. split_cmp; lra. Qed.

(** The total is the sum of the seven factors. *)
Lemma predictMaturation_score_sum (params : SimulationParams) (metrics : HemodynamicMetrics) :
  score (predictMaturation params metrics)
  = scoreVeinDiameter (veinDiameter params)
    + scoreArteryDiameter (arteryDiameter params)
    + scoreFlowRate (totalFlowRate metrics)
    + scoreTAWSS (m_tawss metrics)
    + scoreOSI (m_osi metrics)
    + scoreAnastomosisAngle (anastomosisAngle params)
    + scoreHematocrit (hematocrit params).
Proof.
  cbv [predictMaturation score reduce_seed factorValues fold_left
       f_veinDiameter f_arteryDiameter f_flowRate f_tawss f_osi
       f_anastomosisAngle f_hematocrit].
  ring.
Qed.

(** The bounds of the total score. *)
Lemma score_bounds (params : SimulationParams) (metrics : HemodynamicMetrics) :
  21 <= score (predictMaturation params metrics) <= 100.
Proof.
  rewrite predictMaturation_score_sum.
  pose proof (scoreVeinDiameter_range (veinDiameter params)).
  pose proof (scoreArteryDiameter_range (arteryDiameter params)).
  pose proof (scoreFlowRate_range (totalFlowRate metrics)).
  pose proof (scoreTAWSS_range (m_tawss metrics)).
  pose proof (scoreOSI_range (m_osi metrics)).
  pose proof (scoreAnastomosisAngle_range (anastomosisAngle params)).
  pose proof (scoreHematocrit_range (hematocrit params)).
  lra.
Qed.

(** X1. Whatever the parameters and the metrics, the total score is the
    sum of the seven factors and lies between 21 and 100. *)
Theorem X1_score_between_21_and_100 :
  forall (params : SimulationParams) (metrics : HemodynamicMetrics),
    21 <= score (predictMaturation params metrics) <= 100.
Proof. intros params metrics. apply score_bounds. Qed.

(** X2. A larger diameter or flow rate never lowers its factor, and a
    larger OSI never raises its factor. *)
Theorem X2_step_scores_monotone :
  forall x y : R,
    x <= y ->
    scoreVeinDiameter x <= scoreVeinDiameter y /\
    scoreArteryDiameter x <= scoreArteryDiameter y /\
    scoreFlowRate x <= scoreFlowRate y /\
    scoreOSI y <= scoreOSI x.
Proof.
  intros x y Hxy. unfold_scores. repeat split; split_cmp; lra.
Qed.

Lemma X2_witness :
  scoreVeinDiameter 1.8 <= scoreVeinDiameter 2.6 /\
  scoreArteryDiameter 1.8 <= scoreArteryDiameter 2.6 /\
  scoreFlowRate 1.8 <= scoreFlowRate 2.6 /\
  scoreOSI 2.6 <= scoreOSI 1.8.
Proof. apply (X2_step_scores_monotone 1.8 2.6). lra. Defined.

End MaturationScore.

(** ** The logistic probability *)

Section Logistic.
Import Aggregation Prediction.

Lemma logisticFunction_unit (s : R) : 0 < logisticFunction s < 1.
Proof.
  cbv [logisticFunction].
  pose proof (exp_pos (Ropp 0.1 * (s - 50))) as He.
  split.
  - apply div_pos; lra.
  - apply Rmult_lt_reg_r with (1 + exp (Ropp 0.1 * (s - 50))); [lra|].
    unfold Rdiv. rewrite Rmult_assoc, Rinv_l by lra. lra.
Qed.

Lemma logisticFunction_increasing (s1 s2 : R) :
  s1 < s2 -> logisticFunction s1 < logisticFunction s2.
Proof.
  intros H. cbv [logisticFunction].
  pose proof (exp_pos (Ropp 0.1 * (s1 - 50))) as H1.
  pose proof (exp_pos (Ropp 0.1 * (s2 - 50))) as H2.
  assert (He : exp (Ropp 0.1 * (s2 - 50)) < exp (Ropp 0.1 * (s1 - 50)))
    by (apply exp_increasing; lra).
  unfold Rdiv. rewrite !Rmult_1_l.
  apply Rinv_lt_contravar; [apply Rmult_lt_0_compat; lra | lra].
Qed.

Lemma logisticFunction_midpoint : logisticFunction 50 = 1 / 2.
Proof.
  cbv [logisticFunction].
  replace (Ropp 0.1 * (50 - 50)) with 0 by lra. rewrite exp_0. lra.
Qed.

Lemma exp_3_le_27 : exp 3 <= 27.
Proof.
  pose proof exp_le_3 as H. pose proof (exp_pos 1) as Hp.
  replace 3 with (1 + (1 + 1)) at 1 by lra. rewrite !exp_plus. nra.
Qed.

Lemma exp_5_le_243 : exp 5 <= 243.
Proof.
  pose proof exp_le_3 as H. pose proof (exp_pos 1) as Hp.
  pose proof exp_3_le_27 as H3. pose proof (exp_pos 3) as Hp3.
  replace 5 with (3 + (1 + 1)) at 1 by lra. rewrite !exp_plus. nra.
Qed.

(** X3. The probability is the logistic function of the score: strictly
    between 0 and 1, above one half exactly when the score is above 50, and,
    the score being confined to [21, 100], never below 1/28 nor above
    243/244. *)
Theorem X3_probability_range :
  forall (params : SimulationParams) (metrics : HemodynamicMetrics),
    let p := predictMaturation params metrics in
    probability p = logisticFunction (score p) /\
    (1 / 2 < probability p <-> 50 < score p) /\
    1 / 28 <= probability p <= 243 / 244.
Proof.
  intros params metrics p.
  pose proof (score_bounds params metrics) as Hs. fold p in Hs.
  assert (Hp : probability p = logisticFunction (score p)) by reflexivity.
  split; [exact Hp|]. rewrite Hp. split.
  - rewrite <- logisticFunction_midpoint. split; intros H.
    + destruct (Rlt_le_dec 50 (score p)) as [Hlt | Hle]; [exact Hlt|].
      destruct Hle as [Hlt | Heq].
      * pose proof (logisticFunction_increasing _ _ Hlt). lra.
      * rewrite Heq in H. lra.
    + apply logisticFunction_increasing. exact H.
  - split.
    + assert (H21 : 1 / 28 <= logisticFunction 21).
      { cbv [logisticFunction].
        replace (Ropp 0.1 * (21 - 50)) with 2.9 by lra.
        assert (exp 2.9 <= exp 3) by (left; apply exp_increasing; lra).
        pose proof exp_3_le_27. pose proof (exp_pos 2.9).
        apply div_le_div_l; lra. }
      destruct Hs as [[Hlt | Heq] _].
      * pose proof (logisticFunction_increasing _ _ Hlt). lra.
      * rewrite <- Heq. exact H21.
    + assert (H100 : logisticFunction 100 <= 243 / 244).
      { cbv [logisticFunction].
        replace (Ropp 0.1 * (100 - 50)) with (Ropp 5) by lra.
        rewrite exp_Ropp. pose proof exp_5_le_243. pose proof (exp_pos 5).
        assert (Hinv : / 243 <= / exp 5) by (apply Rinv_le_contravar; lra).
        replace (243 / 244) with (1 / (1 + / 243)) by (field; lra).
        apply div_le_div_l; lra. }
      destruct Hs as [_ [Hlt | Heq]].
      * pose proof (logisticFunction_increasing _ _ Hlt). lra.
      * rewrite Heq. exact H100.
Qed.

End Logistic.

(** ** The risk factors *)

Section RiskFactors.
Import Aggregation Prediction.

Lemma subseq_NoDup {A : Type} (l1 l2 : list A) :
  subseq l1 l2 -> NoDup l2 -> NoDup l1.
Proof.
  intros Hs. induction Hs as [|a l1 l2 Hs IH|a l1 l2 Hs IH]; intros Hnd.
  - constructor.
  - inversion Hnd; subst. apply IH. assumption.
  - inversion Hnd as [|x l Hnot Hnd']; subst. constructor; [|apply IH; assumption].
    intros Hin. apply Hnot. clear -Hs Hin.
    induction Hs as [|b l1 l2 Hs IH|b l1 l2 Hs IH].
    + destruct Hin.
    + right. apply IH. exact Hin.
    + destruct Hin as [-> | Hin]; [left; reflexivity | right; apply IH; exact Hin].
Qed.

Lemma pushIf_subseq (c : bool) (r : String.string) (l1 l2 : list String.string) :
  subseq l1 l2 -> subseq (pushIf c r l1) (r :: l2).
Proof.
  intros H. unfold pushIf. destruct c; [apply subseq_keep | apply subseq_skip]; exact H.
Qed.

Lemma identifyRiskFactors_subseq (params : SimulationParams) (metrics : HemodynamicMetrics) :
  subseq (identifyRiskFactors params metrics) allRiskMessages.
Proof.
  unfold identifyRiskFactors, allRiskMessages.
  repeat apply pushIf_subseq. apply subseq_nil.
Qed.

Lemma allRiskMessages_NoDup : NoDup allRiskMessages.
Proof.
  unfold allRiskMessages.
  cbv [msg_small_vein msg_small_artery msg_low_flow msg_low_wss msg_high_wss
       msg_high_osi msg_high_rrt msg_angle msg_anemia msg_polycythemia].
  repeat (constructor; [cbv [In]; intuition discriminate|]). constructor.
Qed.

Lemma pushIf_length_eq (c : bool) (r : String.string) (l : list String.string) :
  length (pushIf c r l) = ((if c then 1 else 0) + length l)%nat.
Proof. unfold pushIf. destruct c; reflexivity. Qed.

Lemma pushIf_in (c : bool) (r x : String.string) (l : list String.string) :
  In x (pushIf c r l) <-> (c = true /\ x = r) \/ In x l.
Proof.
  unfold pushIf. destruct c; simpl; split; intros H.
  - destruct H as [<- | H]; [left; split; reflexivity | right; exact H].
  - destruct H as [[_ ->] | H]; [left; reflexivity | right; exact H].
  - right. exact H.
  - destruct H as [[H _] | H]; [discriminate | exact H].
Qed.

(** X4. The list of risk factors has no repetition and at most eight of
    the ten messages: low and high wall shear stress exclude each other, and
    so do anemia and polycythemia. *)
Theorem X4_risk_factors_distinct_at_most_eight :
  forall (params : SimulationParams) (metrics : HemodynamicMetrics),
    let risks := identifyRiskFactors params metrics in
    NoDup risks /\
    (length risks <= 8)%nat /\
    ~ (In msg_low_wss risks /\ In msg_high_wss risks) /\
    ~ (In msg_anemia risks /\ In msg_polycythemia risks).
Proof.
  intros params metrics risks.
  assert (Hnd : NoDup risks).
  { apply (subseq_NoDup _ _ (identifyRiskFactors_subseq params metrics)).
    apply allRiskMessages_NoDup. }
  split; [exact Hnd|].
  (* membership of a message means that its test held *)
  assert (Hmem : forall x, In x risks ->
            (Rltb (veinDiameter params) 2.0 = true /\ x = msg_small_vein) \/
            (Rltb (arteryDiameter params) 1.5 = true /\ x = msg_small_artery) \/
            (Rltb (totalFlowRate metrics) 400 = true /\ x = msg_low_flow) \/
            (Rltb (m_tawss metrics) 0.5 = true /\ x = msg_low_wss) \/
            (Rgtb (m_tawss metrics) 7.0 = true /\ x = msg_high_wss) \/
            (Rgtb (m_osi metrics) 0.25 = true /\ x = msg_high_osi) \/
            (Rgtb (m_rrt metrics) 10 = true /\ x = msg_high_rrt) \/
            ((Rltb (anastomosisAngle params) 30 || Rgtb (anastomosisAngle params) 70)
             = true /\ x = msg_angle) \/
            (Rltb (hematocrit params) 0.30 = true /\ x = msg_anemia) \/
            (Rgtb (hematocrit params) 0.50 = true /\ x = msg_polycythemia)).
  { intros x Hx. unfold risks, identifyRiskFactors in Hx.
    repeat (apply pushIf_in in Hx; destruct Hx as [Hx | Hx]; [tauto|]).
    destruct Hx. }
  split; [|split].
  - unfold risks, identifyRiskFactors.
    destruct (Rltb (m_tawss metrics) 0.5) eqn:Elow;
    destruct (Rgtb (m_tawss metrics) 7.0) eqn:Ehigh;
    destruct (Rltb (hematocrit params) 0.30) eqn:Ean;
    destruct (Rgtb (hematocrit params) 0.50) eqn:Epo;
    try (apply Rltb_true in Elow; unfold Rgtb in Ehigh; apply Rltb_true in Ehigh; lra);
    try (apply Rltb_true in Ean; unfold Rgtb in Epo; apply Rltb_true in Epo; lra);
    rewrite !pushIf_length_eq; cbn [length];
    repeat match goal with
           | |- context [if ?c then 1%nat else 0%nat] => destruct c
           end;
    lia.
  - intros [Ha Hb]. apply Hmem in Ha. apply Hmem in Hb.
    assert (Elow : Rltb (m_tawss metrics) 0.5 = true).
    { cbv [msg_small_vein msg_small_artery msg_low_flow msg_low_wss msg_high_wss
           msg_high_osi msg_high_rrt msg_angle msg_anemia msg_polycythemia] in Ha.
      intuition (try discriminate). }
    assert (Ehigh : Rgtb (m_tawss metrics) 7.0 = true).
    { cbv [msg_small_vein msg_small_artery msg_low_flow msg_low_wss msg_high_wss
           msg_high_osi msg_high_rrt msg_angle msg_anemia msg_polycythemia] in Hb.
      intuition (try discriminate). }
    apply Rltb_true in Elow. unfold Rgtb in Ehigh. apply Rltb_true in Ehigh. lra.
  - intros [Ha Hb]. apply Hmem in Ha. apply Hmem in Hb.
    assert (Ean : Rltb (hematocrit params) 0.30 = true).
    { cbv [msg_small_vein msg_small_artery msg_low_flow msg_low_wss msg_high_wss
           msg_high_osi msg_high_rrt msg_angle msg_anemia msg_polycythemia] in Ha.
      intuition (try discriminate). }
    assert (Epo : Rgtb (hematocrit params) 0.50 = true).
    { cbv [msg_small_vein msg_small_artery msg_low_flow msg_low_wss msg_high_wss
           msg_high_osi msg_high_rrt msg_angle msg_anemia msg_polycythemia] in Hb.
      intuition (try discriminate). }
    apply Rltb_true in Ean. unfold Rgtb in Epo. apply Rltb_true in Epo. lra.
Qed.

End RiskFactors.

(** ** Risk factors against the score *)

Section RisksAndScore.
Import Aggregation Prediction.

Ltac unfold_scores :=
  cbv [scoreVeinDiameter scoreArteryDiameter scoreFlowRate scoreTAWSS scoreOSI
       scoreAnastomosisAngle scoreHematocrit Rgeb Rgtb].

Lemma pushIf_nil (c : bool) (r : String.string) (l : list String.string) :
  pushIf c r l = [] -> c = false /\ l = [].
Proof. unfold pushIf. destruct c; [discriminate | intros ->; split; reflexivity]. Qed.

(** An empty list means that none of the ten tests held. *)
Lemma identifyRiskFactors_nil (params : SimulationParams) (metrics : HemodynamicMetrics) :
  identifyRiskFactors params metrics = [] ->
  2.0 <= veinDiameter params /\ 1.5 <= arteryDiameter params /\
  400 <= totalFlowRate metrics /\ 0.5 <= m_tawss metrics <= 7.0 /\
  m_osi metrics <= 0.25 /\ m_rrt metrics <= 10 /\
  30 <= anastomosisAngle params <= 70 /\ 0.30 <= hematocrit params <= 0.50.
Proof.
  unfold identifyRiskFactors. intros H.
  repeat match type of H with
         | pushIf _ _ _ = [] =>
             let Hc := fresh "Hc" in apply pushIf_nil in H; destruct H as [Hc H]
         end.
  apply orb_false_iff in Hc6. destruct Hc6 as [Hc6 Hc6'].
  unfold Rgtb in *.
  repeat match goal with
         | E : Rltb _ _ = false |- _ => apply Rltb_false in E
         end.
  repeat split; lra.
Qed.

Lemma exp_14_ge_33 : 3.3 <= exp 1.4.
Proof.
  pose proof (exp_ineq1_le 0.35) as H. pose proof (exp_pos 0.35) as Hp.
  replace 1.4 with (0.35 + 0.35 + (0.35 + 0.35)) by lra. rewrite !exp_plus.
  assert (H2 : 1.8225 <= exp 0.35 * exp 0.35) by nra.
  nra.
Qed.

(** X5. When no risk factor is reported the score is at least 64 and the
    probability exceeds 0.75. *)
Theorem X5_no_risk_factor_means_score_at_least_64 :
  forall (params : SimulationParams) (metrics : HemodynamicMetrics),
    riskFactors (predictMaturation params metrics) = [] ->
    64 <= score (predictMaturation params metrics) /\
    0.75 < probability (predictMaturation params metrics).
Proof.
  intros params metrics Hnil.
  change (riskFactors (predictMaturation params metrics))
    with (identifyRiskFactors params metrics) in Hnil.
  apply identifyRiskFactors_nil in Hnil.
  destruct Hnil as (Hv & Ha & Hq & Ht & Ho & _ & Hang & Hh).
  assert (Hs : 64 <= score (predictMaturation params metrics)).
  { rewrite predictMaturation_score_sum.
    assert (15 <= scoreVeinDiameter (veinDiameter params))
      by (unfold_scores; split_cmp; lra).
    assert (10 <= scoreArteryDiameter (arteryDiameter params))
      by (unfold_scores; split_cmp; lra).
    assert (15 <= scoreFlowRate (totalFlowRate metrics))
      by (unfold_scores; split_cmp; lra).
    assert (10 <= scoreTAWSS (m_tawss metrics))
      by (unfold_scores; split_cmp; lra).
    pose proof (scoreOSI_range (m_osi metrics)).
    assert (7 <= scoreAnastomosisAngle (anastomosisAngle params))
      by (unfold_scores; split_cmp; lra).
    assert (7 <= scoreHematocrit (hematocrit params))
      by (unfold_scores; split_cmp; lra).
    lra. }
  split; [exact Hs|].
  change (probability (predictMaturation params metrics))
    with (logisticFunction (score (predictMaturation params metrics))).
  assert (H64 : 0.75 < logisticFunction 64).
  { cbv [logisticFunction].
    replace (Ropp 0.1 * (64 - 50)) with (Ropp 1.4) by lra.
    rewrite exp_Ropp. pose proof exp_14_ge_33. pose proof (exp_pos 1.4).
    assert (Hinv : / exp 1.4 <= / 3.3) by (apply Rinv_le_contravar; lra).
    assert (Hpos : 0 < / exp 1.4) by (apply Rinv_0_lt_compat; lra).
    apply Rlt_le_trans with (1 / (1 + / 3.3)); [lra|].
    apply div_le_div_l; lra. }
  destruct Hs as [Hlt | Heq].
  - pose proof (logisticFunction_increasing _ _ Hlt). lra.
  - rewrite <- Heq. exact H64.
Qed.

Lemma X5_witness :
  64 <= score (predictMaturation DEFAULT_PARAMS
                 (mkMetrics 2 2 2 0.1 0.1 1 1 100 40 0 0.003 2 0.1 1 600)) /\
  0.75 < probability (predictMaturation DEFAULT_PARAMS
                 (mkMetrics 2 2 2 0.1 0.1 1 1 100 40 0 0.003 2 0.1 1 600)).
Proof.
  apply (X5_no_risk_factor_means_score_at_least_64 DEFAULT_PARAMS).
  cbv [predictMaturation riskFactors identifyRiskFactors DEFAULT_PARAMS
       veinDiameter arteryDiameter anastomosisAngle hematocrit
       totalFlowRate m_tawss m_osi m_rrt Rgtb].
  split_cmp. reflexivity.
Defined.

End RisksAndScore.

(** ** A perfect score *)

Section PerfectScore.
Import Aggregation Prediction.

Ltac unfold_scores :=
  cbv [scoreVeinDiameter scoreArteryDiameter scoreFlowRate scoreTAWSS scoreOSI
       scoreAnastomosisAngle scoreHematocrit Rgeb Rgtb].

(** A message is in the list only if its test held. *)
Lemma identifyRiskFactors_in (params : SimulationParams) (metrics : HemodynamicMetrics)
    (x : String.string) :
  In x (identifyRiskFactors params metrics) ->
  (veinDiameter params < 2.0 /\ x = msg_small_vein) \/
  (arteryDiameter params < 1.5 /\ x = msg_small_artery) \/
  (totalFlowRate metrics < 400 /\ x = msg_low_flow) \/
  (m_tawss metrics < 0.5 /\ x = msg_low_wss) \/
  (7.0 < m_tawss metrics /\ x = msg_high_wss) \/
  (0.25 < m_osi metrics /\ x = msg_high_osi) \/
  (10 < m_rrt metrics /\ x = msg_high_rrt) \/
  ((anastomosisAngle params < 30 \/ 70 < anastomosisAngle params) /\ x = msg_angle) \/
  (hematocrit params < 0.30 /\ x = msg_anemia) \/
  (0.50 < hematocrit params /\ x = msg_polycythemia).
Proof.
  intros Hx. unfold identifyRiskFactors in Hx. unfold Rgtb in Hx.
  repeat (apply pushIf_in in Hx; destruct Hx as [[Hc ->] | Hx];
          [try apply orb_true_iff in Hc;
           repeat match goal with
                  | E : Rltb _ _ = true |- _ => apply Rltb_true in E
                  | E : _ \/ _ |- _ => destruct E
                  end; tauto|]).
  destruct Hx.
Qed.

(** X6. With the perfect score of 100 the only risk factor that can still
    be reported is the one on the relative residence time, which no factor
    of the score reads. *)
Theorem X6_perfect_score_leaves_only_high_rrt :
  forall (params : SimulationParams) (metrics : HemodynamicMetrics),
    score (predictMaturation params metrics) = 100 ->
    forall x, In x (riskFactors (predictMaturation params metrics)) -> x = msg_high_rrt.
Proof.
  intros params metrics Hs x Hx.
  rewrite predictMaturation_score_sum in Hs.
  pose proof (scoreVeinDiameter_range (veinDiameter params)) as B1.
  pose proof (scoreArteryDiameter_range (arteryDiameter params)) as B2.
  pose proof (scoreFlowRate_range (totalFlowRate metrics)) as B3.
  pose proof (scoreTAWSS_range (m_tawss metrics)) as B4.
  pose proof (scoreOSI_range (m_osi metrics)) as B5.
  pose proof (scoreAnastomosisAngle_range (anastomosisAngle params)) as B6.
  pose proof (scoreHematocrit_range (hematocrit params)) as B7.
  assert (E1 : scoreVeinDiameter (veinDiameter params) = 20) by lra.
  assert (E2 : scoreArteryDiameter (arteryDiameter params) = 15) by lra.
  assert (E3 : scoreFlowRate (totalFlowRate metrics) = 20) by lra.
  assert (E4 : scoreTAWSS (m_tawss metrics) = 15) by lra.
  assert (E5 : scoreOSI (m_osi metrics) = 10) by lra.
  assert (E6 : scoreAnastomosisAngle (anastomosisAngle params) = 10) by lra.
  assert (E7 : scoreHematocrit (hematocrit params) = 10) by lra.
  clear Hs B1 B2 B3 B4 B5 B6 B7.
  assert (C1 : 2.5 <= veinDiameter params)
    by (revert E1; unfold_scores; split_cmp; intros; lra).
  assert (C2 : 2.0 <= arteryDiameter params)
    by (revert E2; unfold_scores; split_cmp; intros; lra).
  assert (C3 : 500 <= totalFlowRate metrics)
    by (revert E3; unfold_scores; split_cmp; intros; lra).
  assert (C4 : 1.0 < m_tawss metrics < 7.0)
    by (revert E4; unfold_scores; split_cmp; intros; lra).
  assert (C5 : m_osi metrics < 0.15)
    by (revert E5; unfold_scores; split_cmp; intros; lra).
  assert (C6 : 30 <= anastomosisAngle params <= 60)
    by (revert E6; unfold_scores; split_cmp; intros; lra).
  assert (C7 : 0.35 <= hematocrit params <= 0.45)
    by (revert E7; unfold_scores; split_cmp; intros; lra).
  change (riskFactors (predictMaturation params metrics))
    with (identifyRiskFactors params metrics) in Hx.
  apply identifyRiskFactors_in in Hx.
  repeat (destruct Hx as [[Hc Hx] | Hx]; [try (exfalso; lra); try exact Hx|]);
    try (exfalso; destruct Hx as [[Hc | Hc] _]; lra);
    try (exfalso; destruct Hx as [Hc _]; lra).
Qed.

Lemma X6_witness :
  score (predictMaturation DEFAULT_PARAMS
           (mkMetrics 2 2 2 0.1 0.1 1 1 100 40 0 0.003 2 0.1 1 600)) = 100 /\
  (forall x,
     In x (riskFactors (predictMaturation DEFAULT_PARAMS
             (mkMetrics 2 2 2 0.1 0.1 1 1 100 40 0 0.003 2 0.1 1 600))) ->
     x = msg_high_rrt).
Proof.
  assert (Hs : score (predictMaturation DEFAULT_PARAMS
                 (mkMetrics 2 2 2 0.1 0.1 1 1 100 40 0 0.003 2 0.1 1 600)) = 100).
  { rewrite predictMaturation_score_sum.
    cbv [DEFAULT_PARAMS veinDiameter arteryDiameter anastomosisAngle hematocrit
         totalFlowRate m_tawss m_osi m_rrt].
    unfold_scores; split_cmp; try lra. }
  split; [exact Hs|].
  exact (X6_perfect_score_leaves_only_high_rrt DEFAULT_PARAMS _ Hs).
Defined.

End PerfectScore.

(** ** The twelve-week timeline *)

Section Timeline.
Import Aggregation Prediction.

(** The progress [1 - exp (-0.3 week)] starts at 0, grows with the week and
    stays below 1. *)
Lemma progress_range (w : nat) : 0 <= 1 - exp (- 0.3 * INR w) < 1.
Proof.
  pose proof (pos_INR w) as Hw. pose proof (exp_pos (- 0.3 * INR w)) as Hp.
  split; [|lra].
  destruct Hw as [Hlt | Heq].
  - assert (exp (- 0.3 * INR w) < exp 0) by (apply exp_increasing; lra).
    rewrite exp_0 in *. lra.
  - rewrite <- Heq. replace (- 0.3 * 0) with 0 by lra. rewrite exp_0. lra.
Qed.

Lemma progress_increasing (w1 w2 : nat) :
  (w1 < w2)%nat -> 1 - exp (- 0.3 * INR w1) < 1 - exp (- 0.3 * INR w2).
Proof.
  intros H. apply lt_INR in H.
  assert (exp (- 0.3 * INR w2) < exp (- 0.3 * INR w1)) by (apply exp_increasing; lra).
  lra.
Qed.

Lemma timeline_probability_monotone (b : R) (w1 w2 : nat) :
  b <= 1 -> (w1 <= w2)%nat ->
  t_probability (timelineEntry b w1) <= t_probability (timelineEntry b w2).
Proof.
  intros Hb Hw. cbv [timelineEntry t_probability].
  destruct (Nat.eq_dec w1 w2) as [-> | Hne]; [lra|].
  assert (Hlt : (w1 < w2)%nat) by lia.
  pose proof (progress_increasing w1 w2 Hlt) as Hp.
  set (p1 := 1 - exp (- 0.3 * INR w1)) in *.
  set (p2 := 1 - exp (- 0.3 * INR w2)) in *.
  apply Rle_min_compat_r. nra.
Qed.

Lemma timeline_probability_range (b : R) (w : nat) :
  b <= 1 ->
  Rmin b 0.95 <= t_probability (timelineEntry b w) <= 0.95.
Proof.
  intros Hb. cbv [timelineEntry t_probability].
  pose proof (progress_range w) as [Hp0 Hp1].
  set (p := 1 - exp (- 0.3 * INR w)) in *.
  split; [|apply Rmin_r].
  apply Rle_min_compat_r. nra.
Qed.

Lemma predictTimeline_nth (p : MaturationPrediction) (i : nat) (e : TimelineEntry) :
  nth_error (predictTimeline p) i = Some e ->
  (i < 13)%nat /\ e = timelineEntry (probability p) i.
Proof.
  unfold predictTimeline. intros H.
  assert (Hi : (i < 13)%nat).
  { assert (Hsome : nth_error (map (timelineEntry (probability p)) (seq 0 13)) i <> None)
      by (rewrite H; discriminate).
    apply nth_error_Some in Hsome. rewrite length_map, length_seq in Hsome. exact Hsome. }
  split; [exact Hi|].
  rewrite nth_error_map in H.
  rewrite (nth_error_nth' (seq 0 13) 0%nat) in H by (rewrite length_seq; exact Hi).
  rewrite seq_nth in H by exact Hi. cbn [option_map Nat.add] in H.
  injection H as <-. reflexivity.
Qed.

(** X7. The timeline of a prediction has thirteen entries, for the weeks
    0 to 12 in this order.  Its probabilities start at the predicted
    probability capped at 0.95, never decrease from one week to a later one
    and never exceed 0.95. *)
Theorem X7_timeline_probability_capped_and_monotone :
  forall (params : SimulationParams) (metrics : HemodynamicMetrics),
    let p := predictMaturation params metrics in
    map week (predictTimeline p) = seq 0 13 /\
    (forall e, nth_error (predictTimeline p) 0 = Some e ->
       t_probability e = Rmin (probability p) 0.95) /\
    (forall i j e1 e2,
       nth_error (predictTimeline p) i = Some e1 ->
       nth_error (predictTimeline p) j = Some e2 ->
       (i <= j)%nat ->
       t_probability e1 <= t_probability e2) /\
    (forall e, In e (predictTimeline p) ->
       Rmin (probability p) 0.95 <= t_probability e <= 0.95).
Proof.
  intros params metrics p.
  assert (Hb : probability p <= 1).
  { change (probability p) with (logisticFunction (score p)).
    pose proof (logisticFunction_unit (score p)). lra. }
  split; [reflexivity|]. split; [|split].
  - intros e He. apply predictTimeline_nth in He. destruct He as [_ ->].
    cbv [timelineEntry t_probability INR].
    replace (- 0.3 * 0) with 0 by lra. rewrite exp_0.
    f_equal. lra.
  - intros i j e1 e2 H1 H2 Hij.
    apply predictTimeline_nth in H1. apply predictTimeline_nth in H2.
    destruct H1 as [_ ->]. destruct H2 as [_ ->].
    apply timeline_probability_monotone; assumption.
  - intros e He. unfold predictTimeline in He. apply in_map_iff in He.
    destruct He as [w [<- _]]. apply timeline_probability_range. exact Hb.
Qed.


End Timeline.

(** ** More on the hematocrit table and the Carreau law *)

Section BloodPropertiesMore.
Import Constants BloodProperties.

Ltac unfold_table :=
  cbv [interpolateHctParams interpolateHctParamsIn HCT_VISCOSITY_TABLE hd last
       searchBracket rowParams hct mu_inf mu_0 dummyRow Rgeb Rgtb].

(** X9. At the hematocrit of each of its eight rows the interpolation
    returns that row: the piecewise-linear curve passes through the table. *)
Theorem X9_interpolation_passes_through_rows :
  forall row : HctRow,
    In row HCT_VISCOSITY_TABLE ->
    interpolateHctParams (hct row) = rowParams row.
Proof.
  intros row Hin. unfold HCT_VISCOSITY_TABLE in Hin. cbn [In] in Hin.
  repeat (destruct Hin as [<- | Hin]);
    try (unfold_table; split_cmp;
         cbv [interpolateBetween hct mu_inf mu_0]; f_equal; lra);
    try contradiction.
Qed.

Lemma X9_witness : interpolateHctParams 35 = mkParams 0.00300 0.042.
Proof.
  apply (X9_interpolation_passes_through_rows (mkRow 35 0.00300 0.042)).
  unfold HCT_VISCOSITY_TABLE. cbn [In]. tauto.
Defined.

(** X10. Both Carreau parameters never decrease when the hematocrit grows,
    over the whole real line (constant outside the table). *)
Theorem X10_interpolation_monotone :
  forall h1 h2 : R,
    h1 <= h2 ->
    p_mu_inf (interpolateHctParams h1) <= p_mu_inf (interpolateHctParams h2) /\
    p_mu_0 (interpolateHctParams h1) <= p_mu_0 (interpolateHctParams h2).
Proof.
  intros h1 h2 Hle. unfold_table.
  split_cmp;
    cbv [interpolateBetween p_mu_inf p_mu_0 hct mu_inf mu_0 CARREAU c_mu_inf c_mu_0];
    split; lra.
Qed.

Lemma X10_witness :
  p_mu_inf (interpolateHctParams 33) <= p_mu_inf (interpolateHctParams 47) /\
  p_mu_0 (interpolateHctParams 33) <= p_mu_0 (interpolateHctParams 47).
Proof. apply (X10_interpolation_monotone 33 47). lra. Defined.

(** X11. The parameters returned always lie between those of the first
    and of the last row, and strictly inside the table the loop always finds
    a bracket: the default pair of the last line of [interpolateHctParams]
    is never what is returned. *)
Theorem X11_interpolation_within_table_extremes :
  forall h : R,
    0.00220 <= p_mu_inf (interpolateHctParams h) <= 0.00450 /\
    0.025 <= p_mu_0 (interpolateHctParams h) <= 0.075 /\
    (20 < h < 55 -> searchBracket h HCT_VISCOSITY_TABLE <> None).
Proof.
  intros h. split; [|split].
  - unfold_table.
    split_cmp;
      cbv [interpolateBetween p_mu_inf p_mu_0 hct mu_inf mu_0 CARREAU c_mu_inf c_mu_0];
      lra.
  - unfold_table.
    split_cmp;
      cbv [interpolateBetween p_mu_inf p_mu_0 hct mu_inf mu_0 CARREAU c_mu_inf c_mu_0];
      lra.
  - intros Hh. cbv [HCT_VISCOSITY_TABLE searchBracket hct Rgeb].
    split_cmp; discriminate.
Qed.

(** The Carreau factor shrinks when the shear rate grows. *)
Lemma Rpower_decreasing_base (x y e : R) :
  0 < x -> x <= y -> e <= 0 -> Rpower y e <= Rpower x e.
Proof.
  intros Hx Hxy He. unfold Rpower.
  destruct Hxy as [Hlt | ->]; [|lra].
  pose proof (ln_increasing x y Hx Hlt) as Hln.
  destruct He as [He | ->].
  - left. apply exp_increasing. nra.
  - rewrite !Rmult_0_l. lra.
Qed.

(** X12. The viscosity is shear-thinning: it never grows with the shear
    rate, and every shear rate up to the floor 0.1 (zero and negative ones
    included) gives the viscosity of the floor. *)
Theorem X12_viscosity_shear_thinning :
  forall g1 g2 h : R,
    g1 <= g2 ->
    carreauViscosity g2 h <= carreauViscosity g1 h /\
    (g2 <= 0.1 -> carreauViscosity g1 h = carreauViscosity 0.1 h).
Proof.
  intros g1 g2 h Hle.
  pose proof (interpolateHctParams_ordered h) as [Hpos Hord].
  split.
  - unfold carreauViscosity.
    set (a := p_mu_inf (interpolateHctParams h)) in *.
    set (b := p_mu_0 (interpolateHctParams h)) in *.
    assert (Hm1 : 0.1 <= Rmax g1 0.1) by apply Rmax_r.
    assert (Hm : Rmax g1 0.1 <= Rmax g2 0.1)
      by (apply Rle_max_compat_r; exact Hle).
    assert (Hl : c_lambda CARREAU = 3.313) by reflexivity.
    assert (Hterm : 1 + (c_lambda CARREAU * Rmax g1 0.1) ^ 2
                    <= 1 + (c_lambda CARREAU * Rmax g2 0.1) ^ 2)
      by (rewrite Hl; nra).
    assert (Hone : 0 < 1 + (c_lambda CARREAU * Rmax g1 0.1) ^ 2)
      by (pose proof (pow2_ge_0 (c_lambda CARREAU * Rmax g1 0.1)); lra).
    assert (He : (c_n CARREAU - 1) / 2 <= 0) by (cbv [CARREAU c_n]; lra).
    pose proof (Rpower_decreasing_base _ _ _ Hone Hterm He) as Hp.
    nra.
  - intros H2. unfold carreauViscosity.
    rewrite (Rmax_right g1 0.1) by lra. rewrite (Rmax_left 0.1 0.1) by lra.
    reflexivity.
Qed.

Lemma X12_witness :
  carreauViscosity 0.05 40 <= carreauViscosity (Ropp 3) 40 /\
  (0.05 <= 0.1 -> carreauViscosity (Ropp 3) 40 = carreauViscosity 0.1 40).
Proof. apply (X12_viscosity_shear_thinning (Ropp 3) 0.05 40). lra. Defined.

End BloodPropertiesMore.

(** ** The blood properties of a vessel *)

Section BloodPropertiesOfVessel.
Import Constants BloodProperties.

Lemma wallShearRate_pos (q r : R) : 0 < q -> 0 < r -> 0 < wallShearRate q r.
Proof.
  intros Hq Hr. pose proof PI_RGT_0 as Hpi. unfold wallShearRate.
  apply Rmult_lt_0_compat.
  - apply div_pos; cbv [CARREAU c_n]; lra.
  - apply div_pos; [lra|].
    apply Rmult_lt_0_compat; [exact Hpi | apply pow_lt; exact Hr].
Qed.

(** X13. For a positive flow rate and a positive diameter every field
    returned by [calculateBloodProperties] is positive, the density is the
    constant 1060, and the Reynolds number is
    [4 rho Q / (PI D mu)] in SI units. *)
Theorem X13_blood_properties_positive :
  forall flowRate_mLmin diameter_mm h : R,
    0 < flowRate_mLmin -> 0 < diameter_mm ->
    let bp := calculateBloodProperties flowRate_mLmin diameter_mm h in
    0 < viscosity bp /\ 0 < shearRate bp /\ 0 < bp_reynoldsNumber bp /\
    density bp = 1060 /\
    bp_reynoldsNumber bp
    = 4 * 1060 * (flowRate_mLmin / (1e6 * 60))
      / (PI * (diameter_mm * 1e-3) * viscosity bp).
Proof.
  intros q d h Hq Hd bp. pose proof PI_RGT_0 as Hpi.
  assert (Hbp : bp = singlePassBloodProperties q d h).
  { unfold bp, calculateBloodProperties, calculateBloodPropertiesIter,
      singlePassBloodProperties.
    rewrite iterate_loopBody. reflexivity. }
  rewrite Hbp.
  cbv [singlePassBloodProperties viscosity shearRate bp_reynoldsNumber density
       reynoldsNumber meanVelocity BLOOD_DENSITY].
  set (qs := q / (1e6 * 60)). set (r := d / 2 * 1e-3).
  assert (Hqs : 0 < qs) by (unfold qs; apply div_pos; lra).
  assert (Hr : 0 < r) by (unfold r; lra).
  pose proof (carreauViscosity_pos (wallShearRate qs r) h) as Hmu.
  set (mu := carreauViscosity (wallShearRate qs r) h) in *.
  split; [exact Hmu|]. split; [apply wallShearRate_pos; assumption|].
  split.
  - apply div_pos; [|exact Hmu].
    apply Rmult_lt_0_compat; [|lra].
    apply Rmult_lt_0_compat; [lra|].
    apply div_pos; [exact Hqs|]. apply Rmult_lt_0_compat; [|exact Hr].
    apply Rmult_lt_0_compat; assumption.
  - split; [reflexivity|]. unfold r. field. repeat split; lra.
Qed.

Lemma X13_witness :
  let bp := calculateBloodProperties 600 4 0.40 in
  0 < viscosity bp /\ 0 < shearRate bp /\ 0 < bp_reynoldsNumber bp /\
  density bp = 1060 /\
  bp_reynoldsNumber bp
  = 4 * 1060 * (600 / (1e6 * 60)) / (PI * (4 * 1e-3) * viscosity bp).
Proof. apply (X13_blood_properties_positive 600 4 0.40); lra. Defined.

(** X14. Without flow the solve stays finite: the shear rate and the
    Reynolds number are zero and the viscosity is the one of the floor shear
    rate 0.1, whatever the positive diameter. *)
Theorem X14_blood_properties_at_zero_flow :
  forall diameter_mm h : R,
    0 < diameter_mm ->
    let bp := calculateBloodProperties 0 diameter_mm h in
    shearRate bp = 0 /\ bp_reynoldsNumber bp = 0 /\
    viscosity bp = carreauViscosity 0.1 h.
Proof.
  intros d h Hd bp. pose proof PI_RGT_0 as Hpi.
  assert (Hbp : bp = singlePassBloodProperties 0 d h).
  { unfold bp, calculateBloodProperties, calculateBloodPropertiesIter,
      singlePassBloodProperties.
    rewrite iterate_loopBody. reflexivity. }
  rewrite Hbp.
  cbv [singlePassBloodProperties viscosity shearRate bp_reynoldsNumber
       reynoldsNumber meanVelocity BLOOD_DENSITY].
  assert (Hs : wallShearRate (0 / (1e6 * 60)) (d / 2 * 1e-3) = 0).
  { unfold wallShearRate. unfold Rdiv at 3. rewrite Rmult_0_l.
    unfold Rdiv. ring. }
  rewrite Hs. split; [reflexivity|]. split.
  - unfold Rdiv. ring.
  - unfold carreauViscosity. rewrite (Rmax_right 0 0.1) by lra.
    rewrite (Rmax_left 0.1 0.1) by lra. reflexivity.
Qed.

Lemma X14_witness :
  let bp := calculateBloodProperties 0 4 0.40 in
  shearRate bp = 0 /\ bp_reynoldsNumber bp = 0 /\
  viscosity bp = carreauViscosity 0.1 0.40.
Proof. apply (X14_blood_properties_at_zero_flow 4 0.40). lra. Defined.

End BloodPropertiesOfVessel.

(** ** More on the flow split *)

Section FlowSplitMore.
Import FlowSolver.

(** The vein fraction in terms of the diameter ratio and the angle. *)
Lemma veinFraction_ratio_form (params : SimulationParams) :
  0 < arteryDiameter params -> 0 < veinDiameter params ->
  veinFraction (calculateFlowSplit params)
  = 1 / (1 + 1.25 * (0.8 * arteryDiameter params / veinDiameter params) ^ 4
             * (1 + 0.5 * (anastomosisAngle params / 90) ^ 2)).
Proof.
  intros Ha Hv. rewrite veinFraction_closed_form by assumption.
  unfold distalResistance, veinResistance.
  pose proof (pow2_ge_0 (anastomosisAngle params / 90)) as Hsq.
  set (c := 1 + 0.5 * (anastomosisAngle params / 90) ^ 2) in *.
  assert (Hc : 0 < c) by (unfold c; lra).
  assert (Ha4 : 0 < (arteryDiameter params) ^ 4) by (apply pow_lt; exact Ha).
  assert (Hv4 : 0 < (veinDiameter params) ^ 4) by (apply pow_lt; exact Hv).
  assert (Hden : 0 < (veinDiameter params) ^ 4
                     + 1.25 * (0.8 * arteryDiameter params) ^ 4 * c).
  { assert (0 < (0.8 * arteryDiameter params) ^ 4) by (apply pow_lt; lra).
    assert (0 < 1.25 * (0.8 * arteryDiameter params) ^ 4 * c)
      by (apply Rmult_lt_0_compat; [lra | exact Hc]).
    lra. }
  replace 0.8 with (4 / 5) in * by lra. replace 1.25 with (5 / 4) in * by lra.
  set (a := arteryDiameter params) in *. set (v := veinDiameter params) in *.
  assert (Hden' : 0 < 5 * v ^ 4 * (256 / 625 * a ^ 4) * c + 4 * v ^ 4 * v ^ 4).
  { assert (0 < v ^ 4 * a ^ 4) by (apply Rmult_lt_0_compat; assumption).
    assert (0 < v ^ 4 * a ^ 4 * c) by (apply Rmult_lt_0_compat; assumption).
    assert (0 < v ^ 4 * v ^ 4) by (apply Rmult_lt_0_compat; assumption).
    lra. }
  field. repeat split; lra.
Qed.

(** X15. For positive diameters the vein fraction is
    [1 / (1 + 1.25 (0.8 artery / vein)^4 (1 + 0.5 (angle / 90)^2))]: it
    depends on the diameters through their ratio only, so scaling both by
    the same positive factor does not change it, and it does not read the
    flow rate. *)
Theorem X15_vein_fraction_depends_on_diameter_ratio :
  forall (params : SimulationParams) (k : R),
    0 < arteryDiameter params -> 0 < veinDiameter params -> 0 < k ->
    veinFraction (calculateFlowSplit params)
    = 1 / (1 + 1.25 * (0.8 * arteryDiameter params / veinDiameter params) ^ 4
               * (1 + 0.5 * (anastomosisAngle params / 90) ^ 2)) /\
    veinFraction (calculateFlowSplit
                    (withDiameters params (k * arteryDiameter params)
                                          (k * veinDiameter params)))
    = veinFraction (calculateFlowSplit params).
Proof.
  intros params k Ha Hv Hk.
  split; [apply veinFraction_ratio_form; assumption|].
  rewrite !veinFraction_ratio_form; try assumption;
    cbv [withDiameters arteryDiameter veinDiameter anastomosisAngle];
    try (apply Rmult_lt_0_compat; assumption).
  fold (arteryDiameter params). fold (veinDiameter params).
  fold (anastomosisAngle params).
  replace (0.8 * (k * arteryDiameter params) / (k * veinDiameter params))
    with (0.8 * arteryDiameter params / veinDiameter params)
    by (replace 0.8 with (4 / 5) by lra; field; split; lra).
  reflexivity.
Qed.

Lemma X15_witness :
  veinFraction (calculateFlowSplit DEFAULT_PARAMS)
  = 1 / (1 + 1.25 * (0.8 * 4.0 / 4.0) ^ 4 * (1 + 0.5 * (45 / 90) ^ 2)) /\
  veinFraction (calculateFlowSplit (withDiameters DEFAULT_PARAMS (2 * 4.0) (2 * 4.0)))
  = veinFraction (calculateFlowSplit DEFAULT_PARAMS).
Proof.
  apply (X15_vein_fraction_depends_on_diameter_ratio DEFAULT_PARAMS 2);
    cbv [DEFAULT_PARAMS arteryDiameter veinDiameter]; lra.
Defined.

Lemma pow4_increasing (x y : R) : 0 < x -> x < y -> x ^ 4 < y ^ 4.
Proof.
  intros Hx Hxy.
  assert (H2 : x * x < y * y) by nra.
  assert (Hx2 : 0 < x * x) by nra.
  replace (x ^ 4) with ((x * x) * (x * x)) by ring.
  replace (y ^ 4) with ((y * y) * (y * y)) by ring.
  nra.
Qed.

(** X16. With the angle fixed, a wider vein takes a strictly larger share
    of the flow and a wider artery leaves it a strictly smaller one. *)
Theorem X16_vein_fraction_monotone_in_diameters :
  forall (params : SimulationParams) (a1 a2 v1 v2 : R),
    0 < a1 -> a1 < a2 -> 0 < v1 -> v1 < v2 ->
    veinFraction (calculateFlowSplit (withDiameters params a1 v1))
    < veinFraction (calculateFlowSplit (withDiameters params a1 v2)) /\
    veinFraction (calculateFlowSplit (withDiameters params a2 v1))
    < veinFraction (calculateFlowSplit (withDiameters params a1 v1)).
Proof.
  intros params a1 a2 v1 v2 Ha1 Ha Hv1 Hv.
  rewrite !veinFraction_ratio_form;
    cbv [withDiameters arteryDiameter veinDiameter anastomosisAngle]; try lra.
  fold (anastomosisAngle params).
  pose proof (pow2_ge_0 (anastomosisAngle params / 90)) as Hsq.
  set (c := 1 + 0.5 * (anastomosisAngle params / 90) ^ 2) in *.
  assert (Hc : 0 < c) by (unfold c; lra).
  assert (Hr : forall x y, 0 < x -> x < y ->
            1 / (1 + 1.25 * y ^ 4 * c) < 1 / (1 + 1.25 * x ^ 4 * c)).
  { intros x y Hx Hxy. pose proof (pow4_increasing x y Hx Hxy) as H4.
    assert (0 < x ^ 4) by (apply pow_lt; exact Hx).
    unfold Rdiv. rewrite !Rmult_1_l. apply Rinv_lt_contravar; nra. }
  assert (Hinv1 : 0 < / v1) by (apply Rinv_0_lt_compat; lra).
  assert (Hinv2 : 0 < / v2) by (apply Rinv_0_lt_compat; lra).
  assert (Hinv : / v2 < / v1) by (apply Rinv_lt_contravar; nra).
  split; apply Hr; unfold Rdiv.
  - apply Rmult_lt_0_compat; lra.
  - apply Rmult_lt_compat_l; lra.
  - apply Rmult_lt_0_compat; lra.
  - apply Rmult_lt_compat_r; lra.
Qed.

Lemma X16_witness :
  veinFraction (calculateFlowSplit (withDiameters DEFAULT_PARAMS 3 3))
  < veinFraction (calculateFlowSplit (withDiameters DEFAULT_PARAMS 3 4)) /\
  veinFraction (calculateFlowSplit (withDiameters DEFAULT_PARAMS 4 3))
  < veinFraction (calculateFlowSplit (withDiameters DEFAULT_PARAMS 3 3)).
Proof.
  apply (X16_vein_fraction_monotone_in_diameters DEFAULT_PARAMS 3 4 3 4); lra.
Defined.

End FlowSplitMore.

(** ** More on the waveform *)

Section WaveformMore.
Import FlowSolver WssCalculator.

Lemma flooredSample_heart_rate (hr1 hr2 sr : R) (n i : nat) :
  hr1 <> 0 -> hr2 <> 0 -> flooredSample hr1 sr n i = flooredSample hr2 sr n i.
Proof.
  intros H1 H2. rewrite !flooredSample_unfold.
  rewrite !waveformPhase_closed by assumption. reflexivity.
Qed.

Lemma generatePulsatileWaveform_heart_rate (hr1 hr2 sr : R) (n : nat) :
  hr1 <> 0 -> hr2 <> 0 ->
  generatePulsatileWaveform hr1 sr n = generatePulsatileWaveform hr2 sr n.
Proof.
  intros H1 H2. unfold generatePulsatileWaveform.
  assert (Hfw : flooredWaveform hr1 sr n = flooredWaveform hr2 sr n).
  { unfold flooredWaveform. apply map_ext. intros i.
    apply flooredSample_heart_rate; assumption. }
  rewrite Hfw. reflexivity.
Qed.

(** X17. The heart rate has no effect: for any two positive heart rates
    the waveform is the same, and so is the whole run of
    [calculateHemodynamics]. *)
Theorem X17_heart_rate_has_no_effect :
  forall (params : SimulationParams) (hr1 hr2 sr : R) (n : nat),
    0 < hr1 -> 0 < hr2 ->
    generatePulsatileWaveform hr1 sr n = generatePulsatileWaveform hr2 sr n /\
    calculateHemodynamics (withHeartRate params hr1)
    = calculateHemodynamics (withHeartRate params hr2).
Proof.
  intros params hr1 hr2 sr n H1 H2.
  split; [apply generatePulsatileWaveform_heart_rate; lra|].
  unfold calculateHemodynamics.
  cbv [withHeartRate arteryDiameter veinDiameter anastomosisAngle bloodFlowRate
       hematocrit heartRate systolicRatio].
  rewrite (generatePulsatileWaveform_heart_rate hr1 hr2) by lra.
  reflexivity.
Qed.

Lemma X17_witness :
  generatePulsatileWaveform 60 0.35 20 = generatePulsatileWaveform 120 0.35 20 /\
  calculateHemodynamics (withHeartRate DEFAULT_PARAMS 60)
  = calculateHemodynamics (withHeartRate DEFAULT_PARAMS 120).
Proof. apply (X17_heart_rate_has_no_effect DEFAULT_PARAMS 60 120 0.35 20); lra. Defined.

End WaveformMore.

(** ** The waveform when no sample is floored *)

Section WaveformUnfloored.
Import FlowSolver.

Lemma map_seq_shift {B : Type} (f : nat -> B) (s n : nat) :
  map f (seq s n) = map (fun i => f (i + s)%nat) (seq 0 n).
Proof.
  revert f s. induction n as [|n IH]; intros f s; [reflexivity|].
  cbn [seq map]. f_equal.
  rewrite (IH f (S s)), (IH (fun i => f (i + s)%nat) 1%nat).
  apply map_ext. intros i. f_equal. lia.
Qed.

(** A sum over [4 k] indices, gathered four by four, [k] apart. *)
Lemma sumR_four_strides (f : nat -> R) (k : nat) :
  sumR (map f (seq 0 (4 * k)))
  = sumR (map (fun i => f i + f (i + k)%nat + f (i + 2 * k)%nat + f (i + 3 * k)%nat)
              (seq 0 k)).
Proof.
  replace (4 * k)%nat with (k + (k + (k + k)))%nat by lia.
  rewrite !seq_app, !map_app, !sumR_app. cbn [Nat.add].
  rewrite (map_seq_shift f k k), (map_seq_shift f (k + k) k),
          (map_seq_shift f (k + k + k) k).
  rewrite <- !sumR_map_plus.
  replace (2 * k)%nat with (k + k)%nat by lia.
  replace (3 * k)%nat with (k + k + k)%nat by lia.
  lra.
Qed.

Lemma rawSample_floor_free (sr phi : R) :
  0 <= sr <= 0.29 -> 0.15 <= rawSample sr phi.
Proof.
  intros Hsr. unfold rawSample.
  pose proof (SIN_bound phi) as H1.
  pose proof (SIN_bound (2 * phi - 0.3)) as H2.
  pose proof (SIN_bound (3 * phi - 0.6)) as H3.
  assert (HA : 0 <= 0.6 * (sr / 0.35) <= 0.498) by lra.
  nra.
Qed.

(** The Fourier samples of a step count that is a multiple of four add up
    to the step count. *)
Lemma rawSample_sum (sr : R) (k : nat) :
  (0 < k)%nat ->
  sumR (map (fun i => rawSample sr (2 * PI * (INR i / INR (4 * k)))) (seq 0 (4 * k)))
  = INR (4 * k).
Proof.
  intros Hk. pose proof (INR_pos k Hk) as Hpos.
  rewrite (sumR_four_strides
             (fun i => rawSample sr (2 * PI * (INR i / INR (4 * k)))) k).
  rewrite (sumR_map_const 4).
  - rewrite length_seq, mult_INR. simpl INR. lra.
  - intros i.
    assert (HN : INR (4 * k) = 4 * INR k) by (rewrite mult_INR; simpl INR; lra).
    assert (P1 : 2 * PI * (INR (i + k) / INR (4 * k))
                 = 2 * PI * (INR i / INR (4 * k)) + PI / 2)
      by (rewrite plus_INR, HN; field; lra).
    assert (P2 : 2 * PI * (INR (i + 2 * k) / INR (4 * k))
                 = 2 * PI * (INR i / INR (4 * k)) + PI)
      by (rewrite plus_INR, mult_INR, HN; simpl INR; field; lra).
    assert (P3 : 2 * PI * (INR (i + 3 * k) / INR (4 * k))
                 = 2 * PI * (INR i / INR (4 * k)) + 3 * (PI / 2))
      by (rewrite plus_INR, mult_INR, HN; simpl INR; field; lra).
    rewrite P1, P2, P3. apply rawSample_quarter_turns.
Qed.

(** X18. For a systolic ratio up to 0.29 no sample is floored; when the
    step count is moreover a multiple of four (as the default 20 is) the
    samples already have mean one, so the waveform returned is the plain
    Fourier sum at the phases [2 PI i / n], and each element is at least
    0.15. *)
Theorem X18_unfloored_waveform_is_the_fourier_sum :
  forall (hr sr : R) (k : nat),
    0 < hr -> 0 <= sr <= 0.29 -> (0 < k)%nat ->
    generatePulsatileWaveform hr sr (4 * k)
    = Some (map (fun i => rawSample sr (2 * PI * (INR i / INR (4 * k))))
                (seq 0 (4 * k))) /\
    forall x,
      In x (map (fun i => rawSample sr (2 * PI * (INR i / INR (4 * k))))
                (seq 0 (4 * k))) ->
      0.15 <= x.
Proof.
  intros hr sr k Hhr Hsr Hk.
  assert (Hn : (0 < 4 * k)%nat) by lia.
  assert (Hfw : flooredWaveform hr sr (4 * k)
                = map (fun i => rawSample sr (2 * PI * (INR i / INR (4 * k))))
                      (seq 0 (4 * k))).
  { unfold flooredWaveform. apply map_ext. intros i.
    rewrite flooredSample_unfold, waveformPhase_closed by lra.
    apply Rmax_left. apply rawSample_floor_free. exact Hsr. }
  assert (Hmean : mean_of (flooredWaveform hr sr (4 * k)) = 1).
  { unfold mean_of. rewrite Hfw, rawSample_sum, length_map, length_seq by exact Hk.
    pose proof (INR_pos _ Hn). field. lra. }
  split.
  - rewrite generatePulsatileWaveform_some by exact Hn.
    rewrite Hmean, Hfw. f_equal. rewrite map_map. apply map_ext.
    intros i. field.
  - intros x Hx. apply in_map_iff in Hx. destruct Hx as [i [<- _]].
    apply rawSample_floor_free. exact Hsr.
Qed.

Lemma X18_witness :
  generatePulsatileWaveform 75 0.25 (4 * 5)
  = Some (map (fun i => rawSample 0.25 (2 * PI * (INR i / INR (4 * 5))))
              (seq 0 (4 * 5))) /\
  forall x,
    In x (map (fun i => rawSample 0.25 (2 * PI * (INR i / INR (4 * 5))))
              (seq 0 (4 * 5))) ->
    0.15 <= x.
Proof.
  apply (X18_unfloored_waveform_is_the_fourier_sum 75 0.25 5); try lra. lia.
Defined.

End WaveformUnfloored.

(** ** Tangents of the Bezier curves *)

Section Tangents.
Import Constants Geometry.

Lemma hypot_sqr (dx dy : R) : hypot dx dy * hypot dx dy = dx * dx + dy * dy.
Proof. unfold hypot. apply sqrt_sqrt. nra. Qed.

Lemma cubicBezierTangent_some (t : R) (p0 p1 p2 p3 tg : Point2D) :
  cubicBezierTangent t p0 p1 p2 p3 = Some tg ->
  hypot (bezierDx t p0 p1 p2 p3) (bezierDy t p0 p1 p2 p3) <> 0 /\
  px tg = bezierDx t p0 p1 p2 p3
          / hypot (bezierDx t p0 p1 p2 p3) (bezierDy t p0 p1 p2 p3) /\
  py tg = bezierDy t p0 p1 p2 p3
          / hypot (bezierDx t p0 p1 p2 p3) (bezierDy t p0 p1 p2 p3).
Proof.
  unfold cubicBezierTangent, fdiv.
  destruct (Req_dec_T _ 0) as [E | Hne]; [discriminate|].
  cbn [bind]. intros H. injection H as <-. cbn [px py]. auto.
Qed.

Lemma unit_of_quotients (dx dy len : R) :
  len <> 0 -> len * len = dx * dx + dy * dy ->
  (dx / len) * (dx / len) + (dy / len) * (dy / len) = 1.
Proof.
  intros Hne Hsq.
  replace ((dx / len) * (dx / len) + (dy / len) * (dy / len))
    with ((dx * dx + dy * dy) / (len * len)) by (field; exact Hne).
  rewrite <- Hsq. field. exact Hne.
Qed.

(** A returned tangent has length one. *)
Lemma cubicBezierTangent_unit (t : R) (p0 p1 p2 p3 tg : Point2D) :
  cubicBezierTangent t p0 p1 p2 p3 = Some tg ->
  px tg * px tg + py tg * py tg = 1.
Proof.
  intros H. apply cubicBezierTangent_some in H. destruct H as (Hne & -> & ->).
  apply unit_of_quotients; [exact Hne | apply hypot_sqr].
Qed.

(** X19. Whenever [cubicBezierTangent] returns a vector, for any four
    control points and any parameter, that vector has length one and is
    the derivative of the curve divided by its length. *)
Theorem X19_tangent_is_unit :
  forall (t : R) (p0 p1 p2 p3 tg : Point2D),
    cubicBezierTangent t p0 p1 p2 p3 = Some tg ->
    px tg * px tg + py tg * py tg = 1 /\
    exists len, 0 < len /\
      bezierDx t p0 p1 p2 p3 = len * px tg /\
      bezierDy t p0 p1 p2 p3 = len * py tg.
Proof.
  intros t p0 p1 p2 p3 tg H.
  apply cubicBezierTangent_some in H. destruct H as (Hne & -> & ->).
  set (dx := bezierDx t p0 p1 p2 p3) in *. set (dy := bezierDy t p0 p1 p2 p3) in *.
  split; [apply unit_of_quotients; [exact Hne | apply hypot_sqr]|].
  exists (hypot dx dy).
  assert (Hpos : 0 <= hypot dx dy) by (unfold hypot; apply sqrt_pos).
  split; [lra|]. split; field; exact Hne.
Qed.

Lemma X19_witness :
  px (mkPoint 1 0) * px (mkPoint 1 0) + py (mkPoint 1 0) * py (mkPoint 1 0) = 1 /\
  exists len, 0 < len /\
    bezierDx 0 (mkPoint 0 0) (mkPoint 1 0) (mkPoint 2 0) (mkPoint 3 0)
    = len * px (mkPoint 1 0) /\
    bezierDy 0 (mkPoint 0 0) (mkPoint 1 0) (mkPoint 2 0) (mkPoint 3 0)
    = len * py (mkPoint 1 0).
Proof.
  apply (X19_tangent_is_unit 0 (mkPoint 0 0) (mkPoint 1 0) (mkPoint 2 0) (mkPoint 3 0)).
  unfold cubicBezierTangent, fdiv.
  assert (Hdx : bezierDx 0 (mkPoint 0 0) (mkPoint 1 0) (mkPoint 2 0) (mkPoint 3 0) = 3)
    by (cbv [bezierDx px py]; lra).
  assert (Hdy : bezierDy 0 (mkPoint 0 0) (mkPoint 1 0) (mkPoint 2 0) (mkPoint 3 0) = 0)
    by (cbv [bezierDy px py]; lra).
  rewrite Hdx, Hdy.
  assert (Hh : hypot 3 0 = 3).
  { unfold hypot. replace (3 * 3 + 0 * 0) with (3 * 3) by lra.
    apply sqrt_square. lra. }
  rewrite Hh. destruct (Req_dec_T 3 0) as [E | _]; [lra|].
  cbn [bind]. f_equal. f_equal; lra.
Defined.

Lemma cos_PI_minus_sqr (a : R) :
  cos (PI - a) * cos (PI - a) + sin a * sin a = 1.
Proof.
  rewrite cos_minus, cos_PI, sin_PI.
  pose proof (sin2_cos2 a) as H. unfold Rsqr in H. nra.
Qed.

(** X20. The vein centreline leaves the anastomosis point in the direction
    of the anastomosis angle, [(cos (PI - a), - sin a)], and arrives at its
    far end horizontally, in the direction [(-1, 0)], whatever the angle. *)
Theorem X20_vein_departs_at_the_angle :
  forall cx cy a : R,
    cubicBezierTangent 0 (veinP0 cx cy) (veinP1 cx cy a) (veinP2 cx cy) (veinP3 cx cy)
    = Some (mkPoint (cos (PI - a)) (- sin a)) /\
    cubicBezierTangent 1 (veinP0 cx cy) (veinP1 cx cy a) (veinP2 cx cy) (veinP3 cx cy)
    = Some (mkPoint (-1) 0).
Proof.
  intros cx cy a. split.
  - assert (Hdx : bezierDx 0 (veinP0 cx cy) (veinP1 cx cy a) (veinP2 cx cy) (veinP3 cx cy)
                  = 420 * cos (PI - a))
      by (cbv [bezierDx veinP0 veinP1 veinP2 veinP3 veinCurveLength px py]; lra).
    assert (Hdy : bezierDy 0 (veinP0 cx cy) (veinP1 cx cy a) (veinP2 cx cy) (veinP3 cx cy)
                  = 420 * - sin a)
      by (cbv [bezierDy veinP0 veinP1 veinP2 veinP3 veinCurveLength px py]; lra).
    unfold cubicBezierTangent. rewrite Hdx, Hdy.
    assert (Hh : hypot (420 * cos (PI - a)) (420 * - sin a) = 420).
    { unfold hypot. pose proof (cos_PI_minus_sqr a) as Hu.
      replace (420 * cos (PI - a) * (420 * cos (PI - a)) + 420 * - sin a * (420 * - sin a))
        with (420 * 420) by nra.
      apply sqrt_square. lra. }
    rewrite Hh. unfold fdiv. destruct (Req_dec_T 420 0) as [E | _]; [lra|].
    cbn [bind]. f_equal. f_equal; field.
  - assert (Hdx : bezierDx 1 (veinP0 cx cy) (veinP1 cx cy a) (veinP2 cx cy) (veinP3 cx cy)
                  = -420) by apply bezierDx_at_end.
    assert (Hdy : bezierDy 1 (veinP0 cx cy) (veinP1 cx cy a) (veinP2 cx cy) (veinP3 cx cy)
                  = 0)
      by (cbv [bezierDy veinP0 veinP1 veinP2 veinP3 veinCurveLength px py]; lra).
    unfold cubicBezierTangent. rewrite Hdx, Hdy.
    assert (Hh : hypot (-420) 0 = 420).
    { unfold hypot. replace (-420 * -420 + 0 * 0) with (420 * 420) by lra.
      apply sqrt_square. lra. }
    rewrite Hh. unfold fdiv. destruct (Req_dec_T 420 0) as [E | _]; [lra|].
    cbn [bind]. f_equal. f_equal; lra.
Qed.

End Tangents.

(** ** The vein walls around the centreline *)

Section VeinWalls.
Import Constants Geometry.

Lemma nth_error_combine_seq {A : Type} (l : list A) (i s : nat) (a : A) :
  nth_error l i = Some a ->
  nth_error (combine (seq s (length l)) l) i = Some ((s + i)%nat, a).
Proof.
  revert i s. induction l as [|x l IH]; intros i s H.
  - destruct i; discriminate.
  - destruct i as [|i]; cbn [length seq combine nth_error] in *.
    + injection H as ->. rewrite Nat.add_0_r. reflexivity.
    + rewrite (IH i (S s) H). f_equal. f_equal. lia.
Qed.

Lemma nth_error_indexed {A : Type} (l : list A) (i : nat) (a : A) :
  nth_error l i = Some a -> nth_error (indexed l) i = Some (i, a).
Proof. intros H. unfold indexed. rewrite (nth_error_combine_seq l i 0 a H). reflexivity. Qed.

(** The geometry of an angle strictly between 0 and 180 degrees, with the
    normals its vein walls were built from. *)
Lemma generateGeometry_vein_walls (ad vd angle : R) :
  0 < angle < 180 ->
  exists g normals,
    generateGeometry ad vd angle = Some g /\
    length normals = 50%nat /\
    (forall n, In n normals -> px n * px n + py n * py n = 1) /\
    length (veinCenterline g) = 50%nat /\
    veinOuterWall g
    = map (fun ip : nat * Point2D =>
             let (i, p) := ip in
             mkPoint (px p + radiusPx vd * px (pointAt normals i))
                     (py p + radiusPx vd * py (pointAt normals i)))
          (indexed (veinCenterline g)) /\
    veinInnerWall g
    = map (fun ip : nat * Point2D =>
             let (i, p) := ip in
             mkPoint (px p - radiusPx vd * px (pointAt normals i))
                     (py p - radiusPx vd * py (pointAt normals i)))
          (indexed (veinCenterline g)).
Proof.
  intros Hangle. pose proof (sin_degrees_pos angle Hangle) as Hs.
  unfold generateGeometry. cbv zeta.
  destruct (vein_normals_defined (CANVAS_width / 2) (CANVAS_height * 0.65)
              (angle * PI / 180) Hs) as [normals [Hn Hnlen]].
  assert (Hunit : forall n, In n normals -> px n * px n + py n * py n = 1).
  { intros n Hin. destruct (mapM_in _ _ _ _ Hn Hin) as [i [_ Hi]].
    cbv zeta in Hi.
    destruct (cubicBezierTangent _ _ _ _ _) as [tg|] eqn:Htg; [|discriminate].
    cbn [bind] in Hi. injection Hi as <-. cbn [px py].
    apply cubicBezierTangent_unit in Htg. lra. }
  cbv zeta in Hn. rewrite Hn. cbn [bind].
  unfold generateSmoothConnection.
  match goal with
  | |- context [nth_error ?l ?k] => destruct (nth_error l k) as [veinPt|] eqn:Hnth
  end.
  2:{ apply nth_error_None in Hnth.
      rewrite !length_map, !indexed_length, !length_map, !length_seq in Hnth.
      unfold numVeinPts in Hnth. simpl in Hnth. lia. }
  clear Hnth. cbn [bind].
  unfold modifyArteryWallForAnastomosis, fdiv.
  destruct (Req_dec_T (sin (angle * PI / 180)) 0) as [E | _]; [lra|].
  cbn [bind].
  eexists. exists normals.
  split; [reflexivity|].
  cbn [veinCenterline veinOuterWall veinInnerWall].
  split; [exact Hnlen|]. split; [exact Hunit|].
  split; [rewrite length_map, length_seq; reflexivity|].
  split; reflexivity.
Qed.

(** X21. In the generated geometry the two vein walls have one point per
    sample of the centreline; the sample is the midpoint of its outer and
    inner wall points, and each of them lies at exactly the vein radius (in
    pixels) from it. *)
Theorem X21_vein_walls_offset_by_the_radius :
  forall ad vd angle : R,
    0 < angle < 180 ->
    exists g,
      generateGeometry ad vd angle = Some g /\
      length (veinCenterline g) = 50%nat /\
      length (veinOuterWall g) = 50%nat /\
      length (veinInnerWall g) = 50%nat /\
      forall (i : nat) (c o n : Point2D),
        nth_error (veinCenterline g) i = Some c ->
        nth_error (veinOuterWall g) i = Some o ->
        nth_error (veinInnerWall g) i = Some n ->
        (px o + px n) / 2 = px c /\ (py o + py n) / 2 = py c /\
        (px o - px c) * (px o - px c) + (py o - py c) * (py o - py c)
        = radiusPx vd * radiusPx vd /\
        (px n - px c) * (px n - px c) + (py n - py c) * (py n - py c)
        = radiusPx vd * radiusPx vd.
Proof.
  intros ad vd angle Hangle.
  destruct (generateGeometry_vein_walls ad vd angle Hangle)
    as (g & normals & Hg & Hnlen & Hunit & Hclen & Hout & Hin).
  exists g. split; [exact Hg|]. split; [exact Hclen|].
  split; [rewrite Hout, length_map, indexed_length; exact Hclen|].
  split; [rewrite Hin, length_map, indexed_length; exact Hclen|].
  intros i c o n Hc Ho Hn.
  assert (Hi : (i < 50)%nat).
  { rewrite <- Hclen. apply nth_error_Some. rewrite Hc. discriminate. }
  pose proof (nth_error_indexed _ _ _ Hc) as Hic.
  rewrite Hout, nth_error_map, Hic in Ho. cbn [option_map] in Ho. injection Ho as <-.
  rewrite Hin, nth_error_map, Hic in Hn. cbn [option_map] in Hn. injection Hn as <-.
  cbn [px py].
  assert (Hu : px (pointAt normals i) * px (pointAt normals i)
               + py (pointAt normals i) * py (pointAt normals i) = 1).
  { apply Hunit. unfold pointAt. apply nth_In. rewrite Hnlen. exact Hi. }
  set (nx := px (pointAt normals i)) in *. set (ny := py (pointAt normals i)) in *.
  set (r := radiusPx vd).
  repeat split; try lra.
  - replace ((px c + r * nx - px c) * (px c + r * nx - px c)
             + (py c + r * ny - py c) * (py c + r * ny - py c))
      with (r * r * (nx * nx + ny * ny)) by ring.
    rewrite Hu. ring.
  - replace ((px c - r * nx - px c) * (px c - r * nx - px c)
             + (py c - r * ny - py c) * (py c - r * ny - py c))
      with (r * r * (nx * nx + ny * ny)) by ring.
    rewrite Hu. ring.
Qed.

Lemma X21_witness :
  exists g,
    generateGeometry 4 4 45 = Some g /\
    length (veinCenterline g) = 50%nat /\
    length (veinOuterWall g) = 50%nat /\
    length (veinInnerWall g) = 50%nat /\
    forall (i : nat) (c o n : Point2D),
      nth_error (veinCenterline g) i = Some c ->
      nth_error (veinOuterWall g) i = Some o ->
      nth_error (veinInnerWall g) i = Some n ->
      (px o + px n) / 2 = px c /\ (py o + py n) / 2 = py c /\
      (px o - px c) * (px o - px c) + (py o - py c) * (py o - py c)
      = radiusPx 4 * radiusPx 4 /\
      (px n - px c) * (px n - px c) + (py n - py c) * (py n - py c)
      = radiusPx 4 * radiusPx 4.
Proof. apply (X21_vein_walls_offset_by_the_radius 4 4 45). lra. Defined.

End VeinWalls.

(** ** Centrelines, recirculation zone and carving *)

Section GeometryMore.
Import Constants Geometry.

Lemma cubicBezier_ends (p0 p1 p2 p3 : Point2D) :
  cubicBezier 0 p0 p1 p2 p3 = p0 /\ cubicBezier 1 p0 p1 p2 p3 = p3.
Proof.
  destruct p0 as [x0 y0], p3 as [x3 y3]. unfold cubicBezier. cbn [px py].
  split; f_equal; ring.
Qed.

(** The centrelines and the zone of a generated geometry. *)
Lemma generateGeometry_centrelines (ad vd angle : R) :
  0 < angle < 180 ->
  exists g,
    generateGeometry ad vd angle = Some g /\
    anastomosisPoint g = mkPoint canvasCx canvasCy /\
    arteryCenterline g
    = map (fun i : nat =>
             mkPoint (canvasCx - CANVAS_width * 0.8 / 2
                      + INR i / INR (numArteryPts - 1) * (CANVAS_width * 0.8))
                     canvasCy)
          (seq 0 numArteryPts) /\
    veinCenterline g
    = map (fun i : nat =>
             cubicBezier (INR i / INR (numVeinPts - 1))
               (veinP0 canvasCx canvasCy) (veinP1 canvasCx canvasCy (degToRad angle))
               (veinP2 canvasCx canvasCy) (veinP3 canvasCx canvasCy))
          (seq 0 numVeinPts) /\
    recirculationZone g
    = estimateRecirculationZone canvasCx canvasCy (radiusPx ad) (radiusPx vd)
        (degToRad angle) CANVAS_vesselScale.
Proof.
  intros Hangle. pose proof (sin_degrees_pos angle Hangle) as Hs.
  unfold generateGeometry. cbv zeta.
  destruct (vein_normals_defined (CANVAS_width / 2) (CANVAS_height * 0.65)
              (angle * PI / 180) Hs) as [normals [Hn Hnlen]].
  cbv zeta in Hn. rewrite Hn. cbn [bind].
  unfold generateSmoothConnection.
  match goal with
  | |- context [nth_error ?l ?k] => destruct (nth_error l k) as [veinPt|] eqn:Hnth
  end.
  2:{ apply nth_error_None in Hnth.
      rewrite !length_map, !indexed_length, !length_map, !length_seq in Hnth.
      unfold numVeinPts in Hnth. simpl in Hnth. lia. }
  clear Hnth. cbn [bind].
  unfold modifyArteryWallForAnastomosis, fdiv.
  destruct (Req_dec_T (sin (angle * PI / 180)) 0) as [E | _]; [lra|].
  cbn [bind]. eexists. split; [reflexivity|].
  cbn [anastomosisPoint arteryCenterline veinCenterline recirculationZone].
  repeat split; reflexivity.
Qed.

(** X22. In the generated geometry the artery centreline is horizontal
    through the anastomosis point (400, 325), from x = 80 to x = 720 in 60
    samples, and the vein centreline runs in 50 samples from the anastomosis
    point to (120, 45). *)
Theorem X22_centreline_end_points :
  forall ad vd angle : R,
    0 < angle < 180 ->
    exists g,
      generateGeometry ad vd angle = Some g /\
      anastomosisPoint g = mkPoint 400 325 /\
      length (arteryCenterline g) = 60%nat /\
      length (veinCenterline g) = 50%nat /\
      nth_error (arteryCenterline g) 0 = Some (mkPoint 80 325) /\
      nth_error (arteryCenterline g) 59 = Some (mkPoint 720 325) /\
      (forall p, In p (arteryCenterline g) -> py p = 325 /\ 80 <= px p <= 720) /\
      nth_error (veinCenterline g) 0 = Some (mkPoint 400 325) /\
      nth_error (veinCenterline g) 49 = Some (mkPoint 120 45).
Proof.
  intros ad vd angle Hangle.
  destruct (generateGeometry_centrelines ad vd angle Hangle)
    as (g & Hg & Hap & Hac & Hvc & _).
  assert (Hcx : canvasCx = 400) by (cbv [canvasCx CANVAS_width]; lra).
  assert (Hcy : canvasCy = 325) by (cbv [canvasCy CANVAS_height]; lra).
  assert (H59 : INR 59 = 59) by (rewrite INR_IZR_INZ; reflexivity).
  assert (H49 : INR 49 = 49) by (rewrite INR_IZR_INZ; reflexivity).
  exists g. split; [exact Hg|].
  split; [rewrite Hap, Hcx, Hcy; reflexivity|].
  split; [rewrite Hac, length_map, length_seq; reflexivity|].
  split; [rewrite Hvc, length_map, length_seq; reflexivity|].
  split; [|split; [|split; [|split]]].
  - rewrite Hac, nth_error_map_seq by (unfold numArteryPts; lia).
    rewrite Hcx, Hcy. cbv [CANVAS_width]. f_equal. f_equal.
    change (INR 0) with 0. unfold Rdiv. lra.
  - rewrite Hac, nth_error_map_seq by (unfold numArteryPts; lia).
    rewrite Hcx, Hcy. cbv [CANVAS_width numArteryPts]. f_equal. f_equal.
    change (60 - 1)%nat with 59%nat. rewrite H59. lra.
  - intros p Hp. rewrite Hac in Hp. apply in_map_iff in Hp.
    destruct Hp as [i [<- Hi]]. apply in_seq in Hi. cbn [px py].
    split; [exact Hcy|]. rewrite Hcx. cbv [CANVAS_width].
    assert (Hf : 0 <= INR i / INR (numArteryPts - 1) <= 1)
      by (apply index_fraction_unit; unfold numArteryPts in *; lia).
    lra.
  - rewrite Hvc, nth_error_map_seq by (unfold numVeinPts; lia).
    change (INR 0) with 0. replace (0 / INR (numVeinPts - 1)) with 0
      by (unfold Rdiv; ring).
    rewrite (proj1 (cubicBezier_ends _ _ _ _)). unfold veinP0.
    rewrite Hcx, Hcy. reflexivity.
  - rewrite Hvc, nth_error_map_seq by (unfold numVeinPts; lia).
    change (numVeinPts - 1)%nat with 49%nat.
    replace (INR 49 / INR 49) with 1 by (rewrite H49; lra).
    rewrite (proj2 (cubicBezier_ends _ _ _ _)).
    cbv [veinP3 veinCurveLength]. rewrite Hcx, Hcy. f_equal. f_equal; lra.
Qed.

Lemma X22_witness :
  exists g,
    generateGeometry 4 4 45 = Some g /\
    anastomosisPoint g = mkPoint 400 325 /\
    length (arteryCenterline g) = 60%nat /\
    length (veinCenterline g) = 50%nat /\
    nth_error (arteryCenterline g) 0 = Some (mkPoint 80 325) /\
    nth_error (arteryCenterline g) 59 = Some (mkPoint 720 325) /\
    (forall p, In p (arteryCenterline g) -> py p = 325 /\ 80 <= px p <= 720) /\
    nth_error (veinCenterline g) 0 = Some (mkPoint 400 325) /\
    nth_error (veinCenterline g) 49 = Some (mkPoint 120 45).
Proof. apply (X22_centreline_end_points 4 4 45). lra. Defined.

(** X23. The recirculation zone is a polygon of 17 points inside the
    artery lumen: with [L] the zone length [2 vR (1 + 1.5 sin a)], every
    point has its abscissa in [cx - 0.2 L, cx + L] and its ordinate in
    [cy - 0.1 aR, cy + 0.4 aR]. *)
Theorem X23_recirculation_zone_inside_the_lumen :
  forall cx cy aR vR a scale : R,
    0 <= aR -> 0 <= vR -> 0 <= sin a ->
    let L := vR * 2 * (1.0 + 1.5 * sin a) in
    length (estimateRecirculationZone cx cy aR vR a scale) = 17%nat /\
    forall p, In p (estimateRecirculationZone cx cy aR vR a scale) ->
      cx - 0.2 * L <= px p <= cx + L /\
      cy - 0.1 * aR <= py p <= cy + 0.4 * aR.
Proof.
  intros cx cy aR vR a scale HaR HvR Hs L.
  unfold estimateRecirculationZone. cbv zeta.
  split; [rewrite length_map, length_seq; reflexivity|].
  intros p Hp. apply in_map_iff in Hp. destruct Hp as [i [<- Hi]].
  apply in_seq in Hi. cbn [px py].
  assert (Ht : 0 <= INR i / INR 16 <= 1) by (apply index_fraction_unit; lia).
  set (t := INR i / INR 16) in *.
  pose proof PI_RGT_0 as Hpi.
  pose proof (COS_bound (t * PI)) as [Hc0 Hc1].
  pose proof (SIN_bound (t * PI)) as [_ Hs1].
  assert (Hs0 : 0 <= sin (t * PI)) by (apply sin_ge_0; nra).
  fold L.
  assert (HL : 0 <= L) by (unfold L; apply Rmult_le_pos; nra).
  assert (Hprod : 0 <= sin (t * PI) * (1 - 0.2 * t) <= 1) by (split; nra).
  split; split; nra.
Qed.

Lemma X23_witness :
  let L := 56 * 2 * (1.0 + 1.5 * sin (PI / 2)) in
  length (estimateRecirculationZone 400 325 56 56 (PI / 2) 28) = 17%nat /\
  forall p, In p (estimateRecirculationZone 400 325 56 56 (PI / 2) 28) ->
    400 - 0.2 * L <= px p <= 400 + L /\
    325 - 0.1 * 56 <= py p <= 325 + 0.4 * 56.
Proof.
  apply (X23_recirculation_zone_inside_the_lumen 400 325 56 56 (PI / 2) 28); try lra.
  rewrite sin_PI2. lra.
Defined.

End GeometryMore.

(** ** The carving of the upper wall *)

Section Carving.
Import Constants Geometry.

(** The test of [modifyArteryWallForAnastomosis] as a distance to the
    anastomosis abscissa. *)
Lemma opening_test_abs (x cx h : R) :
  Rgtb x (heelX cx h) && Rltb x (toeX cx h) = Rltb (Rabs (x - cx)) (h * 0.8).
Proof.
  unfold heelX, toeX, Rgtb.
  destruct (Rltb (cx - h * 0.8) x) eqn:E1; destruct (Rltb x (cx + h * 0.8)) eqn:E2;
    destruct (Rltb (Rabs (x - cx)) (h * 0.8)) eqn:E3; cbn [andb]; try reflexivity;
    repeat match goal with
           | E : Rltb _ _ = true |- _ => apply Rltb_true in E
           | E : Rltb _ _ = false |- _ => apply Rltb_false in E
           end;
    exfalso; revert E3; unfold Rabs; destruct (Rcase_abs (x - cx)); intros; lra.
Qed.

(** X24. When the sine of the angle is positive the carving succeeds and
    keeps the number of points and every abscissa; it lowers by 0.8 artery
    radius exactly the points closer to the anastomosis abscissa than
    [0.8 vR / sin a] (the opening is symmetric and widens as the angle
    closes), and leaves the other points untouched. *)
Theorem X24_carving_lowers_the_opening_only :
  forall (wall : list Point2D) (cx vR a aR : R),
    0 < sin a ->
    exists carved,
      modifyArteryWallForAnastomosis wall cx vR a aR = Some carved /\
      length carved = length wall /\
      forall (i : nat) (p : Point2D),
        nth_error wall i = Some p ->
        nth_error carved i
        = Some (if Rltb (Rabs (px p - cx)) (vR / sin a * 0.8)
                then mkPoint (px p) (py p + aR * 0.8)
                else p).
Proof.
  intros wall cx vR a aR Hs.
  unfold modifyArteryWallForAnastomosis, fdiv.
  destruct (Req_dec_T (sin a) 0) as [E | Hne]; [lra|].
  cbn [bind]. eexists. split; [reflexivity|].
  split; [apply length_map|].
  intros i p Hp. rewrite nth_error_map, Hp. cbn [option_map].
  rewrite opening_test_abs.
  replace (vR * 2 / sin a / 2) with (vR / sin a) by (field; exact Hne).
  reflexivity.
Qed.

Lemma X24_witness :
  exists carved,
    modifyArteryWallForAnastomosis [mkPoint 400 269; mkPoint 500 269] 400 56 (PI / 2) 56
    = Some carved /\
    length carved = length [mkPoint 400 269; mkPoint 500 269] /\
    forall (i : nat) (p : Point2D),
      nth_error [mkPoint 400 269; mkPoint 500 269] i = Some p ->
      nth_error carved i
      = Some (if Rltb (Rabs (px p - 400)) (56 / sin (PI / 2) * 0.8)
              then mkPoint (px p) (py p + 56 * 0.8)
              else p).
Proof.
  apply (X24_carving_lowers_the_opening_only
           [mkPoint 400 269; mkPoint 500 269] 400 56 (PI / 2) 56).
  rewrite sin_PI2. lra.
Defined.

End Carving.

(** ** Edge cases of the stress indices *)

Section IndexEdgeCases.
Import WssCalculator.

(** X25. On an empty series [calculateOSI] throws in a region without
    recirculation (the sum has nothing to reduce) and returns the maximal
    index 0.5 in a recirculation zone. *)
Theorem X25_osi_of_an_empty_series :
  forall (region : RegionType) (a : R),
    (isRecirculation region a = false -> calculateOSI [] region a = None) /\
    (isRecirculation region a = true -> calculateOSI [] region a = Some 0.5).
Proof.
  intros region a. split; intros H; unfold calculateOSI; rewrite H; cbn [negb].
  - reflexivity.
  - cbv [indexed length seq combine fold_left fst snd]. f_equal.
    rewrite Rabs_R0.
    replace (0.5 * (1 - 0 / (0 + 1e-10))) with 0.5 by (unfold Rdiv; ring).
    rewrite Rmax_left by lra. apply Rmin_left. lra.
Qed.

End IndexEdgeCases.

(** ** The stress data of a run *)

Section WallData.
Import BloodProperties FlowSolver Geometry WssCalculator.

Lemma fold_left_abs (l : list R) (a0 : R) :
  fold_left (fun a b => a + Rabs b) l a0 = a0 + sumR (map Rabs l).
Proof.
  revert a0. induction l as [|x l IH]; intros a0; cbn [fold_left map].
  - unfold sumR. simpl. lra.
  - rewrite IH. change (sumR (Rabs x :: map Rabs l)) with (Rabs x + sumR (map Rabs l)).
    lra.
Qed.

Lemma sumR_scaled (k : R) (l : list R) :
  0 <= k -> (forall w, In w l -> 0 < w) ->
  sumR (map Rabs (map (fun w => k * w) l)) = k * sumR l.
Proof.
  intros Hk. induction l as [|x l IH]; intros Hpos.
  - unfold sumR. simpl. lra.
  - cbn [map]. change (sumR (Rabs (k * x) :: map Rabs (map (fun w => k * w) l)))
      with (Rabs (k * x) + sumR (map Rabs (map (fun w => k * w) l))).
    change (sumR (x :: l)) with (x + sumR l).
    rewrite IH by (intros w Hw; apply Hpos; right; exact Hw).
    assert (0 < x) by (apply Hpos; left; reflexivity).
    rewrite Rabs_right by (apply Rle_ge; apply Rmult_le_pos; lra). lra.
Qed.

(** The waveform of a positive step count: positive, of mean one. *)
Lemma generatePulsatileWaveform_normalised (hr sr : R) (n : nat) :
  (0 < n)%nat ->
  exists w, generatePulsatileWaveform hr sr n = Some w /\
            length w = n /\ (forall x, In x w -> 0 < x) /\ mean_of w = 1.
Proof.
  intros Hn.
  destruct (generatePulsatileWaveform_positive hr sr n Hn) as [w [Hw [Hlen Hpos]]].
  exists w. split; [exact Hw|]. split; [exact Hlen|]. split; [exact Hpos|].
  rewrite (generatePulsatileWaveform_some hr sr n Hn) in Hw. injection Hw as <-.
  set (fw := flooredWaveform hr sr n).
  assert (Hfl : (0 < length fw)%nat)
    by (unfold fw; rewrite flooredWaveform_length; exact Hn).
  apply mean_of_normalised; [exact Hfl|].
  assert (Hfloor : forall q, In q fw -> 0.15 <= q).
  { intros q Hq. apply in_map_iff in Hq. destruct Hq as [i [<- _]].
    apply flooredSample_floor. }
  pose proof (sumR_lower fw 0.15 Hfloor) as Hs.
  pose proof (INR_pos _ Hfl) as Hp.
  unfold mean_of. intros H0.
  assert (sumR fw = 0).
  { apply Rmult_eq_reg_r with (/ INR (length fw)).
    - unfold Rdiv in H0. rewrite H0. ring.
    - apply Rinv_neq_0_compat. lra. }
  nra.
Qed.

(** The data of one wall point under a positive waveform of mean one. *)
Lemma wallPointWSS_data (waveform : list R) (bA bV a ratio : R) (wp : WallPoint) :
  (0 < length waveform)%nat ->
  (forall w, In w waveform -> 0 < w) ->
  mean_of waveform = 1 ->
  0 <= bA -> 0 <= bV -> 0 <= a <= PI / 2 ->
  exists d,
    wallPointWSS waveform bA bV a ratio wp = Some (wp, d) /\
    tawss d = (if startsWithVein (regionType wp) then bV else bA)
              * getRegionCorrectionFactor (regionType wp) a ratio
              * (1 + 0.1 * sin (paramPosition wp * PI * 4)) /\
    0 <= tawss d /\ 0 <= osi d <= 0.5 /\
    rrt d = calculateRRT (tawss d) (osi d) /\ 0 < rrt d <= 100.
Proof.
  intros Hlen Hw Hmean HbA HbV Ha.
  destruct (wallPointWSS_osi waveform bA bV a ratio wp Hlen Hw HbA HbV Ha)
    as [d [Hd [Hosi _]]].
  exists d. split; [exact Hd|].
  unfold wallPointWSS in Hd. cbv zeta in Hd.
  destruct (calculateOSI _ _ _) as [o|] eqn:Ho; [|discriminate].
  cbn [bind] in Hd. injection Hd as <-. cbn [tawss osi rrt] in *.
  set (base := if startsWithVein (regionType wp) then bV else bA) in *.
  set (corr := getRegionCorrectionFactor (regionType wp) a ratio) in *.
  set (spatial := 1 + 0.1 * sin (paramPosition wp * PI * 4)) in *.
  assert (Hbase : 0 <= base) by (unfold base; destruct (startsWithVein _); assumption).
  assert (Hcorr : 0 < corr) by (apply getRegionCorrectionFactor_pos; exact Ha).
  assert (Hsp : 0 < spatial)
    by (unfold spatial; pose proof (SIN_bound (paramPosition wp * PI * 4)); lra).
  assert (Hk : 0 <= base * corr * spatial)
    by (repeat apply Rmult_le_pos; lra).
  assert (Ht : reduce_seed (fun a0 b => a0 + Rabs b) 0
                 (map (fun w => base * corr * spatial * w) waveform)
               / INR (length (map (fun w => base * corr * spatial * w) waveform))
               = base * corr * spatial).
  { unfold reduce_seed. rewrite fold_left_abs, sumR_scaled, length_map by assumption.
    unfold mean_of in Hmean. pose proof (INR_pos _ Hlen) as Hp.
    replace ((0 + base * corr * spatial * sumR waveform) / INR (length waveform))
      with (base * corr * spatial * (sumR waveform / INR (length waveform)))
      by (field; lra).
    rewrite Hmean. ring. }
  rewrite Ht.
  split; [reflexivity|]. split; [exact Hk|]. split; [exact Hosi|].
  split; [reflexivity|]. apply calculateRRT_bounds.
Qed.

(** The run of [calculateHemodynamics] on parameters in range, with the
    facts on every wall point that the later properties share. *)
Lemma calculateHemodynamics_wall_data (params : SimulationParams) :
  0 < arteryDiameter params -> 0 < veinDiameter params ->
  0 < anastomosisAngle params <= 90 -> 0 <= bloodFlowRate params ->
  exists res,
    calculateHemodynamics params = Some res /\
    (170 <= length (wallWSS res))%nat /\
    bloodProps res = calculateBloodProperties (bloodFlowRate params)
                       (arteryDiameter params) (hematocrit params) /\
    forall (wp : WallPoint) (d : WSSData),
      In (wp, d) (wallWSS res) ->
      tawss d = steadyWSS params wp /\ 0 <= tawss d /\ 0 <= osi d <= 0.5 /\
      rrt d = calculateRRT (tawss d) (osi d) /\ 0 < rrt d <= 100.
Proof.
  intros Ha Hv Hangle Hq. pose proof PI_RGT_0 as Hpi.
  destruct (generateGeometry_count (arteryDiameter params) (veinDiameter params)
              (anastomosisAngle params)) as [g [Hg Hcount]]; [lra|].
  destruct (generatePulsatileWaveform_normalised (heartRate params)
              (systolicRatio params) 20) as (w & Hw & Hwlen & Hwpos & Hwmean); [lia|].
  unfold calculateHemodynamics. rewrite Hg. cbn [bind]. rewrite Hw. cbn [bind].
  cbv zeta.
  fold (baseWSSArtery params). fold (baseWSSVein params).
  set (a := anastomosisAngle params * PI / 180).
  set (ratio := veinDiameter params / arteryDiameter params).
  assert (HbA : 0 <= baseWSSArtery params).
  { unfold baseWSSArtery. apply baseWSS_nonneg; [apply div_nonneg; lra | lra]. }
  assert (HbV : 0 <= baseWSSVein params).
  { unfold baseWSSVein. apply baseWSS_nonneg; [|lra].
    apply div_nonneg; [apply veinFlowRate_nonneg; assumption | lra]. }
  assert (Hrad : 0 <= a <= PI / 2) by (unfold a; split; nra).
  assert (Hwl : (0 < length w)%nat) by lia.
  destruct (mapM_some (wallPointWSS w (baseWSSArtery params) (baseWSSVein params) a ratio)
              (wallPoints g)) as [bs [Hbs Hlen]].
  { intros wp _.
    destruct (wallPointWSS_data w _ _ a ratio wp Hwl Hwpos Hwmean HbA HbV Hrad)
      as [d [Hd _]].
    eexists. exact Hd. }
  rewrite Hbs. cbn [bind]. eexists. split; [reflexivity|].
  cbn [wallWSS bloodProps].
  split.
  { rewrite Hlen, Hcount.
    pose proof (wallPointCount_range (arteryDiameter params) (veinDiameter params)
                  (anastomosisAngle params)). lia. }
  split; [reflexivity|].
  intros wp d Hin.
  destruct (mapM_in _ _ _ _ Hbs Hin) as [wp0 [_ Hwp0]].
  destruct (wallPointWSS_data w _ _ a ratio wp0 Hwl Hwpos Hwmean HbA HbV Hrad)
    as [d0 [Hd0 Hfacts]].
  rewrite Hd0 in Hwp0. injection Hwp0 as -> ->.
  exact Hfacts.
Qed.

(** X26. In a run on parameters in range the waveform cancels out of the
    time average: the TAWSS of each wall point is its base stress times the
    region correction times the spatial modulation, it is non-negative, and
    the RRT of the point, computed from its TAWSS and OSI, lies in
    (0, 100]. *)
Theorem X26_tawss_is_the_steady_stress :
  forall params : SimulationParams,
    0 < arteryDiameter params -> 0 < veinDiameter params ->
    0 < anastomosisAngle params <= 90 -> 0 <= bloodFlowRate params ->
    exists res,
      calculateHemodynamics params = Some res /\
      forall (wp : WallPoint) (d : WSSData),
        In (wp, d) (wallWSS res) ->
        tawss d = steadyWSS params wp /\ 0 <= tawss d /\
        rrt d = calculateRRT (tawss d) (osi d) /\ 0 < rrt d <= 100.
Proof.
  intros params Ha Hv Hangle Hq.
  destruct (calculateHemodynamics_wall_data params Ha Hv Hangle Hq)
    as (res & Hres & _ & _ & Hall).
  exists res. split; [exact Hres|].
  intros wp d Hin. destruct (Hall wp d Hin) as (H1 & H2 & _ & H4 & H5). auto.
Qed.

Lemma X26_witness :
  exists res,
    calculateHemodynamics DEFAULT_PARAMS = Some res /\
    forall (wp : WallPoint) (d : WSSData),
      In (wp, d) (wallWSS res) ->
      tawss d = steadyWSS DEFAULT_PARAMS wp /\ 0 <= tawss d /\
      rrt d = calculateRRT (tawss d) (osi d) /\ 0 < rrt d <= 100.
Proof.
  apply (X26_tawss_is_the_steady_stress DEFAULT_PARAMS);
    cbv [DEFAULT_PARAMS arteryDiameter veinDiameter anastomosisAngle bloodFlowRate];
    lra.
Defined.

End WallData.

(** ** The aggregate metrics *)

Section Metrics.
Import BloodProperties FlowSolver Geometry WssCalculator Aggregation.

Lemma fold_left_Rmax_ge (l : list R) (x : R) :
  x <= fold_left Rmax l x /\ forall y, In y l -> y <= fold_left Rmax l x.
Proof.
  revert x. induction l as [|z l IH]; intros x; cbn [fold_left].
  - split; [lra | intros y []].
  - destruct (IH (Rmax x z)) as [H1 H2].
    pose proof (Rmax_l x z). pose proof (Rmax_r x z).
    split; [lra|]. intros y [<- | Hy]; [lra | apply H2; exact Hy].
Qed.

Lemma fold_left_Rmin_le (l : list R) (x : R) :
  fold_left Rmin l x <= x /\ forall y, In y l -> fold_left Rmin l x <= y.
Proof.
  revert x. induction l as [|z l IH]; intros x; cbn [fold_left].
  - split; [lra | intros y []].
  - destruct (IH (Rmin x z)) as [H1 H2].
    pose proof (Rmin_l x z). pose proof (Rmin_r x z).
    split; [lra|]. intros y [<- | Hy]; [lra | apply H2; exact Hy].
Qed.

Lemma fold_left_Rmax_bounded (l : list R) (x a b : R) :
  a <= x <= b -> (forall y, In y l -> a <= y <= b) ->
  a <= fold_left Rmax l x <= b.
Proof.
  revert x. induction l as [|z l IH]; intros x Hx Hl; cbn [fold_left]; [exact Hx|].
  apply IH.
  - assert (a <= z <= b) by (apply Hl; left; reflexivity).
    split; [pose proof (Rmax_l x z); lra | apply Rmax_lub; lra].
  - intros y Hy. apply Hl. right. exact Hy.
Qed.

Lemma fold_left_Rmin_bounded (l : list R) (x a b : R) :
  a <= x <= b -> (forall y, In y l -> a <= y <= b) ->
  a <= fold_left Rmin l x <= b.
Proof.
  revert x. induction l as [|z l IH]; intros x Hx Hl; cbn [fold_left]; [exact Hx|].
  apply IH.
  - assert (a <= z <= b) by (apply Hl; left; reflexivity).
    split; [apply Rmin_glb; lra | pose proof (Rmin_l x z); lra].
  - intros y Hy. apply Hl. right. exact Hy.
Qed.

(** The extremes and the mean of a non-empty list. *)
Lemma extremes_and_mean (x : R) (l : list R) :
  spreadMax (x :: l) = Some (fold_left Rmax l x) /\
  spreadMin (x :: l) = Some (fold_left Rmin l x) /\
  reduce_sum (x :: l) = Some (sumR (x :: l)) /\
  fold_left Rmin l x <= mean_of (x :: l) <= fold_left Rmax l x.
Proof.
  split; [reflexivity|]. split; [reflexivity|]. split; [apply reduce_sum_cons|].
  apply mean_of_bounds; [simpl; lia|].
  intros y [<- | Hy].
  - pose proof (proj1 (fold_left_Rmax_ge l x)). pose proof (proj1 (fold_left_Rmin_le l x)).
    lra.
  - pose proof (proj2 (fold_left_Rmax_ge l x) y Hy).
    pose proof (proj2 (fold_left_Rmin_le l x) y Hy). lra.
Qed.

(** X27. On parameters in range the run returns its metrics, and they are
    consistent: the mean and maximal OSI lie in [0, 0.5], the mean and
    maximal RRT in (0, 100], the TAWSS statistics are ordered
    [0 <= min <= mean <= max], the stress gradient is non-negative, and the
    three short fields repeat the three means. *)
Theorem X27_metrics_are_consistent :
  forall params : SimulationParams,
    0 < arteryDiameter params -> 0 < veinDiameter params ->
    0 < anastomosisAngle params <= 90 -> 0 <= bloodFlowRate params ->
    exists res m,
      calculateHemodynamicsMetrics params = Some (res, m) /\
      0 <= meanOSI m <= 0.5 /\ meanOSI m <= maxOSI m /\ maxOSI m <= 0.5 /\
      0 < meanRRT m /\ meanRRT m <= maxRRT m /\ maxRRT m <= 100 /\
      0 <= minTAWSS m /\ minTAWSS m <= meanTAWSS m /\ meanTAWSS m <= maxTAWSS m /\
      0 <= wssGradient m /\
      m_tawss m = meanTAWSS m /\ m_osi m = meanOSI m /\ m_rrt m = meanRRT m.
Proof.
  intros params Ha Hv Hangle Hq.
  destruct (calculateHemodynamics_wall_data params Ha Hv Hangle Hq)
    as (res & Hres & Hlen & _ & Hall).
  unfold calculateHemodynamicsMetrics. rewrite Hres. cbn [bind].
  destruct (wallWSS res) as [|[wp0 d0] tl] eqn:Hw; [simpl in Hlen; lia|].
  assert (Hd0 : 0 <= tawss d0 /\ 0 <= osi d0 <= 0.5 /\ 0 < rrt d0 <= 100).
  { destruct (Hall wp0 d0 (or_introl eq_refl)) as (_ & H2 & H3 & _ & H5). auto. }
  assert (Htl : forall w, In w tl ->
            0 <= tawss (snd w) /\ 0 <= osi (snd w) <= 0.5 /\ 0 < rrt (snd w) <= 100).
  { intros [wp d] Hin. destruct (Hall wp d (or_intror Hin)) as (_ & H2 & H3 & _ & H5).
    cbn [snd]. auto. }
  unfold aggregateMetrics. cbv zeta. cbn [map snd].
  set (ts := map (fun w : WallPoint * WSSData => tawss (snd w)) tl).
  set (os := map (fun w : WallPoint * WSSData => osi (snd w)) tl).
  set (rs := map (fun w : WallPoint * WSSData => rrt (snd w)) tl).
  destruct (extremes_and_mean (tawss d0) ts) as (Et1 & Et2 & Et3 & Et4).
  destruct (extremes_and_mean (osi d0) os) as (Eo1 & _ & Eo3 & Eo4).
  destruct (extremes_and_mean (rrt d0) rs) as (Er1 & _ & Er3 & Er4).
  rewrite Et1, Et2, Et3, Eo1, Eo3, Er1, Er3. cbn [bind].
  eexists. eexists. split; [reflexivity|].
  cbn [meanOSI maxOSI meanRRT maxRRT minTAWSS meanTAWSS maxTAWSS wssGradient
       m_tawss m_osi m_rrt].
  fold (mean_of (tawss d0 :: ts)). fold (mean_of (osi d0 :: os)).
  fold (mean_of (rrt d0 :: rs)).
  assert (Hos : forall y, In y os -> 0 <= y <= 0.5).
  { intros y Hy. apply in_map_iff in Hy. destruct Hy as [w [<- Hin]].
    apply (Htl w Hin). }
  assert (Hrs : forall y, In y rs -> 0 < y <= 100).
  { intros y Hy. apply in_map_iff in Hy. destruct Hy as [w [<- Hin]].
    apply (Htl w Hin). }
  assert (Hts : forall y, In y ts -> 0 <= y).
  { intros y Hy. apply in_map_iff in Hy. destruct Hy as [w [<- Hin]].
    apply (Htl w Hin). }
  assert (Bo : 0 <= mean_of (osi d0 :: os) <= 0.5).
  { apply mean_of_bounds; [simpl; lia|]. intros y [<- | Hy]; [tauto | apply Hos; exact Hy]. }
  assert (Bomax : 0 <= fold_left Rmax os (osi d0) <= 0.5)
    by (apply fold_left_Rmax_bounded; [tauto | exact Hos]).
  assert (Brmax : fold_left Rmax rs (rrt d0) <= 100).
  { assert (0 <= fold_left Rmax rs (rrt d0) <= 100).
    { apply fold_left_Rmax_bounded; [lra|]. intros y Hy. pose proof (Hrs y Hy). lra. }
    lra. }
  assert (Br : 0 < mean_of (rrt d0 :: rs)).
  { assert (Hmin : 0 < fold_left Rmin rs (rrt d0)).
    { clear -Hd0 Hrs. revert Hrs. generalize (rrt d0) (proj1 (proj2 (proj2 Hd0))).
      induction rs as [|z l IH]; intros x Hx Hl; cbn [fold_left]; [exact Hx|].
      apply IH.
      - apply Rmin_glb_lt; [exact Hx|]. apply (Hl z). left. reflexivity.
      - intros y Hy. apply Hl. right. exact Hy. }
    lra. }
  assert (Btmin : 0 <= fold_left Rmin ts (tawss d0)).
  { clear -Hd0 Hts. revert Hts. generalize (tawss d0) (proj1 Hd0).
    induction ts as [|z l IH]; intros x Hx Hl; cbn [fold_left]; [exact Hx|].
    apply IH.
    - apply Rmin_glb; [exact Hx|]. apply (Hl z). left. reflexivity.
    - intros y Hy. apply Hl. right. exact Hy. }
  rewrite (Rmin_left _ 100) by exact Brmax.
  repeat split; try lra.
  apply div_nonneg; lra.
Qed.

Lemma X27_witness :
  exists res m,
    calculateHemodynamicsMetrics DEFAULT_PARAMS = Some (res, m) /\
    0 <= meanOSI m <= 0.5 /\ meanOSI m <= maxOSI m /\ maxOSI m <= 0.5 /\
    0 < meanRRT m /\ meanRRT m <= maxRRT m /\ maxRRT m <= 100 /\
    0 <= minTAWSS m /\ minTAWSS m <= meanTAWSS m /\ meanTAWSS m <= maxTAWSS m /\
    0 <= wssGradient m /\
    m_tawss m = meanTAWSS m /\ m_osi m = meanOSI m /\ m_rrt m = meanRRT m.
Proof.
  apply (X27_metrics_are_consistent DEFAULT_PARAMS);
    cbv [DEFAULT_PARAMS arteryDiameter veinDiameter anastomosisAngle bloodFlowRate];
    lra.
Defined.

End Metrics.

(** ** The Dean number and the reported flow rate *)

Section DeanNumber.
Import BloodProperties WssCalculator Aggregation.

(** X28. On a non-empty list of wall data the aggregation succeeds; it
    fails on the empty list.  The Dean number it reports is the Reynolds
    number of the blood properties times [sqrt (1 / 6)], whatever the
    positive vein diameter, and the flow rate it reports is [baseFlowRate]
    unless that is zero, in which case it is [bloodFlowRate]. *)
Theorem X28_dean_number_is_a_fixed_multiple_of_reynolds :
  forall (params : SimulationParams) (bp : BloodPropertiesT)
         (w : WallPoint * WSSData) (wall : list (WallPoint * WSSData)),
    0 < veinDiameter params ->
    aggregateMetrics params bp [] = None /\
    exists m,
      aggregateMetrics params bp (w :: wall) = Some m /\
      reynoldsNumber m = bp_reynoldsNumber bp /\
      deanNumber m = bp_reynoldsNumber bp * sqrt (1 / 6) /\
      (baseFlowRate params <> 0 -> totalFlowRate m = baseFlowRate params) /\
      (baseFlowRate params = 0 -> totalFlowRate m = bloodFlowRate params).
Proof.
  intros params bp w wall Hv. split; [reflexivity|].
  unfold aggregateMetrics. cbv zeta. cbn [map spreadMax spreadMin bind].
  rewrite !reduce_sum_cons. cbn [bind].
  eexists. split; [reflexivity|].
  cbn [reynoldsNumber deanNumber totalFlowRate].
  split; [reflexivity|]. split.
  - f_equal. f_equal. field. lra.
  - unfold orElse. destruct (Req_dec_T (baseFlowRate params) 0) as [E | E];
      split; intros H; try reflexivity; contradiction.
Qed.

Lemma X28_witness :
  aggregateMetrics DEFAULT_PARAMS (calculateBloodProperties 600 4 0.40) [] = None /\
  exists m,
    aggregateMetrics DEFAULT_PARAMS (calculateBloodProperties 600 4 0.40)
      [(mkWallPoint (mkPoint 0 0) (mkPoint 0 1) proximal_artery 0, mkWSS 2 0.1 1)]
    = Some m /\
    reynoldsNumber m = bp_reynoldsNumber (calculateBloodProperties 600 4 0.40) /\
    deanNumber m
    = bp_reynoldsNumber (calculateBloodProperties 600 4 0.40) * sqrt (1 / 6) /\
    (baseFlowRate DEFAULT_PARAMS <> 0 -> totalFlowRate m = baseFlowRate DEFAULT_PARAMS) /\
    (baseFlowRate DEFAULT_PARAMS = 0 -> totalFlowRate m = bloodFlowRate DEFAULT_PARAMS).
Proof.
  apply (X28_dean_number_is_a_fixed_multiple_of_reynolds DEFAULT_PARAMS).
  cbv [DEFAULT_PARAMS veinDiameter]. lra.
Defined.

End DeanNumber.

(** ** The velocity field *)

Section VelocityFieldProperties.
Import BloodProperties FlowSolver Geometry VelocityField.

(** Once the bound is passed, more turns add nothing. *)
Lemma forRange_stable (hi step : R) (n extra : nat) (x : R) :
  0 < step -> (hi - x) / step < INR n ->
  forRange (n + extra) x hi step = forRange n x hi step.
Proof.
  intros Hstep. revert x. induction n as [|n IH]; intros x Hx.
  - cbn [INR] in Hx. assert (Hgt : hi < x).
    { assert (H0 : (hi - x) / step * step < 0 * step)
        by (apply Rmult_lt_compat_r; assumption).
      unfold Rdiv in H0. rewrite Rmult_assoc, Rinv_l in H0 by lra. lra. }
    destruct extra as [|extra]; [reflexivity|].
    cbn [Nat.add forRange]. destruct (Rleb x hi) eqn:E; [|reflexivity].
    apply Rleb_true in E. lra.
  - cbn [Nat.add forRange]. destruct (Rleb x hi); [|reflexivity].
    f_equal. apply IH. rewrite S_INR in Hx.
    replace ((hi - (x + step)) / step) with ((hi - x) / step - 1) by (field; lra).
    lra.
Qed.

(** The number of turns that [forLoop] allows is enough. *)
Lemma forLoop_adequate (lo hi step : R) (extra : nat) :
  0 < step ->
  forRange (loopTurns lo hi step + extra) lo hi step = forLoop lo hi step.
Proof.
  intros Hstep. unfold forLoop. apply forRange_stable; [exact Hstep|].
  unfold loopTurns. destruct (archimed ((hi - lo) / step)) as [Hup _].
  destruct (Z.ltb_spec (up ((hi - lo) / step)) 0) as [Hneg | Hpos].
  - replace (Z.to_nat (up ((hi - lo) / step))) with 0%nat by lia. cbn [INR].
    apply IZR_lt in Hneg. lra.
  - rewrite INR_IZR_INZ.
    replace (Z.of_nat (Z.to_nat (up ((hi - lo) / step)))) with (up ((hi - lo) / step))
      by lia.
    lra.
Qed.

Lemma forRange_in (n : nat) (x hi step v : R) :
  0 <= step -> In v (forRange n x hi step) -> x <= v <= hi.
Proof.
  intros Hstep. revert x. induction n as [|n IH]; intros x Hin; [destruct Hin|].
  cbn [forRange] in Hin. destruct (Rleb x hi) eqn:E; [|destruct Hin].
  apply Rleb_true in E. destruct Hin as [<- | Hin]; [lra|].
  apply IH in Hin. lra.
Qed.

Lemma forLoop_in (lo hi step v : R) :
  0 <= step -> In v (forLoop lo hi step) -> lo <= v <= hi.
Proof. intros Hstep. apply forRange_in. exact Hstep. Qed.

Lemma loopTurns_vein_along : loopTurns 0.2 1.0 0.12 = 7%nat.
Proof.
  unfold loopTurns. rewrite <- (up_tech ((1.0 - 0.2) / 0.12) 6); [reflexivity | |];
    simpl IZR; lra.
Qed.

Lemma loopTurns_vein_across : loopTurns (-0.7) 0.7 0.35 = 5%nat.
Proof.
  unfold loopTurns. rewrite <- (up_tech ((0.7 - -0.7) / 0.35) 4); [reflexivity | |];
    simpl IZR; lra.
Qed.

Lemma forLoop_vein_along_length : length (forLoop 0.2 1.0 0.12) = 7%nat.
Proof.
  unfold forLoop. rewrite loopTurns_vein_along. cbn [forRange].
  split_cmp. reflexivity.
Qed.

Lemma forLoop_vein_across_length : length (forLoop (-0.7) 0.7 0.35) = 5%nat.
Proof.
  unfold forLoop. rewrite loopTurns_vein_across. cbn [forRange].
  split_cmp. reflexivity.
Qed.

Lemma flat_map_constant_length {A B : Type} (f : A -> list B) (l : list A) (k : nat) :
  (forall a, length (f a) = k) -> length (flat_map f l) = (length l * k)%nat.
Proof.
  intros H. induction l as [|a l IH]; [reflexivity|].
  cbn [flat_map length]. rewrite length_app, H, IH. lia.
Qed.

Lemma veinVectors_length (cx cy vR vel a : R) :
  length (veinVectors cx cy vR vel a) = 35%nat.
Proof.
  unfold veinVectors. cbv zeta.
  rewrite (flat_map_constant_length _ _ 5).
  - rewrite forLoop_vein_along_length. reflexivity.
  - intros s. rewrite length_map. apply forLoop_vein_across_length.
Qed.

End VelocityFieldProperties.

(** ** The vectors of the velocity field *)

Section VelocityVectors.
Import BloodProperties FlowSolver Geometry VelocityField.

Lemma meanVelocity_nonneg (q r : R) : 0 <= q -> 0 < r -> 0 <= meanVelocity q r.
Proof.
  intros Hq Hr. pose proof PI_RGT_0. unfold meanVelocity.
  apply div_nonneg; [exact Hq|].
  apply Rmult_lt_0_compat; [apply Rmult_lt_0_compat; assumption | exact Hr].
Qed.

Lemma branch_velocities_nonneg (params : SimulationParams) :
  0 < arteryDiameter params -> 0 < veinDiameter params -> 0 <= bloodFlowRate params ->
  0 <= arteryVelOf params /\ 0 <= veinVelOf params /\ 0 <= distalVelOf params.
Proof.
  intros Ha Hv Hq. pose proof (veinFraction_in_unit params Ha Hv) as [Hf0 Hf1].
  split; [|split].
  - apply meanVelocity_nonneg; [apply div_nonneg; lra | lra].
  - apply meanVelocity_nonneg; [|lra].
    apply div_nonneg; [apply veinFlowRate_nonneg; assumption | lra].
  - apply meanVelocity_nonneg; [|lra].
    apply div_nonneg; [|lra].
    change (distalFlowRate (calculateFlowSplit params))
      with (bloodFlowRate params * (1 - veinFraction (calculateFlowSplit params))).
    apply Rmult_le_pos; lra.
Qed.

Lemma sqrt_le_of_sqr (s b : R) : 0 <= s -> 0 <= b -> s <= b * b -> sqrt s <= b.
Proof.
  intros Hs Hb Hle. rewrite <- (sqrt_square b) by exact Hb.
  apply sqrt_le_1; [exact Hs | nra | exact Hle].
Qed.

Lemma axial_speed_bound (u b : R) :
  0 <= u <= b -> sqrt (u * u + 0 * 0) <= b.
Proof. intros Hu. apply sqrt_le_of_sqr; nra. Qed.

(** The facts on a vector in the artery. *)
Lemma arteryVectors_facts (cx cy aR va vd a : R) (v : VelocityVector) :
  0 < aR -> 0 <= va -> 0 <= vd -> 0 <= sin a ->
  In v (arteryVectors cx cy aR va vd a) ->
  (cx - 150 <= px (position v) <= cx + 150 /\
   Rabs (py (position v) - cy) <= 0.9 * aR) /\
  0 <= vx v /\ vy v <= 0 /\
  magnitude v = sqrt (vx v * vx v + vy v * vy v) /\
  magnitude v <= 2 * Rmax va vd.
Proof.
  intros HaR Hva Hvd Hs Hin. unfold arteryVectors in Hin. cbv zeta in Hin.
  apply in_flat_map in Hin. destruct Hin as [x [Hx Hin]].
  apply in_flat_map in Hin. destruct Hin as [y [Hy Hin]].
  apply forLoop_in in Hx; [|lra].
  destruct (Rgtb (Rabs (y - cy) / aR) 0.9) eqn:Ed; [destruct Hin|].
  unfold Rgtb in Ed. apply Rltb_false in Ed.
  destruct Hin as [<- | []]. cbn [position vx vy magnitude px py].
  pose proof (Rabs_pos (y - cy)) as Habs.
  assert (Hd0 : 0 <= Rabs (y - cy) / aR) by (apply div_nonneg; assumption).
  assert (Hdy : Rabs (y - cy) <= 0.9 * aR).
  { apply Rmult_le_compat_r with (r := aR) in Ed; [|lra].
    unfold Rdiv in Ed. rewrite Rmult_assoc, Rinv_l in Ed by lra. lra. }
  set (d := Rabs (y - cy) / aR) in *.
  set (p := 1 - d * d).
  assert (Hp : 0 <= p <= 1) by (unfold p; split; nra).
  pose proof (Rmax_l va vd) as Hm1. pose proof (Rmax_r va vd) as Hm2.
  set (M := Rmax va vd) in *.
  pose proof (SIN_bound a) as [_ Hs1].
  split; [split; [lra | exact Hdy]|].
  destruct (Rltb x (cx - aR * 0.5)); [|destruct (Rgtb x (cx + aR * 1.0))];
    cbn [fst snd].
  - assert (H0 : 0 <= va * 2 * p) by (apply Rmult_le_pos; nra).
    assert (H1 : va * 2 * p <= 2 * M) by nra.
    split; [exact H0|]. split; [lra|]. split; [reflexivity|].
    apply axial_speed_bound; lra.
  - assert (H0 : 0 <= vd * 2 * p) by (apply Rmult_le_pos; nra).
    assert (H1 : vd * 2 * p <= 2 * M) by nra.
    split; [exact H0|]. split; [lra|]. split; [reflexivity|].
    apply axial_speed_bound; lra.
  - set (b := Rmax 0 (1 - (y - cy + aR) / (2 * aR))).
    assert (Hb : 0 <= b <= 1).
    { unfold b. split; [apply Rmax_l|]. apply Rmax_lub; [lra|].
      assert (0 <= (y - cy + aR) / (2 * aR)).
      { apply div_nonneg; [|lra].
        assert (- (y - cy) <= Rabs (y - cy))
          by (rewrite <- Rabs_Ropp; apply Rle_abs).
        lra. }
      lra. }
    assert (Hvp : 0 <= va * p) by (apply Rmult_le_pos; lra).
    assert (Hvx : 0 <= va * p * (1 - b * 0.5)) by (apply Rmult_le_pos; lra).
    assert (Hbs : 0 <= b * sin a <= b) by (split; nra).
    assert (Hvy : 0 <= va * p * b * sin a * 0.5).
    { replace (va * p * b * sin a * 0.5) with (va * p * (b * sin a) * 0.5) by ring.
      apply Rmult_le_pos; [apply Rmult_le_pos; lra | lra]. }
    split; [exact Hvx|]. split; [lra|]. split; [reflexivity|].
    apply sqrt_le_of_sqr; [nra | lra |].
    assert (Hvp1 : va * p <= M) by nra.
    assert (H1 : va * p * (1 - b * 0.5) <= va * p) by nra.
    assert (H2 : va * p * (b * sin a) * 0.5 <= va * p) by nra.
    replace (- va * p * b * sin a * 0.5) with (- (va * p * (b * sin a) * 0.5)) by ring.
    set (u := va * p * (1 - b * 0.5)) in *. set (w := va * p * (b * sin a) * 0.5) in *.
    assert (0 <= w) by (unfold w; apply Rmult_le_pos; [apply Rmult_le_pos; lra | lra]).
    assert (0 <= M) by lra.
    nra.
Qed.

(** The facts on a vector in the vein. *)
Lemma veinVectors_facts (cx cy vR vv a : R) (v : VelocityVector) :
  0 <= vv -> 0 <= sin a ->
  In v (veinVectors cx cy vR vv a) ->
  (exists s r, 0.2 <= s <= 1.0 /\ -0.7 <= r <= 0.7 /\
     position v = mkPoint (cx + s * 250 * cos (PI - a) + r * vR * sin a)
                          (cy + s * 250 * - sin a + r * vR * cos a)) /\
  vy v <= 0 /\ 0 <= magnitude v /\
  magnitude v * magnitude v = vx v * vx v + vy v * vy v /\
  magnitude v <= 2 * vv.
Proof.
  intros Hvv Hs Hin. unfold veinVectors in Hin. cbv zeta in Hin.
  apply in_flat_map in Hin. destruct Hin as [s [Hsin Hin]].
  apply in_map_iff in Hin. destruct Hin as [r [<- Hr]].
  apply forLoop_in in Hsin; [|lra]. apply forLoop_in in Hr; [|lra].
  cbn [position vx vy magnitude].
  assert (Hp : 0 <= 1 - r * r <= 1) by (split; nra).
  assert (Hm : 0 <= vv * 2 * (1 - r * r)) by (apply Rmult_le_pos; lra).
  split; [exists s, r; repeat split; lra|].
  split; [nra|]. split; [exact Hm|]. split; [|nra].
  pose proof (cos_PI_minus_sqr a) as Hu.
  set (m := vv * 2 * (1 - r * r)) in *.
  replace (m * cos (PI - a) * (m * cos (PI - a)) + m * - sin a * (m * - sin a))
    with (m * m * (cos (PI - a) * cos (PI - a) + sin a * sin a)) by ring.
  rewrite Hu. ring.
Qed.

(** X29. For parameters in range (angle between 0 and 180 degrees) every
    vector of the velocity field has a non-negative magnitude equal to the
    length of its velocity, never points downwards on the canvas
    ([vy <= 0]), and is no faster than twice the largest of the three mean
    velocities, the peak of a parabolic profile. *)
Theorem X29_velocity_vectors_are_consistent :
  forall (params : SimulationParams) (geometry : VesselGeometry) (v : VelocityVector),
    0 < arteryDiameter params -> 0 < veinDiameter params ->
    0 <= bloodFlowRate params -> 0 <= anastomosisAngle params <= 180 ->
    In v (calculateVelocityField params geometry (calculateFlowSplit params)) ->
    0 <= magnitude v /\
    magnitude v * magnitude v = vx v * vx v + vy v * vy v /\
    vy v <= 0 /\
    magnitude v
    <= 2 * Rmax (Rmax (arteryVelOf params) (distalVelOf params)) (veinVelOf params).
Proof.
  intros params geometry v Ha Hv Hq Hangle Hin.
  destruct (branch_velocities_nonneg params Ha Hv Hq) as (Hva & Hvv & Hvd).
  pose proof PI_RGT_0 as Hpi.
  assert (Hs : 0 <= sin (anastomosisAngle params * PI / 180))
    by (apply sin_ge_0; nra).
  unfold calculateVelocityField in Hin. cbv zeta in Hin.
  fold (arteryVelOf params) in Hin. fold (veinVelOf params) in Hin.
  fold (distalVelOf params) in Hin.
  pose proof (Rmax_l (Rmax (arteryVelOf params) (distalVelOf params)) (veinVelOf params)).
  pose proof (Rmax_r (Rmax (arteryVelOf params) (distalVelOf params)) (veinVelOf params)).
  apply in_app_or in Hin. destruct Hin as [Hin | Hin].
  - apply arteryVectors_facts in Hin; try assumption; [|lra].
    destruct Hin as (_ & Hvx & Hvy & Hm & Hb).
    assert (Hsq : 0 <= vx v * vx v + vy v * vy v) by nra.
    split; [rewrite Hm; apply sqrt_pos|].
    split; [rewrite Hm; apply sqrt_sqrt; exact Hsq|].
    split; [exact Hvy | lra].
  - apply veinVectors_facts in Hin; try assumption.
    destruct Hin as (_ & Hvy & Hm0 & Hm & Hb).
    repeat split; try assumption. lra.
Qed.

End VelocityVectors.

(** ** Where the vectors of the velocity field are *)

Section VelocityPositions.
Import BloodProperties FlowSolver Geometry VelocityField.

Lemma X29_witness :
  exists v,
    In v (calculateVelocityField DEFAULT_PARAMS junctionOnly
            (calculateFlowSplit DEFAULT_PARAMS)) /\
    0 <= magnitude v /\
    magnitude v * magnitude v = vx v * vx v + vy v * vy v /\
    vy v <= 0 /\
    magnitude v
    <= 2 * Rmax (Rmax (arteryVelOf DEFAULT_PARAMS) (distalVelOf DEFAULT_PARAMS))
                (veinVelOf DEFAULT_PARAMS).
Proof.
  assert (Hin : exists v,
            In v (calculateVelocityField DEFAULT_PARAMS junctionOnly
                    (calculateFlowSplit DEFAULT_PARAMS))).
  { unfold calculateVelocityField. cbv zeta. eexists.
    apply in_or_app. right. unfold veinVectors. cbv zeta.
    apply in_flat_map. exists 0.2. split.
    - unfold forLoop. rewrite loopTurns_vein_along. cbn [forRange].
      destruct (Rleb 0.2 1.0) eqn:E; [left; reflexivity|].
      apply Rleb_false in E. lra.
    - apply in_map with (x := -0.7).
      unfold forLoop. rewrite loopTurns_vein_across. cbn [forRange].
      destruct (Rleb (-0.7) 0.7) eqn:E; [left; reflexivity|].
      apply Rleb_false in E. lra. }
  destruct Hin as [v Hv]. exists v. split; [exact Hv|].
  apply (X29_velocity_vectors_are_consistent DEFAULT_PARAMS junctionOnly v);
    try exact Hv;
    cbv [DEFAULT_PARAMS arteryDiameter veinDiameter bloodFlowRate anastomosisAngle];
    lra.
Defined.

Lemma arteryVectors_position (cx cy aR va vd a : R) (v : VelocityVector) :
  0 < aR ->
  In v (arteryVectors cx cy aR va vd a) ->
  cx - 150 <= px (position v) <= cx + 150 /\
  Rabs (py (position v) - cy) <= 0.9 * aR.
Proof.
  intros HaR Hin. unfold arteryVectors in Hin. cbv zeta in Hin.
  apply in_flat_map in Hin. destruct Hin as [x [Hx Hin]].
  apply in_flat_map in Hin. destruct Hin as [y [Hy Hin]].
  apply forLoop_in in Hx; [|lra].
  destruct (Rgtb (Rabs (y - cy) / aR) 0.9) eqn:Ed; [destruct Hin|].
  unfold Rgtb in Ed. apply Rltb_false in Ed.
  destruct Hin as [<- | []]. cbn [position px py].
  split; [lra|].
  apply Rmult_le_compat_r with (r := aR) in Ed; [|lra].
  unfold Rdiv in Ed. rewrite Rmult_assoc, Rinv_l in Ed by lra. lra.
Qed.

Lemma veinVectors_position (cx cy vR vv a : R) (v : VelocityVector) :
  In v (veinVectors cx cy vR vv a) ->
  exists s r, 0.2 <= s <= 1.0 /\ -0.7 <= r <= 0.7 /\
    position v = mkPoint (cx + s * 250 * cos (PI - a) + r * vR * sin a)
                         (cy + s * 250 * - sin a + r * vR * cos a) /\
    vx v = magnitude v * cos (PI - a) /\
    vy v = magnitude v * - sin a.
Proof.
  intros Hin. unfold veinVectors in Hin. cbv zeta in Hin.
  apply in_flat_map in Hin. destruct Hin as [s [Hsin Hin]].
  apply in_map_iff in Hin. destruct Hin as [r [<- Hr]].
  apply forLoop_in in Hsin; [|lra]. apply forLoop_in in Hr; [|lra].
  exists s, r. cbn [position vx vy magnitude]. repeat split; lra.
Qed.

Lemma cos_PI_minus (a : R) : cos (PI - a) = - cos a.
Proof. rewrite cos_minus, cos_PI, sin_PI. ring. Qed.

(** X30. The velocity field is a list of artery vectors followed by
    exactly 35 vein vectors.  The artery vectors sit within 150 px of the
    anastomosis abscissa and within 0.9 artery radius of the axis.  A vein
    vector points along the direction [d = (cos (PI - a), - sin a)] and sits
    at [c + r vR (sin a, cos a)], where [c] lies on the ray from the
    anastomosis point along [d], 50 to 250 px away, and [r] is in
    [-0.7, 0.7]: it is [|r| vR] away from [c].  The offset [(sin a, cos a)]
    is not normal to [d]: its component along [d] is [- r vR sin (2 a)], so
    that at 45 degrees the vectors are displaced along the ray and not
    across it. *)
Theorem X30_velocity_field_layout :
  forall (params : SimulationParams) (geometry : VesselGeometry) (flowSplit : FlowSplit),
    0 < arteryDiameter params ->
    let cx := px (anastomosisPoint geometry) in
    let cy := py (anastomosisPoint geometry) in
    let a := anastomosisAngle params * PI / 180 in
    let vR := veinDiameter params / 2 * 28 in
    exists arteryPart veinPart,
      calculateVelocityField params geometry flowSplit = arteryPart ++ veinPart /\
      length veinPart = 35%nat /\
      (forall v, In v arteryPart ->
         cx - 150 <= px (position v) <= cx + 150 /\
         Rabs (py (position v) - cy) <= 0.9 * (arteryDiameter params / 2 * 28)) /\
      (forall v, In v veinPart ->
         exists s r, 50 <= s <= 250 /\ -0.7 <= r <= 0.7 /\
           let centreX := cx + s * cos (PI - a) in
           let centreY := cy + s * - sin a in
           position v = mkPoint (centreX + r * vR * sin a) (centreY + r * vR * cos a) /\
           (px (position v) - centreX) * (px (position v) - centreX)
           + (py (position v) - centreY) * (py (position v) - centreY)
           = (r * vR) * (r * vR) /\
           (px (position v) - centreX) * cos (PI - a)
           + (py (position v) - centreY) * - sin a
           = - (r * vR) * sin (2 * a) /\
           vx v = magnitude v * cos (PI - a) /\
           vy v = magnitude v * - sin a).
Proof.
  intros params geometry flowSplit Ha cx cy a vR.
  unfold calculateVelocityField. cbv zeta. fold cx. fold cy. fold a. fold vR.
  eexists. eexists. split; [reflexivity|].
  split; [apply veinVectors_length|]. split.
  - intros v Hv. apply arteryVectors_position in Hv; [exact Hv | lra].
  - intros v Hv. apply veinVectors_position in Hv.
    destruct Hv as (s & r & Hs & Hr & Hpos & Hvx & Hvy).
    exists (s * 250), r. split; [lra|]. split; [exact Hr|].
    rewrite Hpos. cbn [px py].
    pose proof (sin2_cos2 a) as Hsc. unfold Rsqr in Hsc.
    split; [reflexivity|]. split; [|split; [|split; assumption]].
    + replace (cx + s * 250 * cos (PI - a) + r * vR * sin a
               - (cx + s * 250 * cos (PI - a))) with (r * vR * sin a) by ring.
      replace (cy + s * 250 * - sin a + r * vR * cos a
               - (cy + s * 250 * - sin a)) with (r * vR * cos a) by ring.
      replace (r * vR * sin a * (r * vR * sin a) + r * vR * cos a * (r * vR * cos a))
        with (r * vR * (r * vR) * (sin a * sin a + cos a * cos a)) by ring.
      rewrite Hsc. ring.
    + rewrite cos_PI_minus, sin_2a. ring.
Qed.

Lemma X30_witness :
  let a := 45 * PI / 180 in
  let vR := 4.0 / 2 * 28 in
  exists arteryPart veinPart,
    calculateVelocityField DEFAULT_PARAMS junctionOnly (calculateFlowSplit DEFAULT_PARAMS)
    = arteryPart ++ veinPart /\
    length veinPart = 35%nat /\
    (forall v, In v arteryPart ->
       400 - 150 <= px (position v) <= 400 + 150 /\
       Rabs (py (position v) - 325) <= 0.9 * (4.0 / 2 * 28)) /\
    (forall v, In v veinPart ->
       exists s r, 50 <= s <= 250 /\ -0.7 <= r <= 0.7 /\
         let centreX := 400 + s * cos (PI - a) in
         let centreY := 325 + s * - sin a in
         position v = mkPoint (centreX + r * vR * sin a) (centreY + r * vR * cos a) /\
         (px (position v) - centreX) * (px (position v) - centreX)
         + (py (position v) - centreY) * (py (position v) - centreY)
         = (r * vR) * (r * vR) /\
         (px (position v) - centreX) * cos (PI - a)
         + (py (position v) - centreY) * - sin a
         = - (r * vR) * sin (2 * a) /\
         vx v = magnitude v * cos (PI - a) /\
         vy v = magnitude v * - sin a).
Proof.
  apply (X30_velocity_field_layout DEFAULT_PARAMS junctionOnly
           (calculateFlowSplit DEFAULT_PARAMS)).
  cbv [DEFAULT_PARAMS arteryDiameter]. lra.
Defined.

End VelocityPositions.
